(** * Local chat-history storage: persistence, per-account access and the
      [chatModel] migration

    A shallow embedding of [vscode/src/services/LocalStorageProvider.ts].

    The TypeScript code works on JavaScript objects that are shared by
    reference: the record loaded from the backing store is compared by
    identity with the migrated record ([history !== migratedHistory]),
    updated in place ([fullHistory[key] = history]) and edited through an
    alias ([delete userHistory.chat[chatID]]).  The embedding therefore keeps
    an explicit object heap for the three kinds of object the code mutates or
    compares (the account-keyed record, an account's history, and its chat
    table); transcripts, interactions and messages are only ever rebuilt, never
    mutated, and are plain values.  JavaScript objects used as string-keyed
    tables are [gmap]s: the code never depends on key order. *)

From stdpp Require Import gmap strings list fin_maps.

Open Scope string_scope.

(** ** Serialized chat data (the JSON shape of the persisted record)

    The types of this section are declared in [@sourcegraph/cody-shared]; the
    file only imports them. *)

(** Modelled from the spec: [SerializedChatMessage], after the persisted
    record layout (spec section 6): a message with an optional [model]; its
    other fields are carried along unchanged by the object spread. *)
Record SerializedChatMessage : Type := {
    speaker : string;
    text : option string;
    model : option string;
  }.

(** Modelled from the spec: [SerializedChatInteraction] (spec sections 3 and
    6): a human message paired with an assistant message that is [null] when
    absent. *)
Record SerializedChatInteraction : Type := {
    humanMessage : SerializedChatMessage;
    assistantMessage : option SerializedChatMessage;
  }.

(** Modelled from the spec: [SerializedChatTranscript] (spec section 6);
    [chatModel] is the legacy, transcript-wide model identifier. *)
Record SerializedChatTranscript : Type := {
    transcript_id : string;
    chatTitle : option string;
    chatModel : option string;
    interactions : list SerializedChatInteraction;
  }.

(** Modelled from the spec: [ChatHistory], chat identifier to transcript
    (spec section 3).  The migration guards against a falsy transcript
    ([transcript ? ... : transcript]), so an entry may be [None]. *)
Abbreviation ChatHistory := (gmap string (option SerializedChatTranscript)).

(** The JSON value of one account's entry, [PersistedUserLocalHistory].  The
    migration guards against a missing [chat] field. *)
Record UserLocalHistory : Type := { chat : option ChatHistory }.

(** The JSON value of the whole persisted record,
    [AccountKeyedChatHistory]. *)
Abbreviation AccountKeyedChatHistory := (gmap string UserLocalHistory).

(** Modelled from the spec: [AuthStatus], of which the file reads the
    endpoint and the user name (spec section 3, AccountKey). *)
Record AuthStatus : Type := { endpoint : string; username : string }.

Global Instance SerializedChatMessage_eq_dec : EqDecision SerializedChatMessage.
Proof. solve_decision. Defined.
Global Instance SerializedChatInteraction_eq_dec : EqDecision SerializedChatInteraction.
Proof. solve_decision. Defined.
Global Instance SerializedChatTranscript_eq_dec : EqDecision SerializedChatTranscript.
Proof. solve_decision. Defined.
Global Instance UserLocalHistory_eq_dec : EqDecision UserLocalHistory.
Proof. solve_decision. Defined.

(** [`${authStatus.endpoint}-${authStatus.username}`] *)
Definition getKeyForAuthStatus (authStatus : AuthStatus) : string :=
  endpoint authStatus +:+ "-" +:+ username authStatus.

(** JavaScript truthiness of an optional string: [undefined] and the empty
    string are falsy. *)
Definition truthy (s : option string) : bool :=
  match s with
  | Some EmptyString => false
  | Some _ => true
  | None => false
  end.

(** ** The message-level migration

    [neededMigration] is a local variable of
    [migrateHistoryForChatModelProperty] captured by the closure
    [migrateAssistantMessage]; it is threaded explicitly: every function below
    takes the current counter and returns the new one. *)

Definition migrateAssistantMessage (assistantMessage : SerializedChatMessage)
    (model' : option string) (neededMigration : nat) : SerializedChatMessage * nat :=
  if truthy (model assistantMessage) then (assistantMessage, neededMigration)
  else
    ({| speaker := speaker assistantMessage;
        text := text assistantMessage;
        model := Some (default "unknown" model') |},
     S neededMigration).

(** One element of [transcript.interactions.map(...)]: the interaction is
    rebuilt by spread; a [null] assistant message stays [null]. *)
Definition migrateInteraction (chatModel' : option string)
    (interaction : SerializedChatInteraction) (neededMigration : nat)
    : SerializedChatInteraction * nat :=
  match assistantMessage interaction with
  | Some message =>
      let '(message', n) := migrateAssistantMessage message chatModel' neededMigration in
      ({| humanMessage := humanMessage interaction; assistantMessage := Some message' |}, n)
  | None =>
      ({| humanMessage := humanMessage interaction; assistantMessage := None |},
       neededMigration)
  end.

(** [Array.prototype.map] with a callback that reads and writes the captured
    counter: elements are visited left to right. *)
Fixpoint map_counting {A B : Type} (f : A → nat → B * nat) (l : list A) (n : nat)
    : list B * nat :=
  match l with
  | [] => ([], n)
  | x :: l' =>
      let '(y, n1) := f x n in
      let '(ys, n2) := map_counting f l' n1 in
      (y :: ys, n2)
  end.

(** The value built for one chat identifier: [{...transcript, interactions:
    ...}] for a truthy transcript, the transcript itself otherwise. *)
Definition migrateTranscript (transcript : option SerializedChatTranscript)
    (neededMigration : nat) : option SerializedChatTranscript * nat :=
  match transcript with
  | Some t =>
      let '(interactions', n) :=
        map_counting (migrateInteraction (chatModel t)) (interactions t) neededMigration in
      (Some {| transcript_id := transcript_id t;
               chatTitle := chatTitle t;
               chatModel := chatModel t;
               interactions := interactions' |}, n)
  | None => (None, neededMigration)
  end.

(** [Object.fromEntries(Object.entries(userLocalHistory.chat).map(([id,
    transcript]) => [id, ...]))]. *)
Definition migrateChat (chat' : ChatHistory) (neededMigration : nat) : ChatHistory * nat :=
  let '(entries, n) :=
    map_counting
      (λ '(id, transcript) n,
         let '(transcript', n') := migrateTranscript transcript n in ((id, transcript'), n'))
      (map_to_list chat') neededMigration in
  (list_to_map entries, n).

(** ** Objects, references and the heap *)

(** Object identities.  Two references are the same object exactly when they
    are equal ([===] on objects). *)
Abbreviation loc := nat.

(** The objects the code compares by identity or mutates in place. *)
Inductive obj : Type :=
  | OHistory (accounts : gmap string loc)
      (** an [AccountKeyedChatHistory]: account key to account-history object *)
  | OUserHistory (chat_ref : option loc)
      (** a [PersistedUserLocalHistory] / [UserLocalHistory]: its [chat] field *)
  | OChat (transcripts : ChatHistory)
      (** a [ChatHistory] table *).

Abbreviation heap := (gmap nat obj).

(** What a storage slot can hold, as far as this file reads and writes. *)
Inductive value : Type :=
  | VUndefined
  | VNull
  | VString (s : string)
  | VRef (l : loc).

Global Instance obj_eq_dec : EqDecision obj.
Proof. solve_decision. Defined.
Global Instance value_eq_dec : EqDecision value.
Proof. solve_decision. Defined.

Inductive Error : Type :=
  | NotInitialized
      (** [new Error('LocalStorage not initialized')] *)
  | TypeError
      (** a property access on [undefined] or [null], or on an object of
          another shape than the declared type *)
  | BackendError (message : string)
      (** whatever the backing store raises *).

Global Instance Error_eq_dec : EqDecision Error.
Proof. solve_decision. Defined.

(** ** The backing store (VS Code's [Memento], or an [AsyncMemento]) *)

(** How a backend's [update] can fail: by throwing at the call, or by
    returning a promise that rejects later. *)
Inductive update_failure : Type :=
  | UpdateThrows (e : Error)
  | UpdateRejects (e : Error).

(** Modelled from the spec: the key/value persistence capability that the
    environment supplies ([keys], [get(key, default)], [update(key, value)],
    spec section 6); its implementation is the editor's, not this
    repository's.  A backend keeps its slots, a record of the [update] calls
    it received, and, to describe a failing backend, the error its [get] or
    its [update] raises.  Object values are kept by reference. *)
Record Memento : Type := {
    contents : gmap string value;
    get_throws : option Error;
    update_fails : option update_failure;
    update_calls : list (string * value);
  }.

(** ** Program state *)

Record World : Type := {
    objects : heap;
    mementos : gmap nat Memento;
        (** the backends that exist, by identity *)
    _storage : option nat;
        (** [LocalStorage._storage]: the adapter made by [convertToAsyncStore]
            around the backend of that identity, or [null] *)
    console : list Error;
        (** what [console.error] received *)
    debug_log : list nat;
        (** [logDebug('migrateHistoryForChatModelProperty', `${n} chat messages
            migrated`)]: the [n] of each call *)
    unhandled_rejections : list Error;
        (** rejected promises that no code awaits or handles *)
  }.

(** ** Computations: state passing with exceptions

    A call either returns a value or throws; either way it leaves a state.
    For an [async] function, "returns" is a promise that fulfils and "throws"
    a promise that rejects; every [await] in the file is of the call just
    made, so with one caller at a time the two readings agree. *)
Inductive outcome (A : Type) : Type :=
  | Returned (a : A)
  | Thrown (e : Error).
Arguments Returned {A} a.
Arguments Thrown {A} e.

Definition Eff (S A : Type) : Type := S → outcome A * S.

Global Instance Eff_ret {S} : MRet (Eff S) := λ A a s, (Returned a, s).
Global Instance Eff_bind {S} : MBind (Eff S) := λ A B k m s,
  match m s with
  | (Returned a, s') => k a s'
  | (Thrown e, s') => (Thrown e, s')
  end.

Definition throw {S A} (e : Error) : Eff S A := λ s, (Thrown e, s).

(** [try { body } catch (error) { handler(error) }] *)
Definition try_catch {S A} (body : Eff S A) (handler : Error → Eff S A) : Eff S A := λ s,
  match body s with
  | (Returned a, s') => (Returned a, s')
  | (Thrown e, s') => handler e s'
  end.

Definition set_objects (h : heap) (w : World) : World :=
  {| objects := h; mementos := mementos w; _storage := _storage w;
     console := console w; debug_log := debug_log w;
     unhandled_rejections := unhandled_rejections w |}.

(** Running a heap computation inside the program state. *)
Definition on_heap {A} (m : Eff heap A) : Eff World A := λ w,
  let '(r, h) := m (objects w) in (r, set_objects h w).

(** *** Heap primitives *)

(** A new object: its identity differs from that of every existing one. *)
Definition alloc (o : obj) : Eff heap loc := λ h,
  let l := fresh (dom h) in (Returned l, <[l := o]> h).

(** Reading through a reference at the declared type; an object of another
    shape is a type error. *)
Definition read_history (l : loc) : Eff heap (gmap string loc) := λ h,
  match h !! l with
  | Some (OHistory accounts) => (Returned accounts, h)
  | _ => (Thrown TypeError, h)
  end.

Definition read_user_history (l : loc) : Eff heap (option loc) := λ h,
  match h !! l with
  | Some (OUserHistory c) => (Returned c, h)
  | _ => (Thrown TypeError, h)
  end.

Definition read_chat (l : loc) : Eff heap ChatHistory := λ h,
  match h !! l with
  | Some (OChat transcripts) => (Returned transcripts, h)
  | _ => (Thrown TypeError, h)
  end.

(** In-place update of an existing object. *)
Definition write (l : loc) (o : obj) : Eff heap unit := λ h,
  (Returned tt, <[l := o]> h).

(** [Array.prototype.map] with an effectful callback and the captured
    counter. *)
Fixpoint mapM_counting {S A B : Type} (f : A → nat → Eff S (B * nat)) (l : list A)
    (n : nat) : Eff S (list B * nat) :=
  match l with
  | [] => mret ([], n)
  | x :: l' =>
      '(y, n1) ← f x n;
      '(ys, n2) ← mapM_counting f l' n1;
      mret (y :: ys, n2)
  end.

(** ** The migration ([migrateHistoryForChatModelProperty]) *)

(** The object built for one account:
    [{ chat: userLocalHistory.chat ? Object.fromEntries(...) : {} }]. *)
Definition migrateUserLocalHistory (userLocalHistory : loc) (neededMigration : nat)
    : Eff heap (loc * nat) :=
  c ← read_user_history userLocalHistory;
  match c with
  | Some chat_l =>
      transcripts ← read_chat chat_l;
      let '(transcripts', n) := migrateChat transcripts neededMigration in
      chat' ← alloc (OChat transcripts');
      user' ← alloc (OUserHistory (Some chat'));
      mret (user', n)
  | None =>
      chat' ← alloc (OChat ∅);
      user' ← alloc (OUserHistory (Some chat'));
      mret (user', neededMigration)
  end.

(** The callback of the outer [map]:
    [([accountKey, userLocalHistory]) => [accountKey, {...}]]. *)
Definition migrateAccountEntry (entry : string * loc) (neededMigration : nat)
    : Eff heap ((string * loc) * nat) :=
  let '(accountKey, userLocalHistory) := entry in
  '(user', n) ← migrateUserLocalHistory userLocalHistory neededMigration;
  mret ((accountKey, user'), n).

(** [const migratedHistory = Object.fromEntries(Object.entries(history).map(
    ...))], together with the final value of [neededMigration]. *)
Definition build_migratedHistory (history : loc) : Eff heap (loc * nat) :=
  accounts ← read_history history;
  '(entries, n) ← mapM_counting migrateAccountEntry (map_to_list accounts) 0;
  migratedHistory ← alloc (OHistory (list_to_map entries));
  mret (migratedHistory, n).

Definition add_debug (n : nat) (w : World) : World :=
  {| objects := objects w; mementos := mementos w; _storage := _storage w;
     console := console w; debug_log := debug_log w ++ [n];
     unhandled_rejections := unhandled_rejections w |}.

(** Modelled from the spec: [logDebug] of [@sourcegraph/cody-shared], which
    reports "how many messages were migrated (for diagnostic logging only)"
    (spec section 4.3); the report is kept as the number. *)
Definition logDebug (n : nat) : Eff World unit := λ w, (Returned tt, add_debug n w).

(** [history] is [null] ([None]) or a reference to the loaded record.  The
    result is [history] itself when no message needed a model, the newly built
    record otherwise. *)
Definition migrateHistoryForChatModelProperty (history : option loc)
    : Eff World (option loc) :=
  match history with
  | None => mret None
  | Some l =>
      '(migratedHistory, neededMigration) ← on_heap (build_migratedHistory l);
      match neededMigration with
      | 0 => mret history
      | S _ => logDebug neededMigration;; mret (Some migratedHistory)
      end
  end.

(** ** The storage adapter and the [LocalStorage] singleton *)

Definition KEY_LOCAL_HISTORY : string := "cody-local-chatHistory-v2".
Definition KEY_CONFIG : string := "cody-config".
Definition KEY_LOCAL_MINION_HISTORY : string := "cody-local-minionHistory-v0".
Definition LAST_USED_ENDPOINT : string := "SOURCEGRAPH_CODY_ENDPOINT".
Definition CODY_ENDPOINT_HISTORY : string := "SOURCEGRAPH_CODY_ENDPOINT_HISTORY".

Definition set_memento (b : nat) (m : Memento) (w : World) : World :=
  {| objects := objects w; mementos := <[b := m]> (mementos w); _storage := _storage w;
     console := console w; debug_log := debug_log w;
     unhandled_rejections := unhandled_rejections w |}.

(** What [get(key, defaultValue)] yields on [slots]: the stored value, or the
    default for a slot that is empty or holds [undefined]. *)
Definition read_slot (key : string) (defaultValue : value) (slots : gmap string value)
    : value :=
  match slots !! key with
  | None | Some VUndefined => defaultValue
  | Some v => v
  end.

(** Modelled from the spec: [store.get(key, defaultValue)] of the backend: it
    "must never throw for a missing key; it returns the caller-supplied
    default" (spec section 4.1); a failing backend raises its error. *)
Definition Memento_get (store : nat) (key : string) (defaultValue : value)
    : Eff World value := λ w,
  match mementos w !! store with
  | None => (Thrown TypeError, w)
  | Some m =>
      match get_throws m with
      | Some e => (Thrown e, w)
      | None => (Returned (read_slot key defaultValue (contents m)), w)
      end
  end.

(** The backend after a call [update(key, v)] that left it with [slots]. *)
Definition called (key : string) (v : value) (slots : gmap string value) (m : Memento)
    : Memento :=
  {| contents := slots; get_throws := get_throws m; update_fails := update_fails m;
     update_calls := update_calls m ++ [(key, v)] |}.

Definition write_slot (key : string) (v : value) (slots : gmap string value)
    : gmap string value :=
  match v with
  | VUndefined => delete key slots
  | _ => <[key := v]> slots
  end.

(** Modelled from the spec: [store.update(key, value)] of the backend.  The
    call is recorded; it throws, or returns a promise, given here by its
    outcome, that fulfils once the slot holds the value or rejects with the
    slot unchanged.  Writing [undefined] clears the slot. *)
Definition Memento_update (store : nat) (key : string) (v : value)
    : Eff World (outcome unit) := λ w,
  match mementos w !! store with
  | None => (Thrown TypeError, w)
  | Some m =>
      match update_fails m with
      | Some (UpdateThrows e) =>
          (Thrown e, set_memento store (called key v (contents m) m) w)
      | Some (UpdateRejects e) =>
          (Returned (Thrown e), set_memento store (called key v (contents m) m) w)
      | None =>
          (Returned (Returned tt),
           set_memento store (called key v (write_slot key v (contents m)) m) w)
      end
  end.

Definition add_console (error : Error) (w : World) : World :=
  {| objects := objects w; mementos := mementos w; _storage := _storage w;
     console := console w ++ [error]; debug_log := debug_log w;
     unhandled_rejections := unhandled_rejections w |}.

(** [console.error(error)] *)
Definition console_error (error : Error) : Eff World unit := λ w,
  (Returned tt, add_console error w).

Definition add_unhandled (e : Error) (w : World) : World :=
  {| objects := objects w; mementos := mementos w; _storage := _storage w;
     console := console w; debug_log := debug_log w;
     unhandled_rejections := unhandled_rejections w ++ [e] |}.

(** A promise that is dropped: if it rejects, nothing handles the rejection. *)
Definition drop_promise (p : outcome unit) : Eff World unit := λ w,
  match p with
  | Returned _ => (Returned tt, w)
  | Thrown e => (Returned tt, add_unhandled e w)
  end.

(** [convertToAsyncStore(store)]: the adapter is determined by the backend it
    closes over; its methods are given with that backend as first argument. *)
Module convertToAsyncStore.

(** [Promise.resolve(store.get(key, defaultValue) as T)] *)
Definition get (store : nat) (key : string) (defaultValue : value) : Eff World value :=
  Memento_get store key defaultValue.

(** [store.update(key, value); return Promise.resolve()] *)
Definition update (store : nat) (key : string) (v : value) : Eff World unit :=
  p ← Memento_update store key v;
  drop_promise p;;
  mret tt.

End convertToAsyncStore.

(** The unchecked cast of [storage.get<AccountKeyedChatHistory | null>]: the
    slot holds [null] or a record.  Any other content is outside the declared
    type and is rejected here. *)
Definition as_history (v : value) : Eff World (option loc) :=
  match v with
  | VNull => mret None
  | VRef l => mret (Some l)
  | _ => throw TypeError
  end.

Definition of_history (history : option loc) : value :=
  match history with
  | Some l => VRef l
  | None => VNull
  end.

(** [{ chat: {} }] *)
Definition empty_history : Eff heap loc :=
  chat' ← alloc (OChat ∅);
  alloc (OUserHistory (Some chat')).

Definition set_storage (adapter : option nat) (w : World) : World :=
  {| objects := objects w; mementos := mementos w; _storage := adapter;
     console := console w; debug_log := debug_log w;
     unhandled_rejections := unhandled_rejections w |}.

(** The [LocalStorage] class; [localStorage] is its only instance, so its
    field [_storage] is the field of the program state. *)
Module LocalStorage.

(** [private get storage()] *)
Definition storage : Eff World nat := λ w,
  match _storage w with
  | Some adapter => (Returned adapter, w)
  | None => (Thrown NotInitialized, w)
  end.


(** [entry ?? { chat: {} }] *)
Definition entry_or_default (entry : option loc) : Eff World loc :=
  match entry with
  | Some userHistory => mret userHistory
  | None => on_heap empty_history
  end.

Definition getChatHistory (authStatus : AuthStatus) : Eff World loc :=
  store ← storage;
  v ← convertToAsyncStore.get store KEY_LOCAL_HISTORY VNull;
  history ← as_history v;
  let accountKey := getKeyForAuthStatus authStatus in
  migratedHistory ← migrateHistoryForChatModelProperty history;
  (if decide (history ≠ migratedHistory) then
     store' ← storage;
     (* the promise returned by the adapter always fulfils, so the
        [console.error] of [.then(() => {}, console.error)] never runs *)
     convertToAsyncStore.update store' KEY_LOCAL_HISTORY (of_history migratedHistory)
   else mret tt);;
  (* [migratedHistory?.[accountKey] ?? { chat: {} }] *)
  entry ← match migratedHistory with
          | Some l => accounts ← on_heap (read_history l); mret (accounts !! accountKey)
          | None => mret None
          end;
  entry_or_default entry.

Definition setChatHistory (authStatus : AuthStatus) (history : loc) : Eff World unit :=
  try_catch
    (let key := getKeyForAuthStatus authStatus in
     store ← storage;
     v ← convertToAsyncStore.get store KEY_LOCAL_HISTORY VNull;
     fullHistory ← as_history v;
     fullHistory' ←
       match fullHistory with
       | Some l =>
           (* [fullHistory[key] = history] *)
           accounts ← on_heap (read_history l);
           on_heap (write l (OHistory (<[key := history]> accounts)));;
           mret l
       | None => on_heap (alloc (OHistory {[key := history]}))
       end;
     store' ← storage;
     convertToAsyncStore.update store' KEY_LOCAL_HISTORY (VRef fullHistory'))
    console_error.

Definition deleteChatHistory (authStatus : AuthStatus) (chatID : string) : Eff World unit :=
  userHistory ← getChatHistory authStatus;
  (* [if (userHistory)]: an object reference is truthy *)
  try_catch
    ((* [delete userHistory.chat[chatID]] *)
     c ← on_heap (read_user_history userHistory);
     match c with
     | Some chat_l =>
         transcripts ← on_heap (read_chat chat_l);
         on_heap (write chat_l (OChat (delete chatID transcripts)))
     | None => throw TypeError
     end;;
     setChatHistory authStatus userHistory)
    console_error.

Definition removeChatHistory (authStatus : AuthStatus) : Eff World unit :=
  try_catch
    (history ← on_heap empty_history;
     setChatHistory authStatus history)
    console_error.

Definition setMinionHistory (authStatus : AuthStatus) (serializedHistory : string)
    : Eff World unit :=
  store ← storage;
  convertToAsyncStore.update store KEY_LOCAL_MINION_HISTORY (VString serializedHistory).

Definition getMinionHistory (authStatus : AuthStatus) : Eff World value :=
  store ← storage;
  convertToAsyncStore.get store KEY_LOCAL_MINION_HISTORY VNull.

Definition deleteEndpoint : Eff World unit :=
  store ← storage;
  convertToAsyncStore.update store LAST_USED_ENDPOINT VNull.

Definition getEndpointHistory : Eff World value :=
  store ← storage;
  convertToAsyncStore.get store CODY_ENDPOINT_HISTORY VNull.

(** [get<T>(key)], [set<T>(key, value)] and [delete(key)] *)
Definition get (key : string) : Eff World value :=
  store ← storage;
  convertToAsyncStore.get store key VNull.

Definition set (key : string) (v : value) : Eff World unit :=
  try_catch
    (store ← storage;
     convertToAsyncStore.update store key v)
    console_error.

Definition delete (key : string) : Eff World unit :=
  store ← storage;
  convertToAsyncStore.update store key VUndefined.

Definition setConfig (config : value) : Eff World unit := set KEY_CONFIG config.

Definition getConfig : Eff World value := get KEY_CONFIG.

End LocalStorage.

(** ** Reading the heap back as JSON

    What [JSON.stringify] would show of an object graph: the views below
    forget identities and keep contents. *)

Definition chat_at (h : heap) (l : loc) : option ChatHistory :=
  match h !! l with
  | Some (OChat transcripts) => Some transcripts
  | _ => None
  end.

Definition user_history_at (h : heap) (l : loc) : option UserLocalHistory :=
  match h !! l with
  | Some (OUserHistory None) => Some {| chat := None |}
  | Some (OUserHistory (Some c)) =>
      match chat_at h c with
      | Some transcripts => Some {| chat := Some transcripts |}
      | None => None
      end
  | _ => None
  end.

(** The content of the record at [l]; an entry is [None] when its reference
    does not lead to an account history. *)
Definition history_at (h : heap) (l : loc) : option (gmap string (option UserLocalHistory)) :=
  match h !! l with
  | Some (OHistory accounts) => Some (user_history_at h <$> accounts)
  | _ => None
  end.

(** The object at [l] is a well-formed record with content [v]. *)
Definition holds (h : heap) (l : loc) (v : AccountKeyedChatHistory) : Prop :=
  history_at h l = Some (Some <$> v).

(** The same for a nullable reference: [null] has no content. *)
Definition holds_opt (h : heap) (r : option loc) (v : option AccountKeyedChatHistory) : Prop :=
  match r, v with
  | Some l, Some v' => holds h l v'
  | None, None => True
  | _, _ => False
  end.

(** Two table entries whose account objects do not share a chat table. *)
Definition unshared (h : heap) (e1 e2 : string * loc) : Prop :=
  ∀ c, h !! e1.2 = Some (OUserHistory (Some c)) → h !! e2.2 ≠ Some (OUserHistory (Some c)).

(** No two accounts of the table share their chat table. *)
Definition separated (h : heap) (accounts : gmap string loc) : Prop :=
  ∀ k1 k2 l1 l2 c,
    k1 ≠ k2 → accounts !! k1 = Some l1 → accounts !! k2 = Some l2 →
    h !! l1 = Some (OUserHistory (Some c)) → h !! l2 ≠ Some (OUserHistory (Some c)).

(** ** The migration, as the specification words it

    "If the interaction has an assistant message, and that message already has
    a non-empty [model] field, leave it untouched.  Otherwise, set the
    message's [model] field to the transcript's legacy [chatModel] field if
    present, else to the literal string ["unknown"]." *)

Definition lacks_model (message : SerializedChatMessage) : bool :=
  negb (truthy (model message)).

Definition with_model (fallback : option string) (message : SerializedChatMessage)
    : SerializedChatMessage :=
  {| speaker := speaker message; text := text message;
     model := Some (default "unknown" fallback) |}.

Definition migrated_message (fallback : option string) (message : SerializedChatMessage)
    : SerializedChatMessage :=
  if lacks_model message then with_model fallback message else message.

Definition migrated_interaction (fallback : option string)
    (interaction : SerializedChatInteraction) : SerializedChatInteraction :=
  {| humanMessage := humanMessage interaction;
     assistantMessage := migrated_message fallback <$> assistantMessage interaction |}.

Definition migrated_transcript (t : SerializedChatTranscript) : SerializedChatTranscript :=
  {| transcript_id := transcript_id t; chatTitle := chatTitle t; chatModel := chatModel t;
     interactions := migrated_interaction (chatModel t) <$> interactions t |}.

Definition migrated_chat (transcripts : ChatHistory) : ChatHistory :=
  fmap (M := option) migrated_transcript <$> transcripts.

(** "Transcripts with no [chat] field are treated as empty." *)
Definition migrated_user (u : UserLocalHistory) : UserLocalHistory :=
  {| chat := Some (from_option migrated_chat ∅ (chat u)) |}.

Definition migrated_store (v : AccountKeyedChatHistory) : AccountKeyedChatHistory :=
  migrated_user <$> v.

(** "Increment a migration counter for every message actually changed": the
    number of assistant messages that lack a model. *)
Definition pending_interaction (interaction : SerializedChatInteraction) : nat :=
  match assistantMessage interaction with
  | Some message => if lacks_model message then 1 else 0
  | None => 0
  end.

Definition pending_transcript (transcript : option SerializedChatTranscript) : nat :=
  match transcript with
  | Some t => sum_list_with pending_interaction (interactions t)
  | None => 0
  end.

Definition pending_chat (transcripts : ChatHistory) : nat :=
  sum_list_with (λ entry, pending_transcript entry.2) (map_to_list transcripts).

Definition pending_user (u : UserLocalHistory) : nat :=
  from_option pending_chat 0 (chat u).

Definition pending_store (v : AccountKeyedChatHistory) : nat :=
  sum_list_with (λ entry, pending_user entry.2) (map_to_list v).

(** ** What the backing store holds *)

(** The content of a slot; an empty slot reads as [undefined]. *)
Definition slot (w : World) (b : nat) (key : string) : value :=
  match mementos w !! b with
  | Some m => default VUndefined (contents m !! key)
  | None => VUndefined
  end.

(** The JSON content of the history record that backend [b] holds. *)
Definition stored_history (w : World) (b : nat)
    : option (gmap string (option UserLocalHistory)) :=
  match slot w b KEY_LOCAL_HISTORY with
  | VRef l => history_at (objects w) l
  | _ => None
  end.

(** The JSON content of one account's entry in it. *)
Definition stored_account (w : World) (b : nat) (accountKey : string)
    : option UserLocalHistory :=
  s ← stored_history w b; mjoin (s !! accountKey).

(** The account-history object an account key leads to. *)
Definition stored_account_ref (w : World) (b : nat) (accountKey : string) : option loc :=
  match slot w b KEY_LOCAL_HISTORY with
  | VRef l =>
      match objects w !! l with
      | Some (OHistory accounts) => accounts !! accountKey
      | _ => None
      end
  | _ => None
  end.

(** The history slot of backend [b] is well typed: it is empty or [null]
    ([None]), or it refers to a well-formed record of content [v]. *)
Definition stores (w : World) (b : nat) (v : option AccountKeyedChatHistory) : Prop :=
  match slot w b KEY_LOCAL_HISTORY, v with
  | VRef l, Some v' => holds (objects w) l v'
  | VNull, None | VUndefined, None => True
  | _, _ => False
  end.

(** [LocalStorage] is initialised with backend [b], whose current state is
    [m]. *)
Definition initialised (w : World) (b : nat) (m : Memento) : Prop :=
  _storage w = Some b ∧ mementos w !! b = Some m.

(** The entries of two account keys of the stored record do not share one
    chat table. *)
Definition unshared_accounts (w : World) (b : nat) (k1 k2 : string) : Prop :=
  ∀ l1 l2 c,
    stored_account_ref w b k1 = Some l1 → stored_account_ref w b k2 = Some l2 →
    objects w !! l1 = Some (OUserHistory (Some c)) →
    objects w !! l2 ≠ Some (OUserHistory (Some c)).

(** ** Reading a persisted record by path *)

(** The transcript of chat [id] of account [accountKey], when there is one. *)
Definition transcript_at (v : AccountKeyedChatHistory) (accountKey id : string)
    : option SerializedChatTranscript :=
  u ← v !! accountKey; transcripts ← chat u; mjoin (transcripts !! id).

(** ** Sample data *)

Definition human (question : string) : SerializedChatMessage :=
  {| speaker := "human"; text := Some question; model := None |}.

Definition assistant (answer : string) (model' : option string) : SerializedChatMessage :=
  {| speaker := "assistant"; text := Some answer; model := model' |}.

(** A backend that works, holding [slots]. *)
Definition working (slots : gmap string value) : Memento :=
  {| contents := slots; get_throws := None; update_fails := None; update_calls := [] |}.

(** The state in which [LocalStorage] uses the only backend, number 0. *)
Definition world_of (h : heap) (m : Memento) : World :=
  {| objects := h; mementos := {[ 0 := m ]}; _storage := Some 0;
     console := []; debug_log := []; unhandled_rejections := [] |}.

(** The record of the specification's example (section 8): one account
    ["ep-u1"], one chat ["c1"] with legacy model ["gpt-4"], one answered
    question whose answer carries no model. *)
Definition c1 : SerializedChatTranscript :=
  {| transcript_id := "c1"; chatTitle := None; chatModel := Some "gpt-4";
     interactions :=
       [ {| humanMessage := human "hello"; assistantMessage := Some (assistant "hi" None) |} ] |}.

Definition example_content : AccountKeyedChatHistory :=
  {[ "ep-u1" := {| chat := Some {[ "c1" := Some c1 ]} |} ]}.

Definition example_heap : heap :=
  <[0 := OHistory {[ "ep-u1" := 1 ]}]>
    (<[1 := OUserHistory (Some 2)]> (<[2 := OChat {[ "c1" := Some c1 ]}]> ∅)).

Definition example_world : World :=
  world_of example_heap (working {[ KEY_LOCAL_HISTORY := VRef 0 ]}).

Definition u1 : AuthStatus := {| endpoint := "ep"; username := "u1" |}.

(** The same record with an empty legacy model. *)
Definition c1_empty_model : SerializedChatTranscript :=
  {| transcript_id := "c1"; chatTitle := None; chatModel := Some "";
     interactions :=
       [ {| humanMessage := human "hello"; assistantMessage := Some (assistant "hi" None) |} ] |}.

Definition empty_model_heap : heap :=
  <[0 := OHistory {[ "ep-u1" := 1 ]}]>
    (<[1 := OUserHistory (Some 2)]> (<[2 := OChat {[ "c1" := Some c1_empty_model ]}]> ∅)).

Definition empty_model_world : World :=
  world_of empty_model_heap (working {[ KEY_LOCAL_HISTORY := VRef 0 ]}).

(** What the migration makes of it: the answer's [model] is the empty
    string. *)
Definition c1_empty_model_migrated : SerializedChatTranscript :=
  {| transcript_id := "c1"; chatTitle := None; chatModel := Some "";
     interactions :=
       [ {| humanMessage := human "hello";
            assistantMessage := Some (assistant "hi" (Some "")) |} ] |}.

Definition u2 : AuthStatus := {| endpoint := "ep"; username := "u2" |}.

(** The example's record behind a backend whose [get] fails. *)
Definition unreadable : Memento :=
  {| contents := {[ KEY_LOCAL_HISTORY := VRef 0 ]};
     get_throws := Some (BackendError "read failed");
     update_fails := None; update_calls := [] |}.

Definition unreadable_world : World := world_of example_heap unreadable.

(** Two accounts in one record: ["ep-u1"] with the chats ["x"] and ["y"],
    whose answers carry a model, and ["ep-u2"] with the chat ["c1"] above,
    whose answer does not. *)
Definition answered (id : string) (model' : option string) : SerializedChatTranscript :=
  {| transcript_id := id; chatTitle := None; chatModel := None;
     interactions :=
       [ {| humanMessage := human "hello";
            assistantMessage := Some (assistant "hi" model') |} ] |}.

Definition chats_xy : ChatHistory :=
  {[ "x" := Some (answered "x" (Some "gpt-4")); "y" := Some (answered "y" (Some "gpt-4")) ]}.

Definition two_accounts_content : AccountKeyedChatHistory :=
  {[ "ep-u1" := {| chat := Some chats_xy |};
     "ep-u2" := {| chat := Some {[ "c1" := Some c1 ]} |} ]}.

Definition two_accounts_heap : heap :=
  <[0 := OHistory {[ "ep-u1" := 1; "ep-u2" := 3 ]}]>
    (<[1 := OUserHistory (Some 2)]>
       (<[2 := OChat chats_xy]>
          (<[3 := OUserHistory (Some 4)]> (<[4 := OChat {[ "c1" := Some c1 ]}]> ∅)))).

Definition two_accounts_world : World :=
  world_of two_accounts_heap (working {[ KEY_LOCAL_HISTORY := VRef 0 ]}).

(** The same two accounts in a record whose entries refer to one and the same
    chat table. *)
Definition shared_table_heap : heap :=
  <[0 := OHistory {[ "ep-u1" := 1; "ep-u2" := 3 ]}]>
    (<[1 := OUserHistory (Some 2)]>
       (<[2 := OChat chats_xy]> (<[3 := OUserHistory (Some 2)]> ∅))).

Definition shared_table_world : World :=
  world_of shared_table_heap (working {[ KEY_LOCAL_HISTORY := VRef 0 ]}).

(** [c1] once migrated. *)
Definition c1_migrated : SerializedChatTranscript :=
  {| transcript_id := "c1"; chatTitle := None; chatModel := Some "gpt-4";
     interactions :=
       [ {| humanMessage := human "hello";
            assistantMessage := Some (assistant "hi" (Some "gpt-4")) |} ] |}.

(** The example's record and backend, before [setStorage] was called. *)
Definition uninitialised_world : World :=
  set_storage None example_world.

(** ** The public operations, as data *)

Inductive Operation : Type :=
  | CallGetChatHistory (authStatus : AuthStatus)
  | CallSetChatHistory (authStatus : AuthStatus) (history : loc)
  | CallDeleteChatHistory (authStatus : AuthStatus) (chatID : string)
  | CallRemoveChatHistory (authStatus : AuthStatus)
  | CallSetMinionHistory (authStatus : AuthStatus) (serializedHistory : string)
  | CallGetMinionHistory (authStatus : AuthStatus)
  | CallDeleteEndpoint
  | CallGetEndpointHistory
  | CallSetConfig (config : value)
  | CallGetConfig
  | CallGet (key : string)
  | CallSet (key : string) (v : value)
  | CallDelete (key : string).

Inductive Result : Type :=
  | RObject (l : loc)
  | RValue (v : value)
  | RVoid.

Definition run (op : Operation) : Eff World Result :=
  match op with
  | CallGetChatHistory a => l ← LocalStorage.getChatHistory a; mret (RObject l)
  | CallSetChatHistory a history => LocalStorage.setChatHistory a history;; mret RVoid
  | CallDeleteChatHistory a chatID => LocalStorage.deleteChatHistory a chatID;; mret RVoid
  | CallRemoveChatHistory a => LocalStorage.removeChatHistory a;; mret RVoid
  | CallSetMinionHistory a s => LocalStorage.setMinionHistory a s;; mret RVoid
  | CallGetMinionHistory a => v ← LocalStorage.getMinionHistory a; mret (RValue v)
  | CallDeleteEndpoint => LocalStorage.deleteEndpoint;; mret RVoid
  | CallGetEndpointHistory => v ← LocalStorage.getEndpointHistory; mret (RValue v)
  | CallSetConfig config => LocalStorage.setConfig config;; mret RVoid
  | CallGetConfig => v ← LocalStorage.getConfig; mret (RValue v)
  | CallGet key => v ← LocalStorage.get key; mret (RValue v)
  | CallSet key v => LocalStorage.set key v;; mret RVoid
  | CallDelete key => LocalStorage.delete key;; mret RVoid
  end.


(** ** Further notions used below *)

(** A computation that changes no slot other than [key], in any backend. *)
Definition leaves_other_keys {A} (key : string) (m : Eff World A) : Prop :=
  ∀ w r w', m w = (r, w') → ∀ b k, k ≠ key → slot w' b k = slot w b k.

(** No transcript of the record has the empty string as its legacy
    [chatModel]. *)
Definition no_empty_chatModel (v : AccountKeyedChatHistory) : Prop :=
  ∀ k id t, transcript_at v k id = Some t → chatModel t ≠ Some "".

(** The chat table of an account's entry, empty when the entry has no [chat]
    field. *)
Definition chats_of (u : UserLocalHistory) : ChatHistory := default ∅ (chat u).

(** The example's record behind a backend whose [update] throws. *)
Definition unwritable : Memento :=
  {| contents := {[ KEY_LOCAL_HISTORY := VRef 0 ]}; get_throws := None;
     update_fails := Some (UpdateThrows (BackendError "write failed"));
     update_calls := [] |}.

Definition unwritable_world : World := world_of example_heap unwritable.

(** A record whose only account has an entry without a [chat] table. *)
Definition no_chats_heap : heap :=
  <[0 := OHistory {[ "ep-u1" := 1 ]}]> (<[1 := OUserHistory None]> ∅).

(** ** The chat list of the web view

    The file also carries the [ChatHistory] component of the web client and
    its helper [getChatTitle].  The component keeps the list of chats; what it
    asks of its surroundings (the agent client, the hooks of
    [useWebAgentClient]) is kept as the list of requests it makes, in order.
    Lists are arrays here: their order is what the code depends on. *)

Module WebChatHistory.

(** [ChatExportResult] of the agent protocol, which the file imports; the code
    reads its [chatID] and its [transcript]. *)
Record ChatExportResult : Type := {
    chatID : string;
    transcript : SerializedChatTranscript;
  }.

Global Instance ChatExportResult_eq_dec : EqDecision ChatExportResult.
Proof. solve_decision. Defined.

(** [Array.prototype.find]: the first element that satisfies [P], if any. *)
Definition Array_find {A} (P : A → Prop) `{!∀ x, Decision (P x)} (xs : list A) : option A :=
  snd <$> list_find P xs.

(** [Array.prototype.findIndex]: its index, or [-1]. *)
Definition Array_findIndex {A} (P : A → Prop) `{!∀ x, Decision (P x)} (xs : list A) : Z :=
  match list_find P xs with
  | Some (i, _) => Z.of_nat i
  | None => (-1)%Z
  end.

(** [xs[i]] for a number [i]: [undefined] out of range. *)
Definition Array_at {A} (xs : list A) (i : Z) : option A :=
  if decide (0 ≤ i)%Z then xs !! Z.to_nat i else None.

(** The value of [client]: [null] while loading, an error, or the client. *)
Inductive WebAgentClient : Type := ClientNull | ClientError | ClientReady.

(** [!client || isErrorLike(client)] *)
Definition unavailable (client : WebAgentClient) : bool :=
  match client with
  | ClientReady => false
  | _ => true
  end.

(** What the component asks of its surroundings. *)
Inductive Request : Type :=
  | SendRequest_chat_delete (chatID' : string)
  | SetChats (chats : list ChatExportResult)
  | SetLastActiveChatID (chatID' : string)
  | SelectChat (chat : option ChatExportResult)
  | CreateChat
  | PostMessage (command : string).

(** [chat.transcript.interactions.length === 0] *)
Definition blank (chat : ChatExportResult) : Prop :=
  length (interactions (transcript chat)) = 0.

Global Instance blank_dec chat : Decision (blank chat).
Proof. unfold blank. apply _. Defined.

(** [createNewChat(force)], in a render with the chats [chats] and the active
    chat [activeChatID]. *)
Definition createNewChat (client : WebAgentClient) (chats : list ChatExportResult)
    (activeChatID : option string) (force : bool) : list Request :=
  if unavailable client then []
  else
    let currentChat := Array_find (λ chat, Some (chatID chat) = activeChatID) chats in
    let emptyChat := Array_find blank chats in
    if negb force
       && match currentChat with
          | Some chat => bool_decide (blank chat)
          | None => false
          end
    then []
    else if negb force && bool_decide (is_Some emptyChat) then [SelectChat emptyChat]
    else [CreateChat; PostMessage "initialized"].

(** [deleteChat(chat)], in a render with the chats [chats] and the active chat
    [activeChatID]; [newChatsList] is the agent's answer to the
    [chat/delete] request. *)
Definition deleteChat (client : WebAgentClient) (chats : list ChatExportResult)
    (activeChatID : option string) (chat : ChatExportResult)
    (newChatsList : list ChatExportResult) : list Request :=
  if unavailable client then []
  else
    let nextChatIndexToSelect :=
      Z.max (Array_findIndex (λ currentChat, chatID currentChat = chatID chat) chats - 1) 0 in
    [SendRequest_chat_delete (chatID chat); SetChats newChatsList]
    ++ if decide (Some (chatID chat) ≠ activeChatID) then []
       else if decide (length newChatsList = 0)
            then createNewChat client chats activeChatID true
            else [SelectChat
                    (match Array_at newChatsList nextChatIndexToSelect with
                     | Some next => Some next
                     | None => Array_at newChatsList 0
                     end)].

(** The handler of a [chatHistory] message.  [value] is [message.value]:
    [null], or the entries of its [chat] table in the order of
    [Object.entries].  The result is the new list of chats and the requests
    made while computing it. *)
Definition onMessage_chatHistory (value : option (list (string * SerializedChatTranscript)))
    (chats : list ChatExportResult) : list ChatExportResult * list Request :=
  match value with
  | None => (chats, [])
  | Some entries =>
      let receivedChats :=
        (λ entry, {| chatID := entry.1; transcript := entry.2 |}) <$> entries in
      let newChats :=
        filter (λ chat, Array_find (λ currentChat, chatID currentChat = chatID chat) chats
                        = None)
          receivedChats in
      (receivedChats,
       if decide (0 < length newChats)
       then match last newChats with
            | Some chat => [SetLastActiveChatID (chatID chat)]
            | None => []
            end
       else [])
  end.

(** [getChatTitle(chat)] *)
Definition getChatTitle (chat : ChatExportResult) : string :=
  if truthy (chatTitle (transcript chat)) then default "" (chatTitle (transcript chat))
  else if decide (0 < length (interactions (transcript chat)))
       then
         let firstQuestion :=
           Array_find (λ interaction, truthy (text (humanMessage interaction)) = true)
             (interactions (transcript chat)) in
         default "" (firstQuestion ≫= λ interaction, text (humanMessage interaction))
       else transcript_id (transcript chat).

End WebChatHistory.

(** ** Endpoints, enrolments and the anonymous user id

    The remaining methods of [LocalStorage] keep strings and arrays of
    strings.  Arrays are objects: [getEnrollmentHistory] extends the array it
    read in place, so the state has a heap of arrays beside the backend.  The
    file imports [isSourcegraphToken] and uses the platform's [URL] and
    [uuid.v4]; the first two are parameters of the methods that call them, and
    the identifier [uuid.v4()] would return is an argument of
    [anonymousUserID]. *)

Definition ANONYMOUS_USER_ID_KEY : string := "sourcegraphAnonymousUid".
Definition CODY_ENROLLMENT_HISTORY : string := "SOURCEGRAPH_CODY_ENROLLMENTS".

Module Settings.

Inductive jsvalue : Type :=
  | JUndefined
  | JNull
  | JString (s : string)
  | JArray (array : loc).

Global Instance jsvalue_eq_dec : EqDecision jsvalue.
Proof. solve_decision. Defined.

(** Modelled from the spec: the backing store, as [Memento] above: what its
    slots hold, and whether its [get] and its [update] fail. *)
Record Backend : Type := {
    slots : gmap string jsvalue;
    get_throws : option Error;
    update_fails : option update_failure;
  }.

(** The arrays, the backend [_storage] refers to ([None] before
    [setStorage]), what was reported with [console.error], and the rejections
    nothing handled. *)
Record State : Type := {
    arrays : gmap nat (list string);
    _storage : option Backend;
    console : list Error;
    unhandled_rejections : list Error;
  }.

Definition set_arrays (h : gmap nat (list string)) (s : State) : State :=
  {| arrays := h; _storage := _storage s; console := console s;
     unhandled_rejections := unhandled_rejections s |}.

Definition set_slots (b : Backend) (slots' : gmap string jsvalue) (s : State) : State :=
  {| arrays := arrays s;
     _storage := Some {| slots := slots'; get_throws := get_throws b;
                         update_fails := update_fails b |};
     console := console s; unhandled_rejections := unhandled_rejections s |}.

Definition add_console (error : Error) (s : State) : State :=
  {| arrays := arrays s; _storage := _storage s; console := (console s ++ [error])%list;
     unhandled_rejections := unhandled_rejections s |}.

Definition add_unhandled (error : Error) (s : State) : State :=
  {| arrays := arrays s; _storage := _storage s; console := console s;
     unhandled_rejections := (unhandled_rejections s ++ [error])%list |}.

(** [console.error(error)] *)
Definition console_error (error : Error) : Eff State unit := λ s,
  (Returned tt, add_console error s).

(** [void m()] for an [async] method [m]: the call returns at once, and if the
    method fails nothing handles its rejection. *)
Definition void (m : Eff State unit) : Eff State unit := λ s,
  match m s with
  | (Returned _, s') => (Returned tt, s')
  | (Thrown e, s') => (Returned tt, add_unhandled e s')
  end.

(** What [get(key, defaultValue)] yields on [slots']. *)
Definition read (key : string) (defaultValue : jsvalue) (slots' : gmap string jsvalue)
    : jsvalue :=
  match slots' !! key with
  | None | Some JUndefined => defaultValue
  | Some v => v
  end.

(** What the slots are after [update(key, v)]: writing [undefined] clears the
    slot. *)
Definition written (key : string) (v : jsvalue) (slots' : gmap string jsvalue)
    : gmap string jsvalue :=
  match v with
  | JUndefined => delete key slots'
  | _ => <[key := v]> slots'
  end.

(** [private get storage()]: throws before [setStorage]. *)
Definition storage : Eff State unit := λ s,
  match _storage s with
  | Some _ => (Returned tt, s)
  | None => (Thrown NotInitialized, s)
  end.

(** [get(key, defaultValue)] of the adapter that [convertToAsyncStore] makes
    of the backend: it passes the call on. *)
Definition adapter_get (key : string) (defaultValue : jsvalue) : Eff State jsvalue := λ s,
  match _storage s with
  | None => (Thrown NotInitialized, s)
  | Some b =>
      match get_throws b with
      | Some e => (Thrown e, s)
      | None => (Returned (read key defaultValue (slots b)), s)
      end
  end.

(** [update(key, v)] of the adapter: it calls the backend and returns a
    fulfilled promise, so that a rejection of the backend's promise is handled
    by nothing. *)
Definition adapter_update (key : string) (v : jsvalue) : Eff State unit := λ s,
  match _storage s with
  | None => (Thrown NotInitialized, s)
  | Some b =>
      match update_fails b with
      | Some (UpdateThrows e) => (Thrown e, s)
      | Some (UpdateRejects e) => (Returned tt, add_unhandled e s)
      | None => (Returned tt, set_slots b (written key v (slots b)) s)
      end
  end.

(** [this.storage.get(key, defaultValue)] and [this.storage.update(key, v)]
    with arguments that are already values. *)
Definition storage_get (key : string) (defaultValue : jsvalue) : Eff State jsvalue :=
  storage;; adapter_get key defaultValue.

Definition storage_update (key : string) (v : jsvalue) : Eff State unit :=
  storage;; adapter_update key v.

(** An array literal or a spread: a new array. *)
Definition new_array (items : list string) : Eff State loc := λ s,
  let l := fresh (dom (arrays s)) in (Returned l, set_arrays (<[l := items]> (arrays s)) s).

Definition array_items (l : loc) : Eff State (list string) := λ s,
  match arrays s !! l with
  | Some items => (Returned items, s)
  | None => (Thrown TypeError, s)
  end.

Definition set_items (l : loc) (items : list string) : Eff State unit := λ s,
  (Returned tt, set_arrays (<[l := items]> (arrays s)) s).

(** [array.push(x)] *)
Definition push (l : loc) (x : string) : Eff State unit :=
  items ← array_items l;
  set_items l (items ++ [x])%list.

(** The unchecked casts of [get<string | null>], [get<string[] | null>] and
    [get<string[]>]: a value outside the declared type is rejected here. *)
Definition as_string_or_null (v : jsvalue) : Eff State (option string) :=
  match v with
  | JNull => mret None
  | JString s => mret (Some s)
  | _ => throw TypeError
  end.

Definition as_array_or_null (v : jsvalue) : Eff State (option loc) :=
  match v with
  | JNull => mret None
  | JArray l => mret (Some l)
  | _ => throw TypeError
  end.

Definition as_array (v : jsvalue) : Eff State loc :=
  match v with
  | JArray l => mret l
  | _ => throw TypeError
  end.

(** A JavaScript [Set] of strings, as the list of its elements in insertion
    order. *)
Definition Set_add (x : string) (set : list string) : list string :=
  if decide (x ∈ set) then set else (set ++ [x])%list.

Definition Set_delete (x : string) (set : list string) : list string :=
  filter (λ y, y ≠ x) set.

(** [new Set(items)] *)
Definition new_Set (items : list string) : list string :=
  foldl (λ set x, Set_add x set) [] items.

(** [deleteEndpoint()] *)
Definition deleteEndpoint : Eff State unit :=
  storage_update LAST_USED_ENDPOINT JNull.

(** [getEndpointHistory()] *)
Definition getEndpointHistory : Eff State jsvalue :=
  storage_get CODY_ENDPOINT_HISTORY JNull.

(** [getEnrollmentHistory(featureName)] *)
Definition getEnrollmentHistory (featureName : string) : Eff State bool :=
  storage;;
  empty ← new_array [];
  v ← adapter_get CODY_ENROLLMENT_HISTORY (JArray empty);
  history ← as_array v;
  items ← array_items history;
  let hasEnrolled := bool_decide (featureName ∈ items) in
  (if negb hasEnrolled then
     push history featureName;;
     (* [void] of a promise the adapter has already fulfilled *)
     storage_update CODY_ENROLLMENT_HISTORY (JArray history)
   else mret tt);;
  mret hasEnrolled.

(** [anonymousUserID()]; [uuid_v4] is what [uuid.v4()] returns when called. *)
Definition anonymousUserID (uuid_v4 : string) : Eff State (string * bool) :=
  v ← storage_get ANONYMOUS_USER_ID_KEY JNull;
  id ← as_string_or_null v;
  if truthy id then mret (default "" id, false)
  else
    try_catch (storage_update ANONYMOUS_USER_ID_KEY (JString uuid_v4)) console_error;;
    mret (uuid_v4, true).

Section endpoints.

(** [isSourcegraphToken] of [../chat/protocol]. *)
Context (isSourcegraphToken : string → bool).

(** [new URL(endpoint).href]: [None] when the constructor throws. *)
Context (href : string → option string).

(** [getEndpoint()] *)
Definition getEndpoint : Eff State (option string) :=
  v ← storage_get LAST_USED_ENDPOINT JNull;
  endpoint ← as_string_or_null v;
  if truthy endpoint && isSourcegraphToken (default "" endpoint) then
    void deleteEndpoint;;
    mret None
  else mret endpoint.

(** [addEndpointHistory(endpoint)] *)
Definition addEndpointHistory (endpoint : string) : Eff State unit :=
  if isSourcegraphToken endpoint then mret tt
  else
    v ← storage_get CODY_ENDPOINT_HISTORY JNull;
    history ← as_array_or_null v;
    items ← match history with
            | Some l => array_items l
            | None => mret []
            end;
    let historySet := Set_add endpoint (Set_delete endpoint (new_Set items)) in
    storage;;
    spread ← new_array historySet;
    adapter_update CODY_ENDPOINT_HISTORY (JArray spread).

(** [saveEndpoint(endpoint)] *)
Definition saveEndpoint (endpoint : string) : Eff State unit :=
  if decide (endpoint = "") then mret tt
  else
    try_catch
      (if isSourcegraphToken endpoint then mret tt
       else
         uri ← match href endpoint with
               | Some uri => mret uri
               | None => throw TypeError
               end;
         storage_update LAST_USED_ENDPOINT (JString uri);;
         addEndpointHistory uri)
      console_error.

End endpoints.

(** *** What the store holds *)

(** The content of a slot; an empty slot reads as [undefined]. *)
Definition slot (s : State) (key : string) : jsvalue :=
  match _storage s with
  | Some b => default JUndefined (slots b !! key)
  | None => JUndefined
  end.

(** The items of the array a slot refers to. *)
Definition stored_array (s : State) (key : string) : option (list string) :=
  match slot s key with
  | JArray l => arrays s !! l
  | _ => None
  end.

(** The backend is set and neither its [get] nor its [update] fails. *)
Definition working (s : State) : Prop :=
  ∃ b, _storage s = Some b ∧ get_throws b = None ∧ update_fails b = None.

(** The slot is empty, or holds [null] when [nullable], or holds an array
    with the items [items]; [items] is empty in the first two cases. *)
Definition holds_array (s : State) (key : string) (nullable : bool) (items : list string)
    : Prop :=
  match slot s key with
  | JArray l => arrays s !! l = Some items
  | JUndefined => items = []
  | JNull => nullable = true ∧ items = []
  | JString _ => False
  end.

(** The slot is empty or holds [null] ([None]), or holds a string. *)
Definition holds_string (s : State) (key : string) (content : option string) : Prop :=
  match slot s key with
  | JString x => content = Some x
  | JUndefined | JNull => content = None
  | JArray _ => False
  end.

(** *** Sample data *)

(** A backend that works, holding [slots']. *)
Definition working_backend (slots' : gmap string jsvalue) : Backend :=
  {| slots := slots'; get_throws := None; update_fails := None |}.

Definition state_of (h : gmap nat (list string)) (b : Backend) : State :=
  {| arrays := h; _storage := Some b; console := []; unhandled_rejections := [] |}.

(** A backend that holds nothing and whose [update] throws. *)
Definition read_only_backend : Backend :=
  {| slots := ∅; get_throws := None;
     update_fails := Some (UpdateThrows (BackendError "read-only")) |}.

(** A new installation: nothing is stored. *)
Definition new_installation : State := state_of ∅ (working_backend ∅).

(** Strings that start with [sgp_] stand for access tokens, strings that start
    with [https://] for URLs in normal form, which are their own [href]. *)
Definition sample_isSourcegraphToken (s : string) : bool := String.prefix "sgp_" s.

Definition sample_href (s : string) : option string :=
  if String.prefix "https://" s then Some s else None.

End Settings.

(** * The migration on values *)

Section migration_values.

Implicit Types (message : SerializedChatMessage) (interaction : SerializedChatInteraction).
Implicit Types (fallback : option string) (n : nat).

Lemma migrateAssistantMessage_spec message fallback n :
  migrateAssistantMessage message fallback n
  = (migrated_message fallback message,
     n + (if lacks_model message then 1 else 0)).
Proof.
  unfold migrateAssistantMessage, migrated_message, lacks_model.
  destruct (truthy (model message)); simpl; f_equal; lia.
Qed.

Lemma migrateInteraction_spec fallback interaction n :
  migrateInteraction fallback interaction n
  = (migrated_interaction fallback interaction, n + pending_interaction interaction).
Proof.
  unfold migrateInteraction, migrated_interaction, pending_interaction.
  destruct (assistantMessage interaction) as [message|]; simpl.
  - by rewrite migrateAssistantMessage_spec.
  - f_equal; lia.
Qed.

Lemma map_counting_spec {A B} (f : A → nat → B * nat) (g : A → B) (c : A → nat) l n :
  (∀ x m, f x m = (g x, m + c x)) →
  map_counting f l n = (g <$> l, n + sum_list_with c l).
Proof.
  intros Hf. revert n. induction l as [|x l IH]; intros n; simpl.
  - f_equal; lia.
  - rewrite Hf, IH. f_equal; lia.
Qed.

Lemma migrateTranscript_spec transcript n :
  migrateTranscript transcript n
  = (migrated_transcript <$> transcript, n + pending_transcript transcript).
Proof.
  destruct transcript as [t|]; simpl.
  - rewrite (map_counting_spec _ _ _ _ _ (migrateInteraction_spec (chatModel t))).
    done.
  - f_equal; lia.
Qed.

Lemma migrateChat_spec (transcripts : ChatHistory) n :
  migrateChat transcripts n = (migrated_chat transcripts, n + pending_chat transcripts).
Proof.
  unfold migrateChat, migrated_chat, pending_chat.
  rewrite (map_counting_spec _
             (prod_map id (fmap (M := option) migrated_transcript))
             (λ entry, pending_transcript entry.2)).
  - by rewrite list_to_map_fmap, list_to_map_to_list.
  - intros [id transcript] m. by rewrite migrateTranscript_spec.
Qed.

(** *** Migrating twice *)

Lemma migrated_message_idemp fallback message :
  migrated_message fallback (migrated_message fallback message)
  = migrated_message fallback message.
Proof.
  unfold migrated_message.
  destruct (lacks_model message) eqn:Hlacks; [|by rewrite Hlacks].
  by destruct (lacks_model (with_model fallback message)).
Qed.

Lemma migrated_interaction_idemp fallback interaction :
  migrated_interaction fallback (migrated_interaction fallback interaction)
  = migrated_interaction fallback interaction.
Proof.
  unfold migrated_interaction. simpl. f_equal.
  destruct (assistantMessage interaction); [|done].
  simpl. by rewrite migrated_message_idemp.
Qed.

Lemma migrated_transcript_idemp t :
  migrated_transcript (migrated_transcript t) = migrated_transcript t.
Proof.
  unfold migrated_transcript. simpl. f_equal.
  rewrite <-list_fmap_compose. apply list_fmap_ext.
  intros i interaction _. apply migrated_interaction_idemp.
Qed.

Lemma migrated_chat_idemp (transcripts : ChatHistory) :
  migrated_chat (migrated_chat transcripts) = migrated_chat transcripts.
Proof.
  unfold migrated_chat. rewrite <-map_fmap_compose. apply map_fmap_ext.
  intros id [t|] _; [|done]. simpl. by rewrite migrated_transcript_idemp.
Qed.

Lemma migrated_user_idemp u : migrated_user (migrated_user u) = migrated_user u.
Proof.
  unfold migrated_user. destruct u as [[transcripts|]]; simpl.
  - by rewrite migrated_chat_idemp.
  - unfold migrated_chat. by rewrite fmap_empty.
Qed.

Lemma migrated_store_idemp (v : AccountKeyedChatHistory) :
  migrated_store (migrated_store v) = migrated_store v.
Proof.
  unfold migrated_store. rewrite <-map_fmap_compose. apply map_fmap_ext.
  intros k u _. apply migrated_user_idemp.
Qed.

(** *** Nothing to migrate *)

Lemma sum_list_with_0 {A} (f : A → nat) (xs : list A) x :
  sum_list_with f xs = 0 → x ∈ xs → f x = 0.
Proof. intros Hsum Hin%(sum_list_with_in _ f). lia. Qed.

Lemma pending_interaction_0 fallback interaction :
  pending_interaction interaction = 0 →
  migrated_interaction fallback interaction = interaction.
Proof.
  unfold pending_interaction, migrated_interaction, migrated_message.
  destruct interaction as [human [message|]]; simpl; [|done].
  by destruct (lacks_model message).
Qed.

Lemma pending_transcript_0 t :
  pending_transcript (Some t) = 0 → migrated_transcript t = t.
Proof.
  simpl. intros Hsum. unfold migrated_transcript.
  destruct t as [id title cm inters]; simpl in *. f_equal.
  rewrite <-(list_fmap_id inters) at 2. apply list_fmap_ext.
  intros i interaction Hin%list_elem_of_lookup_2.
  apply pending_interaction_0. by eapply sum_list_with_0.
Qed.

Lemma pending_chat_0 (transcripts : ChatHistory) :
  pending_chat transcripts = 0 → migrated_chat transcripts = transcripts.
Proof.
  unfold pending_chat, migrated_chat. intros Hsum.
  rewrite <-(map_fmap_id transcripts) at 2. apply map_fmap_ext.
  intros id [t|] Hin%elem_of_map_to_list; [|done]. simpl. f_equal.
  apply pending_transcript_0.
  by apply (sum_list_with_0 _ _ _ Hsum Hin).
Qed.

Lemma pending_store_0 (v : AccountKeyedChatHistory) k u :
  pending_store v = 0 → v !! k = Some u → pending_user u = 0.
Proof.
  unfold pending_store. intros Hsum Hin%elem_of_map_to_list.
  by apply (sum_list_with_0 _ _ _ Hsum Hin).
Qed.

End migration_values.

(** * The migration on the heap *)

Section heap_views.

Implicit Types (h : heap) (l : loc).

Lemma alloc_spec o h :
  ∃ l, alloc o h = (Returned l, <[l := o]> h) ∧ h !! l = None.
Proof.
  exists (fresh (dom h)). split; [done|].
  apply not_elem_of_dom, is_fresh.
Qed.

Lemma chat_at_weaken h h' l c : h ⊆ h' → chat_at h l = Some c → chat_at h' l = Some c.
Proof.
  unfold chat_at. intros Hsub Hc.
  destruct (h !! l) as [o|] eqn:Hl; [|done].
  by rewrite (lookup_weaken _ _ _ _ Hl Hsub).
Qed.

Lemma user_history_at_weaken h h' l u :
  h ⊆ h' → user_history_at h l = Some u → user_history_at h' l = Some u.
Proof.
  unfold user_history_at. intros Hsub Hu.
  destruct (h !! l) as [o|] eqn:Hl; [|done].
  rewrite (lookup_weaken _ _ _ _ Hl Hsub).
  destruct o as [| [c|] |]; try done.
  destruct (chat_at h c) as [t|] eqn:Hc; [|done].
  by rewrite (chat_at_weaken _ _ _ _ Hsub Hc).
Qed.

Lemma user_history_at_is_Some h l :
  is_Some (user_history_at h l) → is_Some (h !! l).
Proof. unfold user_history_at. destruct (h !! l); [eauto|]. by intros [? ?]. Qed.

(** The object built for an account holds the migrated content of the
  original, is new, and leaves every existing object as it was. *)
Lemma migrateUserLocalHistory_spec h l u n :
  user_history_at h l = Some u →
  ∃ l' h',
    migrateUserLocalHistory l n h = (Returned (l', n + pending_user u), h')
    ∧ h ⊆ h' ∧ h !! l' = None
    ∧ user_history_at h' l' = Some (migrated_user u)
    ∧ ∃ c', h' !! l' = Some (OUserHistory (Some c')) ∧ h !! c' = None.
Proof.
  intros Hu.
  unfold migrateUserLocalHistory, read_user_history, read_chat.
  unfold mbind, Eff_bind, mret, Eff_ret.
  unfold user_history_at, chat_at in Hu.
  destruct (h !! l) as [[| [c|] |]|] eqn:Hl; try done.
  - destruct (h !! c) as [[| |transcripts]|] eqn:Hc; try done.
    injection Hu as <-. rewrite migrateChat_spec.
    destruct (alloc_spec (OChat (migrated_chat transcripts)) h) as (l1 & -> & Hl1).
    destruct (alloc_spec (OUserHistory (Some l1))
                (<[l1 := OChat (migrated_chat transcripts)]> h)) as (l2 & -> & Hl2).
    exists l2, (<[l2 := OUserHistory (Some l1)]> (<[l1 := OChat (migrated_chat transcripts)]> h)).
    apply lookup_insert_None in Hl2 as [Hl2 Hne].
    split_and!; [done| |done| |].
    + etrans; [apply (insert_subseteq _ l1); exact Hl1|].
      apply insert_subseteq. by rewrite lookup_insert_ne.
    + unfold user_history_at, chat_at. rewrite lookup_insert_eq.
      rewrite lookup_insert_ne by done. by rewrite lookup_insert_eq.
    + exists l1. by rewrite lookup_insert_eq.
  - injection Hu as <-.
    destruct (alloc_spec (OChat ∅) h) as (l1 & -> & Hl1).
    destruct (alloc_spec (OUserHistory (Some l1)) (<[l1 := OChat ∅]> h)) as (l2 & -> & Hl2).
    exists l2, (<[l2 := OUserHistory (Some l1)]> (<[l1 := OChat ∅]> h)).
    apply lookup_insert_None in Hl2 as [Hl2 Hne].
    split_and!; [by rewrite Nat.add_0_r| |done| |].
    + etrans; [apply (insert_subseteq _ l1); exact Hl1|].
      apply insert_subseteq. by rewrite lookup_insert_ne.
    + unfold user_history_at, chat_at. rewrite lookup_insert_eq.
      rewrite lookup_insert_ne by done. by rewrite lookup_insert_eq.
    + exists l1. by rewrite lookup_insert_eq.
Qed.

Lemma Forall2_impl_Forall {A B} (P : A → Prop) (R R' : A → B → Prop) xs ys :
  Forall P xs → Forall2 R xs ys → (∀ x y, P x → R x y → R' x y) → Forall2 R' xs ys.
Proof.
  intros HP HR Himpl. induction HR as [|x y xs ys HRxy _ IH]; [constructor|].
  apply Forall_cons in HP as [HPx HP]. constructor; eauto.
Qed.

Lemma lookup_weaken_heap_None h h' l : h ⊆ h' → h' !! l = None → h !! l = None.
Proof. intros Hsub Hl. by eapply lookup_weaken_None. Qed.

(** The outer [map]: every new account object is fresh and holds the
  migrated content of its original. *)
Lemma mapM_migrateAccountEntry_spec (entries : list (string * loc)) h n :
  Forall (λ e, is_Some (user_history_at h e.2)) entries →
  ∃ entries' h',
    mapM_counting migrateAccountEntry entries n h
    = (Returned (entries',
                 n + sum_list_with
                       (λ e, from_option pending_user 0 (user_history_at h e.2)) entries),
       h')
    ∧ h ⊆ h'
    ∧ Forall2 (λ e e', e'.1 = e.1 ∧ h !! e'.2 = None
                       ∧ user_history_at h' e'.2
                         = migrated_user <$> user_history_at h e.2)
        entries entries'
    ∧ Forall (λ e', ∃ c', h' !! e'.2 = Some (OUserHistory (Some c')) ∧ h !! c' = None)
        entries'
    ∧ ForallOrdPairs (unshared h') entries'.
Proof.
  revert h n. induction entries as [|[k l] entries IH]; intros h n Hall.
  - exists [], h. simpl.
    split_and!; [by rewrite Nat.add_0_r|done|constructor|constructor|constructor].
  - apply Forall_cons in Hall as [[u Hu] Hall]. simpl in Hu.
    destruct (migrateUserLocalHistory_spec h l u n Hu)
      as (l1 & h1 & Hrun & Hsub1 & Hl1 & Hu1 & c1 & Hc1 & Hfresh1).
    destruct (IH h1 (n + pending_user u))
      as (entries' & h' & Hrest & Hsub & Hrel & Hchats & Hpairs).
    { eapply Forall_impl; [exact Hall|]. intros e [u' Hu'].
      exists u'. by eapply user_history_at_weaken. }
    exists ((k, l1) :: entries'), h'.
    assert (sum_list_with (λ e, from_option pending_user 0 (user_history_at h1 e.2)) entries
            = sum_list_with (λ e, from_option pending_user 0 (user_history_at h e.2)) entries)
      as Hsum.
    { clear -Hall Hsub1. induction Hall as [|e entries [u' Hu'] _ IHall]; [done|].
      simpl. rewrite IHall, Hu'.
      by rewrite (user_history_at_weaken _ _ _ _ Hsub1 Hu'). }
    split_and!.
    + simpl. unfold mbind, Eff_bind, mret, Eff_ret. rewrite Hrun.
      unfold mbind, Eff_bind in Hrest. rewrite Hrest, Hsum, Hu. simpl.
      do 3 f_equal. lia.
    + by etrans.
    + constructor.
      * simpl. split_and!; [done|done|].
        rewrite Hu. simpl. by eapply user_history_at_weaken.
      * eapply Forall2_impl_Forall; [exact Hall|exact Hrel|].
        intros e e' [u' Hu'] (Hk & Hfresh & Hview). split_and!; [done| |].
        -- by eapply lookup_weaken_heap_None.
        -- by rewrite Hview, Hu', (user_history_at_weaken _ _ _ _ Hsub1 Hu').
    + constructor.
      * exists c1. split; [|done]. by eapply lookup_weaken.
      * eapply Forall_impl; [exact Hchats|]. intros e' (c' & Hc' & Hfresh').
        exists c'. split; [done|]. by eapply lookup_weaken_heap_None.
    + constructor; [|done].
      apply Forall_forall. intros e' Hin c Hhead Htail.
      apply (proj1 (Forall_forall _ _) Hchats) in Hin as (c' & Hc' & Hfresh').
      simpl in Hhead. rewrite (lookup_weaken _ _ _ _ Hc1 Hsub) in Hhead.
      rewrite Hc' in Htail. simplify_eq.
      unfold user_history_at in Hu1. rewrite Hc1 in Hu1. unfold chat_at in Hu1.
      by rewrite Hfresh' in Hu1.
Qed.

Lemma sum_list_with_fmap {A B} (f : A → B) (g : B → nat) (xs : list A) :
  sum_list_with g (f <$> xs) = sum_list_with (g ∘ f) xs.
Proof. induction xs as [|x xs IH]; [done|]. cbn. by f_equal. Qed.

Lemma sum_list_with_ext {A} (f g : A → nat) (xs : list A) :
  (∀ x, f x = g x) → sum_list_with f xs = sum_list_with g xs.
Proof. intros Hfg. induction xs as [|x xs IH]; [done|]. cbn. by rewrite Hfg, IH. Qed.

(** A well-formed record, entry by entry. *)
Lemma holds_lookup h l v :
  holds h l v →
  ∃ accounts,
    h !! l = Some (OHistory accounts)
    ∧ ∀ k, user_history_at h <$> accounts !! k = Some <$> v !! k.
Proof.
  unfold holds, history_at. intros Hv.
  destruct (h !! l) as [[accounts| |]|]; try done.
  injection Hv as Hv. exists accounts. split; [done|]. intros k.
  by rewrite <-!lookup_fmap, Hv.
Qed.

Lemma holds_intro h l accounts v :
  h !! l = Some (OHistory accounts) →
  (∀ k, user_history_at h <$> accounts !! k = Some <$> v !! k) →
  holds h l v.
Proof.
  intros Hl Hv. unfold holds, history_at. rewrite Hl. f_equal.
  apply map_eq. intros k. by rewrite !lookup_fmap.
Qed.

Lemma holds_pending h accounts (v : AccountKeyedChatHistory) :
  user_history_at h <$> accounts = Some <$> v →
  sum_list_with (λ e, from_option pending_user 0 (user_history_at h e.2))
    (map_to_list accounts)
  = pending_store v.
Proof.
  intros Hv. unfold pending_store.
  trans (sum_list_with (λ e : string * option UserLocalHistory,
                          from_option pending_user 0 e.2)
           (map_to_list (user_history_at h <$> accounts))).
  - rewrite map_to_list_fmap, sum_list_with_fmap.
    apply sum_list_with_ext. by intros [k l'].
  - rewrite Hv, map_to_list_fmap, sum_list_with_fmap.
    apply sum_list_with_ext. by intros [k u].
Qed.

(** The record built by the migration holds the migrated content, is a new
  object, and every object that existed is unchanged; the counter ends at
  the number of messages that lacked a model. *)
Lemma build_migratedHistory_spec h l v :
  holds h l v →
  ∃ l' h',
    build_migratedHistory l h = (Returned (l', pending_store v), h')
    ∧ h ⊆ h' ∧ h !! l' = None
    ∧ holds h' l' (migrated_store v)
    ∧ ∃ accounts', h' !! l' = Some (OHistory accounts') ∧ separated h' accounts'.
Proof.
  intros Hv. pose proof Hv as Hfull.
  apply holds_lookup in Hv as (accounts & Hl & Hv).
  unfold holds, history_at in Hfull. rewrite Hl in Hfull. injection Hfull as Hfull.
  assert (Forall (λ e, is_Some (user_history_at h e.2)) (map_to_list accounts)) as Hall.
  { apply Forall_forall. intros [k l0] Hin%elem_of_map_to_list.
    specialize (Hv k). rewrite Hin in Hv. simpl in *.
    destruct (v !! k); simplify_eq/=; eauto. }
  destruct (mapM_migrateAccountEntry_spec _ h 0 Hall)
    as (entries' & h1 & Hrun & Hsub & Hrel & Hchats & Hpairs).
  rewrite (holds_pending _ _ _ Hfull) in Hrun. simpl in Hrun.
  destruct (alloc_spec (OHistory (list_to_map entries')) h1) as (l' & Halloc & Hl').
  exists l', (<[l' := OHistory (list_to_map entries')]> h1).
  assert (h1 ⊆ <[l' := OHistory (list_to_map entries')]> h1) as Hsub'
    by by apply insert_subseteq.
  assert (entries'.*1 = (map_to_list accounts).*1) as Hkeys.
  { clear -Hrel. induction Hrel as [|e e' es es' (Hk & _) _ IH]; [done|].
    cbn. by rewrite Hk, IH. }
  split_and!.
  - unfold build_migratedHistory, read_history, mbind, Eff_bind, mret, Eff_ret.
    by rewrite Hl, Hrun, Halloc.
  - by etrans.
  - by eapply lookup_weaken_heap_None.
  - eapply holds_intro; [apply lookup_insert_eq|]. intros k.
    unfold migrated_store. rewrite lookup_fmap.
    specialize (Hv k).
    destruct (accounts !! k) as [l0|] eqn:Hk.
    + destruct (v !! k) as [u|] eqn:Hvk; simplify_eq/=.
      apply elem_of_map_to_list in Hk.
      destruct (proj1 (list_elem_of_lookup _ _) Hk) as [i Hi].
      destruct (Forall2_lookup_l _ _ _ _ _ Hrel Hi) as (e' & Hi' & Hke & _ & Hview).
      destruct e' as [k' l1]. simpl in *. subst k'.
      assert ((list_to_map entries' : gmap string loc) !! k = Some l1) as ->.
      { apply elem_of_list_to_map_1.
        - rewrite Hkeys. apply NoDup_fst_map_to_list.
        - eapply list_elem_of_lookup_2, Hi'. }
      simpl. rewrite Hv in Hview. simpl in Hview.
      by rewrite (user_history_at_weaken _ _ _ _ Hsub' Hview).
    + destruct (v !! k) as [u|] eqn:Hvk; simplify_eq/=.
      assert ((list_to_map entries' : gmap string loc) !! k = None) as ->; [|done].
      apply not_elem_of_list_to_map_1. rewrite Hkeys.
      intros Hin. apply list_elem_of_fmap in Hin as ([k' l0] & -> & Hin).
      apply elem_of_map_to_list in Hin. simpl in Hk. congruence.
  - exists (list_to_map entries'). split; [apply lookup_insert_eq|].
    intros k1 k2 l1 l2 c Hne Hk1 Hk2 Hc1 Hc2.
    apply elem_of_list_to_map_2, list_elem_of_In in Hk1, Hk2.
    assert (l' ≠ l1 ∧ l' ≠ l2) as [Hne1 Hne2].
    { split; intros <-; rewrite lookup_insert_eq in *; simplify_eq. }
    rewrite lookup_insert_ne in Hc1, Hc2 by done.
    destruct (ForallOrdPairs_In Hpairs _ _ Hk1 Hk2) as [Heq|[Hsep|Hsep]].
    + by simplify_eq.
    + by apply (Hsep c).
    + by apply (Hsep c).
Qed.

End heap_views.

(** * Running computations *)

Section effects.

Context {S : Type}.

Lemma bind_Returned {A B} (m : Eff S A) (k : A → Eff S B) s a s' :
  m s = (Returned a, s') → (m ≫= k) s = k a s'.
Proof. unfold mbind, Eff_bind. by intros ->. Qed.

Lemma bind_ret {A B} (a : A) (k : A → Eff S B) s : (mret a ≫= k) s = k a s.
Proof. done. Qed.

Lemma bind_Thrown {A B} (m : Eff S A) (k : A → Eff S B) s e s' :
  m s = (Thrown e, s') → (m ≫= k) s = (Thrown e, s').
Proof. unfold mbind, Eff_bind. by intros ->. Qed.

Lemma try_catch_Returned {A} (body : Eff S A) handler s a s' :
  body s = (Returned a, s') → try_catch body handler s = (Returned a, s').
Proof. unfold try_catch. by intros ->. Qed.

Lemma try_catch_Thrown {A} (body : Eff S A) handler s e s' :
  body s = (Thrown e, s') → try_catch body handler s = handler e s'.
Proof. unfold try_catch. by intros ->. Qed.

Lemma try_catch_bind_Returned {A B} (m : Eff S A) (k : A → Eff S B) handler s a s' :
  m s = (Returned a, s') → try_catch (m ≫= k) handler s = try_catch (k a) handler s'.
Proof. unfold try_catch, mbind, Eff_bind. by intros ->. Qed.

Lemma try_catch_bind_Thrown {A B} (m : Eff S A) (k : A → Eff S B) handler s e s' :
  m s = (Thrown e, s') → try_catch (m ≫= k) handler s = handler e s'.
Proof. unfold try_catch, mbind, Eff_bind. by intros ->. Qed.

Lemma try_catch_bind_ret {A B} (a : A) (k : A → Eff S B) handler s :
  try_catch (mret a ≫= k) handler s = try_catch (k a) handler s.
Proof. done. Qed.

End effects.

Lemma on_heap_run {A} (m : Eff heap A) w r h' :
  m (objects w) = (r, h') → on_heap m w = (r, set_objects h' w).
Proof. unfold on_heap. by intros ->. Qed.

Lemma set_objects_id w : set_objects (objects w) w = w.
Proof. by destruct w. Qed.

Lemma holds_weaken h h' l v : h ⊆ h' → holds h l v → holds h' l v.
Proof.
  intros Hsub (accounts & Hl & Hv)%holds_lookup.
  eapply holds_intro; [by eapply lookup_weaken|]. intros k.
  specialize (Hv k). destruct (accounts !! k) as [l0|]; [|done].
  destruct (v !! k) as [u|]; simplify_eq/=.
  by rewrite (user_history_at_weaken _ _ _ _ Hsub Hv).
Qed.

Lemma holds_root h l accounts v k :
  holds h l v → h !! l = Some (OHistory accounts) →
  user_history_at h <$> accounts !! k = Some <$> v !! k.
Proof.
  intros (accounts' & Hl & Hv)%holds_lookup Hroot. by simplify_eq.
Qed.

Lemma holds_root_None h l accounts v k :
  holds h l v → h !! l = Some (OHistory accounts) → v !! k = None →
  accounts !! k = None.
Proof.
  intros Hv Hroot Hk. pose proof (holds_root _ _ _ _ k Hv Hroot) as Heq.
  rewrite Hk in Heq. by destruct (accounts !! k).
Qed.

Lemma holds_root_Some h l accounts v k u :
  holds h l v → h !! l = Some (OHistory accounts) → v !! k = Some u →
  ∃ l0, accounts !! k = Some l0 ∧ user_history_at h l0 = Some u.
Proof.
  intros Hv Hroot Hk. pose proof (holds_root _ _ _ _ k Hv Hroot) as Heq.
  rewrite Hk in Heq. destruct (accounts !! k) as [l0|]; simplify_eq/=. eauto.
Qed.

(** ** The migration in the program state *)

Lemma migrateHistory_null w :
  migrateHistoryForChatModelProperty None w = (Returned None, w).
Proof. done. Qed.

(** On a well-formed record the migration returns; it builds its result in
    new objects [h' ∖ objects w], and hands back the input reference itself
    exactly when the counter stayed at zero. *)
Lemma migrateHistory_spec w l v :
  holds (objects w) l v →
  ∃ l' h' accounts',
    objects w ⊆ h' ∧ objects w !! l' = None
    ∧ holds h' l' (migrated_store v)
    ∧ h' !! l' = Some (OHistory accounts') ∧ separated h' accounts'
    ∧ migrateHistoryForChatModelProperty (Some l) w
      = if decide (pending_store v = 0)
        then (Returned (Some l), set_objects h' w)
        else (Returned (Some l'), add_debug (pending_store v) (set_objects h' w)).
Proof.
  intros Hv.
  destruct (build_migratedHistory_spec _ _ _ Hv)
    as (l' & h' & Hrun & Hsub & Hl' & Hv' & accounts' & Hroot & Hsep).
  exists l', h', accounts'. split_and!; try done.
  unfold migrateHistoryForChatModelProperty.
  rewrite (bind_Returned _ _ _ _ _ (on_heap_run _ _ _ _ Hrun)).
  destruct (pending_store v); by case_decide.
Qed.

(** ** The adapter and the backend *)

Section adapter.

Implicit Types (w : World) (b : nat) (m : Memento) (key : string) (v : value).

Lemma storage_initialised w b :
  _storage w = Some b → LocalStorage.storage w = (Returned b, w).
Proof. unfold LocalStorage.storage. by intros ->. Qed.

Lemma storage_uninitialised w :
  _storage w = None → LocalStorage.storage w = (Thrown NotInitialized, w).
Proof. unfold LocalStorage.storage. by intros ->. Qed.

Lemma get_reads w b m key d :
  mementos w !! b = Some m → get_throws m = None →
  convertToAsyncStore.get b key d w = (Returned (read_slot key d (contents m)), w).
Proof. unfold convertToAsyncStore.get, Memento_get. by intros -> ->. Qed.

Lemma get_fails w b m key d e :
  mementos w !! b = Some m → get_throws m = Some e →
  convertToAsyncStore.get b key d w = (Thrown e, w).
Proof. unfold convertToAsyncStore.get, Memento_get. by intros -> ->. Qed.

Lemma update_writes w b m key v :
  mementos w !! b = Some m → update_fails m = None →
  convertToAsyncStore.update b key v w
  = (Returned tt, set_memento b (called key v (write_slot key v (contents m)) m) w).
Proof.
  unfold convertToAsyncStore.update, Memento_update, mbind, Eff_bind.
  by intros -> ->.
Qed.

Lemma update_rejects w b m key v e :
  mementos w !! b = Some m → update_fails m = Some (UpdateRejects e) →
  convertToAsyncStore.update b key v w
  = (Returned tt, add_unhandled e (set_memento b (called key v (contents m) m) w)).
Proof.
  unfold convertToAsyncStore.update, Memento_update, mbind, Eff_bind.
  by intros -> ->.
Qed.

Lemma update_throws w b m key v e :
  mementos w !! b = Some m → update_fails m = Some (UpdateThrows e) →
  convertToAsyncStore.update b key v w
  = (Thrown e, set_memento b (called key v (contents m) m) w).
Proof.
  unfold convertToAsyncStore.update, Memento_update, mbind, Eff_bind.
  by intros -> ->.
Qed.

(** Whatever the backend does, the adapter's [update] records exactly one
  call on it. *)
Lemma update_calls_once w b m key v :
  mementos w !! b = Some m →
  ∃ r w' m',
    convertToAsyncStore.update b key v w = (r, w')
    ∧ mementos w' = <[b := m']> (mementos w)
    ∧ update_calls m' = (update_calls m ++ [(key, v)])%list
    ∧ get_throws m' = get_throws m ∧ update_fails m' = update_fails m
    ∧ objects w' = objects w ∧ _storage w' = _storage w.
Proof.
  intros Hm. destruct (update_fails m) as [[e|e]|] eqn:Hf.
  - eexists _, _, _. split; [by eapply update_throws|done].
  - eexists _, _, _. split; [by eapply update_rejects|done].
  - eexists _, _, _. split; [by eapply update_writes|done].
Qed.

End adapter.

(** ** [getChatHistory], step by step *)

Section getChatHistory.

Implicit Types (w : World) (b : nat) (m : Memento) (a : AuthStatus).

Lemma stores_None_read w b m :
  mementos w !! b = Some m → stores w b None →
  read_slot KEY_LOCAL_HISTORY VNull (contents m) = VNull.
Proof.
  unfold stores, slot, read_slot. intros ->.
  by destruct (contents m !! KEY_LOCAL_HISTORY) as [[]|].
Qed.

Lemma stores_Some_read w b m v :
  mementos w !! b = Some m → stores w b (Some v) →
  ∃ l, contents m !! KEY_LOCAL_HISTORY = Some (VRef l)
       ∧ read_slot KEY_LOCAL_HISTORY VNull (contents m) = VRef l
       ∧ holds (objects w) l v.
Proof.
  unfold stores, slot, read_slot. intros ->.
  destruct (contents m !! KEY_LOCAL_HISTORY) as [[| | |l]|]; try done.
  intros Hv. by exists l.
Qed.

(** No record yet: nothing is migrated or written, and the result is a new
  empty history. *)
Lemma getChatHistory_absent w b m a :
  initialised w b m → get_throws m = None → stores w b None →
  LocalStorage.getChatHistory a w = on_heap empty_history w.
Proof.
  intros [Hb Hm] Hget Hnone. unfold LocalStorage.getChatHistory.
  rewrite (bind_Returned _ _ _ _ _ (storage_initialised _ _ Hb)).
  rewrite (bind_Returned _ _ _ _ _ (get_reads _ _ _ _ _ Hm Hget)).
  by rewrite (stores_None_read _ _ _ Hm Hnone).
Qed.

(** A record is stored: it is migrated; if that built a new record, the new
  record is written back; the account's entry in the migrated record, or a
  new empty history, is returned. *)
Lemma getChatHistory_present w b m a v :
  initialised w b m → get_throws m = None → stores w b (Some v) →
  ∃ l l' h' accounts accounts',
    contents m !! KEY_LOCAL_HISTORY = Some (VRef l)
    ∧ holds (objects w) l v
    ∧ objects w ⊆ h' ∧ objects w !! l' = None
    ∧ objects w !! l = Some (OHistory accounts)
    ∧ h' !! l' = Some (OHistory accounts')
    ∧ holds h' l' (migrated_store v)
    ∧ separated h' accounts'
    ∧ migrateHistoryForChatModelProperty (Some l) w
      = (if decide (pending_store v = 0)
         then (Returned (Some l), set_objects h' w)
         else (Returned (Some l'), add_debug (pending_store v) (set_objects h' w)))
    ∧ LocalStorage.getChatHistory a w
      = if decide (pending_store v = 0)
        then LocalStorage.entry_or_default (accounts !! getKeyForAuthStatus a) (set_objects h' w)
        else (convertToAsyncStore.update b KEY_LOCAL_HISTORY (VRef l');;
              LocalStorage.entry_or_default (accounts' !! getKeyForAuthStatus a))
               (add_debug (pending_store v) (set_objects h' w)).
Proof.
  intros [Hb Hm] Hget Hsome.
  destruct (stores_Some_read _ _ _ _ Hm Hsome) as (l & Hslot & Hread & Hv).
  destruct (migrateHistory_spec w l v Hv)
    as (l' & h' & accounts' & Hsub & Hfresh & Hv' & Hroot' & Hsep & Hrun).
  destruct (holds_lookup _ _ _ Hv) as (accounts & Hroot & _).
  exists l, l', h', accounts, accounts'. split_and!; try done.
  unfold LocalStorage.getChatHistory.
  rewrite (bind_Returned _ _ _ _ _ (storage_initialised _ _ Hb)).
  rewrite (bind_Returned _ _ _ _ _ (get_reads _ _ _ _ _ Hm Hget)).
  rewrite Hread. simpl as_history.
  rewrite bind_ret.
  case_decide as Hzero.
  - rewrite (bind_Returned _ _ _ _ _ Hrun).
    rewrite decide_False by (by intros ?).
    unfold mbind at 1, Eff_bind at 1. simpl.
    assert (on_heap (read_history l) (set_objects h' w)
            = (Returned accounts, set_objects h' w)) as Hread_root.
    { erewrite on_heap_run; [by rewrite set_objects_id|].
      unfold read_history. simpl. by rewrite (lookup_weaken _ _ _ _ Hroot Hsub). }
    rewrite (bind_Returned _ _ _ _ _ (bind_Returned _ _ _ _ _ Hread_root)).
    done.
  - rewrite (bind_Returned _ _ _ _ _ Hrun).
    assert (l ≠ l') as Hne by (intros ->; congruence).
    rewrite decide_True by congruence.
    set (w1 := add_debug (pending_store v) (set_objects h' w)).
    destruct (update_calls_once w1 b m KEY_LOCAL_HISTORY (VRef l') Hm)
      as (r & w2 & m2 & Hupdate & _ & _ & _ & _ & Hobjects & _).
    assert ((LocalStorage.storage ≫= λ store',
               convertToAsyncStore.update store' KEY_LOCAL_HISTORY (of_history (Some l')))
              w1 = (r, w2)) as Hstep.
    { by rewrite (bind_Returned _ _ _ _ _ (storage_initialised w1 b Hb)). }
    destruct r as [[]|e].
    + rewrite (bind_Returned _ _ _ _ _ Hstep), (bind_Returned _ _ _ _ _ Hupdate).
      assert (on_heap (read_history l') w2 = (Returned accounts', w2)) as Hread_root.
      { erewrite on_heap_run; [by rewrite set_objects_id|].
        unfold read_history. rewrite Hobjects. simpl. by rewrite Hroot'. }
      by rewrite (bind_Returned _ _ _ _ _ (bind_Returned _ _ _ _ _ Hread_root)).
    + by rewrite (bind_Thrown _ _ _ _ _ Hstep), (bind_Thrown _ _ _ _ _ Hupdate).
Qed.

End getChatHistory.


(** ** [setChatHistory], up to its write *)

Section setChatHistory.

Implicit Types (w : World) (b : nat) (m : Memento) (a : AuthStatus).

(** A record is stored: the account's entry is set in place, and the same
    record is written back. *)
Lemma setChatHistory_present w b m a history l accounts :
  initialised w b m → get_throws m = None →
  contents m !! KEY_LOCAL_HISTORY = Some (VRef l) →
  objects w !! l = Some (OHistory accounts) →
  LocalStorage.setChatHistory a history w
  = try_catch (convertToAsyncStore.update b KEY_LOCAL_HISTORY (VRef l)) console_error
      (set_objects
         (<[l := OHistory (<[getKeyForAuthStatus a := history]> accounts)]> (objects w)) w).
Proof.
  intros [Hb Hm] Hget Hslot Hroot. unfold LocalStorage.setChatHistory.
  rewrite (try_catch_bind_Returned _ _ _ _ _ _ (storage_initialised _ _ Hb)).
  rewrite (try_catch_bind_Returned _ _ _ _ _ _ (get_reads _ _ _ _ _ Hm Hget)).
  unfold read_slot. rewrite Hslot. simpl as_history. rewrite try_catch_bind_ret.
  assert (on_heap (read_history l) w = (Returned accounts, w)) as Hread.
  { erewrite on_heap_run; [by rewrite set_objects_id|].
    unfold read_history. by rewrite Hroot. }
  assert ((on_heap (read_history l) ≫= λ accounts0,
             on_heap (write l (OHistory (<[getKeyForAuthStatus a := history]> accounts0)))
             ≫= λ _, mret l) w
          = (Returned l,
             set_objects
               (<[l := OHistory (<[getKeyForAuthStatus a := history]> accounts)]> (objects w))
               w)) as Hblock.
  { by rewrite (bind_Returned _ _ _ _ _ Hread). }
  rewrite (try_catch_bind_Returned _ _ _ _ _ _ Hblock).
  by rewrite (try_catch_bind_Returned _ _ _ _ _ _
                (storage_initialised (set_objects _ w) _ Hb)).
Qed.

(** No record yet: a new one with the single entry is created and written. *)
Lemma setChatHistory_absent w b m a history :
  initialised w b m → get_throws m = None → stores w b None →
  ∃ l,
    objects w !! l = None
    ∧ LocalStorage.setChatHistory a history w
      = try_catch (convertToAsyncStore.update b KEY_LOCAL_HISTORY (VRef l)) console_error
          (set_objects (<[l := OHistory {[getKeyForAuthStatus a := history]}]> (objects w)) w).
Proof.
  intros [Hb Hm] Hget Hnone.
  destruct (alloc_spec (OHistory {[getKeyForAuthStatus a := history]}) (objects w))
    as (l & Halloc & Hl).
  exists l. split; [done|]. unfold LocalStorage.setChatHistory.
  rewrite (try_catch_bind_Returned _ _ _ _ _ _ (storage_initialised _ _ Hb)).
  rewrite (try_catch_bind_Returned _ _ _ _ _ _ (get_reads _ _ _ _ _ Hm Hget)).
  rewrite (stores_None_read _ _ _ Hm Hnone). simpl as_history.
  rewrite try_catch_bind_ret.
  rewrite (try_catch_bind_Returned _ _ _ _ _ _ (on_heap_run _ _ _ _ Halloc)).
  by rewrite (try_catch_bind_Returned _ _ _ _ _ _
                (storage_initialised (set_objects _ w) _ Hb)).
Qed.

(** Whatever the state, [setChatHistory] returns: its whole body is inside
    [try], and the handler only logs. *)
Lemma setChatHistory_returns w a history :
  ∃ w', LocalStorage.setChatHistory a history w = (Returned tt, w').
Proof.
  unfold LocalStorage.setChatHistory, try_catch.
  match goal with |- context [ match ?body w with _ => _ end ] =>
    destruct (body w) as [[[]|e] w'] end; by eexists.
Qed.

End setChatHistory.

(** * Views of the stored record under in-place updates *)

Section store_views.

Implicit Types (w : World) (b : nat) (m : Memento) (a : AuthStatus) (h : heap).

(** Replacing the account table of a record changes no account's content. *)
Lemma user_history_at_set_root h l accounts accounts' x :
  h !! l = Some (OHistory accounts) →
  user_history_at (<[l := OHistory accounts']> h) x = user_history_at h x.
Proof.
  intros Hl. unfold user_history_at, chat_at.
  destruct (decide (x = l)) as [->|Hx].
  { by rewrite lookup_insert_eq, Hl. }
  rewrite lookup_insert_ne by done.
  destruct (h !! x) as [[| [c|] |]|]; try done.
  destruct (decide (c = l)) as [->|Hc].
  - by rewrite lookup_insert_eq, Hl.
  - by rewrite lookup_insert_ne.
Qed.

(** Replacing a chat table changes the content of exactly the account
    objects that refer to it. *)
Lemma user_history_at_set_chat h c transcripts transcripts' x :
  h !! c = Some (OChat transcripts) →
  user_history_at (<[c := OChat transcripts']> h) x
  = if decide (h !! x = Some (OUserHistory (Some c)))
    then Some {| chat := Some transcripts' |}
    else user_history_at h x.
Proof.
  intros Hc. unfold user_history_at, chat_at.
  destruct (decide (x = c)) as [->|Hx].
  { rewrite lookup_insert_eq, Hc. by rewrite decide_False. }
  rewrite lookup_insert_ne by done.
  destruct (h !! x) as [[| [c'|] |]|] eqn:Hlookup; try by rewrite decide_False.
  destruct (decide (c' = c)) as [->|Hc'].
  - rewrite decide_True by done. by rewrite lookup_insert_eq.
  - rewrite decide_False by congruence. by rewrite lookup_insert_ne.
Qed.

Lemma stores_stored_account w b v k :
  stores w b (Some v) → stored_account w b k = v !! k.
Proof.
  unfold stores, stored_account, stored_history.
  destruct (slot w b KEY_LOCAL_HISTORY); try done.
  unfold holds. intros ->. simpl. rewrite lookup_fmap. by destruct (v !! k).
Qed.

(** What the slot holds after a successful [update] of it. *)
Lemma slot_after_update w b m key v slots h :
  v ≠ VUndefined →
  slot (set_memento b (called key v (write_slot key v slots) m) (set_objects h w)) b key = v.
Proof.
  intros Hv. unfold slot. simpl. rewrite lookup_insert_eq. simpl.
  unfold write_slot. destruct v; try done; by rewrite lookup_insert_eq.
Qed.

(** The state [setChatHistory] leaves when a record is stored and the
    backend works. *)
Lemma setChatHistory_writes w b m a history l accounts :
  initialised w b m → get_throws m = None → update_fails m = None →
  contents m !! KEY_LOCAL_HISTORY = Some (VRef l) →
  objects w !! l = Some (OHistory accounts) →
  LocalStorage.setChatHistory a history w
  = (Returned tt,
     set_memento b
       (called KEY_LOCAL_HISTORY (VRef l)
          (write_slot KEY_LOCAL_HISTORY (VRef l) (contents m)) m)
       (set_objects
          (<[l := OHistory (<[getKeyForAuthStatus a := history]> accounts)]> (objects w)) w)).
Proof.
  intros Hinit Hget Hf Hslot Hroot.
  rewrite (setChatHistory_present w b m a history l accounts Hinit Hget Hslot Hroot).
  destruct Hinit as [Hb Hm].
  by rewrite (try_catch_Returned _ _ _ _ _
                (update_writes (set_objects _ w) b m _ _ Hm Hf)).
Qed.

(** In that state every account key leads where the updated table says, and
    the content found there is what it was. *)
Lemma stored_account_after_set w b m key history l accounts slots k :
  objects w !! l = Some (OHistory accounts) →
  let w' :=
    set_memento b (called KEY_LOCAL_HISTORY (VRef l)
                     (write_slot KEY_LOCAL_HISTORY (VRef l) slots) m)
      (set_objects (<[l := OHistory (<[key := history]> accounts)]> (objects w)) w) in
  stored_account_ref w' b k = <[key := history]> accounts !! k
  ∧ stored_account w' b k = <[key := history]> accounts !! k ≫= user_history_at (objects w).
Proof.
  intros Hroot w'.
  assert (slot w' b KEY_LOCAL_HISTORY = VRef l) as Hslot
    by by apply slot_after_update.
  unfold stored_account_ref, stored_account, stored_history, history_at.
  rewrite Hslot. simpl. rewrite lookup_insert_eq. split; [done|].
  simpl. rewrite lookup_fmap.
  destruct (<[key := history]> accounts !! k) as [x|]; [|done].
  simpl. by rewrite (user_history_at_set_root _ _ _ _ _ Hroot).
Qed.

Lemma stores_stored_account_ref w b v k u :
  stores w b (Some v) → v !! k = Some u →
  ∃ l accounts x,
    slot w b KEY_LOCAL_HISTORY = VRef l
    ∧ objects w !! l = Some (OHistory accounts)
    ∧ accounts !! k = Some x
    ∧ stored_account_ref w b k = Some x
    ∧ user_history_at (objects w) x = Some u.
Proof.
  unfold stores, stored_account_ref.
  destruct (slot w b KEY_LOCAL_HISTORY) as [| | |l]; try done. intros Hv Hk.
  destruct (holds_lookup _ _ _ Hv) as (accounts & Hroot & _).
  destruct (holds_root_Some _ _ _ _ _ _ Hv Hroot Hk) as (x & Hx & Hu).
  exists l, accounts, x. by rewrite Hroot.
Qed.

(** ** [deleteChatHistory], after its read *)

(** The entry read has a chat table: the chat is removed from that table in
    place, and the entry is stored back under the account's key. *)
Lemma deleteChatHistory_after_read w0 w b m a chatID l accounts la lc transcripts :
  LocalStorage.getChatHistory a w0 = (Returned la, w) →
  initialised w b m → get_throws m = None → update_fails m = None →
  contents m !! KEY_LOCAL_HISTORY = Some (VRef l) →
  objects w !! l = Some (OHistory accounts) →
  objects w !! la = Some (OUserHistory (Some lc)) →
  objects w !! lc = Some (OChat transcripts) →
  LocalStorage.deleteChatHistory a chatID w0
  = (Returned tt,
     set_memento b
       (called KEY_LOCAL_HISTORY (VRef l)
          (write_slot KEY_LOCAL_HISTORY (VRef l) (contents m)) m)
       (set_objects
          (<[l := OHistory (<[getKeyForAuthStatus a := la]> accounts)]>
             (objects (set_objects (<[lc := OChat (delete chatID transcripts)]> (objects w)) w)))
          (set_objects (<[lc := OChat (delete chatID transcripts)]> (objects w)) w))).
Proof.
  intros Hread Hinit Hget Hf Hslot Hroot Hla Hlc.
  unfold LocalStorage.deleteChatHistory.
  rewrite (bind_Returned _ _ _ _ _ Hread).
  assert (on_heap (read_user_history la) w = (Returned (Some lc), w)) as Hstep1.
  { erewrite on_heap_run; [by rewrite set_objects_id|].
    unfold read_user_history. by rewrite Hla. }
  rewrite (try_catch_bind_Returned _ _ _ _ _ _ Hstep1).
  assert (on_heap (read_chat lc) w = (Returned transcripts, w)) as Hstep2.
  { erewrite on_heap_run; [by rewrite set_objects_id|].
    unfold read_chat. by rewrite Hlc. }
  set (w2 := set_objects (<[lc := OChat (delete chatID transcripts)]> (objects w)) w).
  assert ((on_heap (read_chat lc) ≫= λ transcripts0,
             on_heap (write lc (OChat (delete chatID transcripts0)))) w
          = (Returned tt, w2)) as Hstep3.
  { by rewrite (bind_Returned _ _ _ _ _ Hstep2). }
  rewrite (try_catch_bind_Returned _ _ _ _ _ _ Hstep3).
  assert (l ≠ lc) as Hne by (intros ->; congruence).
  apply try_catch_Returned.
  apply (setChatHistory_writes w2 b m a la l accounts); try done.
  subst w2. simpl. by rewrite lookup_insert_ne.
Qed.

(** The entry read has no [chat] field: [delete userHistory.chat[chatID]]
    throws, the error is logged, and nothing is written. *)
Lemma deleteChatHistory_after_read_no_chat w0 w a chatID la :
  LocalStorage.getChatHistory a w0 = (Returned la, w) →
  objects w !! la = Some (OUserHistory None) →
  LocalStorage.deleteChatHistory a chatID w0 = (Returned tt, add_console TypeError w).
Proof.
  intros Hread Hla. unfold LocalStorage.deleteChatHistory.
  rewrite (bind_Returned _ _ _ _ _ Hread).
  assert (on_heap (read_user_history la) w = (Returned None, w)) as Hstep1.
  { erewrite on_heap_run; [by rewrite set_objects_id|].
    unfold read_user_history. by rewrite Hla. }
  by rewrite (try_catch_bind_Returned _ _ _ _ _ _ Hstep1).
Qed.

(** What the record holds afterwards: the account's entry without the chat;
    every other entry that does not share the chat table, as it was. *)
Lemma deleteChatHistory_after_read_stored w0 w b m a chatID l accounts la lc transcripts :
  LocalStorage.getChatHistory a w0 = (Returned la, w) →
  initialised w b m → get_throws m = None → update_fails m = None →
  contents m !! KEY_LOCAL_HISTORY = Some (VRef l) →
  objects w !! l = Some (OHistory accounts) →
  accounts !! getKeyForAuthStatus a = Some la →
  objects w !! la = Some (OUserHistory (Some lc)) →
  objects w !! lc = Some (OChat transcripts) →
  ∃ w',
    LocalStorage.deleteChatHistory a chatID w0 = (Returned tt, w')
    ∧ stored_account w' b (getKeyForAuthStatus a)
      = Some {| chat := Some (delete chatID transcripts) |}
    ∧ ∀ k, k ≠ getKeyForAuthStatus a →
           stored_account_ref w' b k = accounts !! k
           ∧ ((∀ x, accounts !! k = Some x →
                    objects w !! x ≠ Some (OUserHistory (Some lc))) →
              stored_account w' b k = accounts !! k ≫= user_history_at (objects w)).
Proof.
  intros Hread Hinit Hget Hf Hslot Hroot Hentry Hla Hlc.
  eexists. split; [by eapply deleteChatHistory_after_read|].
  set (w2 := set_objects (<[lc := OChat (delete chatID transcripts)]> (objects w)) w).
  assert (l ≠ lc) as Hne by (intros ->; congruence).
  assert (objects w2 !! l = Some (OHistory accounts)) as Hroot2.
  { subst w2. simpl. by rewrite lookup_insert_ne. }
  split.
  - destruct (stored_account_after_set w2 b m (getKeyForAuthStatus a) la l accounts
                (contents m) (getKeyForAuthStatus a) Hroot2) as [_ ->].
    rewrite lookup_insert_eq. simpl.
    rewrite (user_history_at_set_chat _ _ _ _ _ Hlc). by rewrite decide_True.
  - intros k Hk.
    destruct (stored_account_after_set w2 b m (getKeyForAuthStatus a) la l accounts
                (contents m) k Hroot2) as [-> ->].
    rewrite lookup_insert_ne by done. split; [done|]. intros Hunshared.
    destruct (accounts !! k) as [x|]; [|done]. simpl.
    rewrite (user_history_at_set_chat _ _ _ _ _ Hlc).
    rewrite decide_False; [done|]. by apply Hunshared.
Qed.

End store_views.

(** * The migration: what it guarantees *)

Lemma transcript_at_migrated (v : AccountKeyedChatHistory) k id :
  transcript_at (migrated_store v) k id = migrated_transcript <$> transcript_at v k id.
Proof.
  unfold transcript_at, migrated_store. rewrite lookup_fmap.
  destruct (v !! k) as [[[transcripts|]]|]; simpl; try done.
  unfold migrated_chat. rewrite lookup_fmap.
  by destruct (transcripts !! id) as [[t|]|].
Qed.

Lemma transcript_at_pending_0 (v : AccountKeyedChatHistory) k id t :
  pending_store v = 0 → transcript_at v k id = Some t → migrated_transcript t = t.
Proof.
  unfold transcript_at. intros Hzero Ht.
  destruct (v !! k) as [u|] eqn:Hk; [|done].
  apply (pending_store_0 _ _ _ Hzero) in Hk.
  destruct u as [[transcripts|]]; simpl in *; [|done].
  apply pending_chat_0 in Hk.
  destruct (transcripts !! id) as [[t'|]|] eqn:Hid; simplify_eq/=.
  assert (migrated_chat transcripts !! id = Some (Some (migrated_transcript t))) as Hm.
  { unfold migrated_chat. by rewrite lookup_fmap, Hid. }
  rewrite Hk, Hid in Hm. by simplify_eq.
Qed.

(** Every migrated assistant message has a [model], and it is empty only for
    a message without a model in a transcript whose [chatModel] is the empty
    string. *)
Lemma migrated_message_model fallback message :
  ∃ s,
    model (migrated_message fallback message) = Some s
    ∧ (s = "" → fallback = Some "" ∧ lacks_model message = true).
Proof.
  unfold migrated_message, lacks_model.
  destruct message as [sp tx [[|c s]|]]; simpl.
  - exists (default "unknown" fallback). split; [done|].
    destruct fallback as [[|c s]|]; by simpl.
  - by exists (String c s).
  - exists (default "unknown" fallback). split; [done|].
    destruct fallback as [[|c s]|]; by simpl.
Qed.

(** C1, evaluated where it fails: a transcript whose legacy [chatModel] is
    the empty string and whose assistant message has no [model].  The
    migration counts the message, builds a new record, and the message's
    [model] in it is the empty string: [model ?? 'unknown'] only replaces
    [undefined], while the test [if (assistantMessage.model)] treats the empty
    string as missing. *)
Example migration_keeps_empty_chatModel :
  let run := migrateHistoryForChatModelProperty (Some 0) empty_model_world in
  run.1 = Returned (Some 5)
  ∧ debug_log run.2 = [1]
  ∧ holds (objects run.2) 5
      {[ "ep-u1" := {| chat := Some {[ "c1" := Some c1_empty_model_migrated ]} |} ]}
  ∧ model <$> (interactions c1_empty_model_migrated !! 0 ≫= assistantMessage) = Some (Some "")
  ∧ (migrateHistoryForChatModelProperty (Some 5) run.2).1 = Returned (Some 8).
Proof. by vm_compute. Qed.

(** C2: the migration is idempotent.  On a record in which no message needs
    a model (the counter stays at zero) it returns the very reference it was
    given and leaves every existing object and the rest of the state as they
    were; and whatever the record, migrating the result once more yields a
    record with the same content as migrating once.  [null] migrates to
    [null]. *)
Theorem migration_idempotent w history v :
  holds_opt (objects w) history v →
  ∃ once w1 twice w2 v1,
    migrateHistoryForChatModelProperty history w = (Returned once, w1)
    ∧ migrateHistoryForChatModelProperty once w1 = (Returned twice, w2)
    ∧ holds_opt (objects w1) once v1
    ∧ holds_opt (objects w2) twice v1
    ∧ (from_option pending_store 0 v = 0 →
       once = history ∧ v1 = v
       ∧ objects w ⊆ objects w1 ∧ w1 = set_objects (objects w1) w).
Proof.
  destruct history as [l|], v as [v|]; try done; intros Hv.
  - destruct (migrateHistory_spec w l v Hv)
      as (l1 & h1 & accounts1 & Hsub1 & Hfresh1 & Hv1 & _ & _ & Hrun1).
    simpl. case_decide as Hzero.
    + (* nothing to migrate: the same reference, twice *)
      pose proof (holds_weaken _ _ _ _ Hsub1 Hv) as Hv'.
      destruct (migrateHistory_spec (set_objects h1 w) l v Hv')
        as (l2 & h2 & accounts2 & Hsub2 & _ & _ & _ & _ & Hrun2).
      rewrite decide_True in Hrun2 by done.
      exists (Some l), (set_objects h1 w), (Some l), (set_objects h2 (set_objects h1 w)),
        (Some v).
      split_and!; try done. simpl. by eapply holds_weaken.
    + (* a new record the first time *)
      set (w1 := add_debug (pending_store v) (set_objects h1 w)).
      destruct (migrateHistory_spec w1 l1 (migrated_store v) Hv1)
        as (l2 & h2 & accounts2 & Hsub2 & _ & Hv2 & _ & _ & Hrun2).
      rewrite migrated_store_idemp in Hv2.
      case_decide as Hzero'.
      * exists (Some l1), w1, (Some l1), (set_objects h2 w1), (Some (migrated_store v)).
        split_and!; try done. simpl. by eapply holds_weaken.
      * exists (Some l1), w1, (Some l2),
          (add_debug (pending_store (migrated_store v)) (set_objects h2 w1)),
          (Some (migrated_store v)).
        by split_and!.
  - exists None, w, None, w, None. split_and!; try done.
    intros _. split_and!; try done. by rewrite set_objects_id.
Qed.

(** The hypothesis of [migration_idempotent] on the specification's example:
    there the first run builds a new record and the second returns it as it
    is. *)
Lemma migration_idempotent_witness :
  holds_opt (objects example_world) (Some 0) (Some example_content)
  ∧ ∃ once w1 twice w2 v1,
      migrateHistoryForChatModelProperty (Some 0) example_world = (Returned once, w1)
      ∧ migrateHistoryForChatModelProperty once w1 = (Returned twice, w2)
      ∧ holds_opt (objects w1) once v1
      ∧ holds_opt (objects w2) twice v1
      ∧ (from_option pending_store 0 (Some example_content) = 0 →
         once = Some 0 ∧ v1 = Some example_content
         ∧ objects example_world ⊆ objects w1 ∧ w1 = set_objects (objects w1) example_world).
Proof.
  split.
  - vm_compute. reflexivity.
  - apply (migration_idempotent example_world (Some 0) (Some example_content)).
    vm_compute. reflexivity.
Defined.

(** C3: what the migration does to each message.  On a well-formed record
    the migration returns a record [result] in which, chat by chat and
    interaction by interaction,
    - an assistant message without a (non-empty) [model] has become the same
      message with [model] set to the transcript's [chatModel] if present, else
      to ["unknown"];
    - an interaction with a [null] assistant message is as it was, and so is
      one whose assistant message has a model.
    Nothing else of a transcript changes.  The counter [neededMigration] was
    incremented once by each call on a message without a model and by no
    other, and ends at the number of such messages in the record; when it is
    not zero it is what [logDebug] reports. *)
Theorem migration_sets_missing_models w l v :
  holds (objects w) l v →
  ∃ result w' v' l' h',
    migrateHistoryForChatModelProperty (Some l) w = (Returned (Some result), w')
    ∧ holds (objects w') result v'
    ∧ build_migratedHistory l (objects w) = (Returned (l', pending_store v), h')
    ∧ (∀ message fallback n,
         (migrateAssistantMessage message fallback n).2
         = if lacks_model message then S n else n)
    ∧ debug_log w'
      = (debug_log w ++ if decide (pending_store v = 0) then [] else [pending_store v])%list
    ∧ ∀ k id t,
        transcript_at v k id = Some t →
        ∃ t',
          transcript_at v' k id = Some t'
          ∧ transcript_id t' = transcript_id t
          ∧ chatTitle t' = chatTitle t
          ∧ chatModel t' = chatModel t
          ∧ length (interactions t') = length (interactions t)
          ∧ ∀ i interaction,
              interactions t !! i = Some interaction →
              ∃ interaction',
                interactions t' !! i = Some interaction'
                ∧ match assistantMessage interaction with
                  | None => interaction' = interaction
                  | Some message =>
                      if lacks_model message
                      then interaction'
                           = {| humanMessage := humanMessage interaction;
                                assistantMessage :=
                                  Some {| speaker := speaker message;
                                          text := text message;
                                          model :=
                                            Some (default "unknown" (chatModel t)) |} |}
                      else interaction' = interaction
                  end.
Proof.
  intros Hv.
  destruct (migrateHistory_spec w l v Hv)
    as (l' & h' & accounts' & Hsub & Hfresh & Hv' & _ & _ & Hrun).
  destruct (build_migratedHistory_spec _ _ _ Hv) as (l0 & h0 & Hbuild & _).
  assert (∃ result w' v',
            migrateHistoryForChatModelProperty (Some l) w = (Returned (Some result), w')
            ∧ holds (objects w') result v'
            ∧ debug_log w'
              = (debug_log w
                 ++ if decide (pending_store v = 0) then [] else [pending_store v])%list
            ∧ ∀ k id t, transcript_at v k id = Some t →
                        transcript_at v' k id = Some (migrated_transcript t))
    as (result & w' & v' & Hrun' & Hres & Hlog & Hpath).
  { case_decide as Hzero.
    - exists l, (set_objects h' w), v. split_and!; try done.
      + by eapply holds_weaken.
      + simpl. by rewrite app_nil_r.
      + intros k id t Ht. by rewrite (transcript_at_pending_0 _ _ _ _ Hzero Ht).
    - exists l', (add_debug (pending_store v) (set_objects h' w)), (migrated_store v).
      split_and!; try done.
      intros k id t Ht. by rewrite transcript_at_migrated, Ht. }
  exists result, w', v', l0, h0. split_and!; try done.
  - intros message fallback n. rewrite migrateAssistantMessage_spec. simpl.
    destruct (lacks_model message); lia.
  - intros k id t Ht. exists (migrated_transcript t).
    split_and!; [by apply Hpath|done|done|done|simpl; by rewrite length_fmap|].
    intros i interaction Hi. exists (migrated_interaction (chatModel t) interaction).
    split; [simpl; by rewrite list_lookup_fmap, Hi|].
    unfold migrated_interaction, migrated_message, with_model.
    destruct interaction as [human' [message|]]; simpl; [|done].
    by destruct (lacks_model message).
Qed.

(** The hypothesis of [migration_sets_missing_models] on the specification's
    example: the record is well formed, one message is counted, and the new
    record is the sixth object. *)
Lemma migration_sets_missing_models_witness :
  holds (objects example_world) 0 example_content
  ∧ pending_store example_content = 1
  ∧ (migrateHistoryForChatModelProperty (Some 0) example_world).1 = Returned (Some 5)
  ∧ debug_log (migrateHistoryForChatModelProperty (Some 0) example_world).2 = [1].
Proof.
  assert (holds (objects example_world) 0 example_content) as Hv
    by (vm_compute; reflexivity).
  destruct (migration_sets_missing_models example_world 0 example_content Hv)
    as (result & w' & v' & l' & h' & Hrun & _).
  split_and!; [exact Hv|by vm_compute|by vm_compute|by vm_compute].
Defined.

(** * Reading and writing an account's history *)

Section history.

Implicit Types (w : World) (b : nat) (m : Memento) (a : AuthStatus) (h : heap).

Lemma empty_history_spec h :
  ∃ c l,
    empty_history h = (Returned l, <[l := OUserHistory (Some c)]> (<[c := OChat ∅]> h))
    ∧ h !! c = None ∧ h !! l = None ∧ c ≠ l
    ∧ user_history_at (<[l := OUserHistory (Some c)]> (<[c := OChat ∅]> h)) l
      = Some {| chat := Some ∅ |}.
Proof.
  unfold empty_history, mbind, Eff_bind.
  destruct (alloc_spec (OChat ∅) h) as (c & -> & Hc).
  destruct (alloc_spec (OUserHistory (Some c)) (<[c := OChat ∅]> h)) as (l & -> & Hl).
  apply lookup_insert_None in Hl as [Hl Hne].
  exists c, l. split_and!; try done.
  unfold user_history_at, chat_at.
  by rewrite lookup_insert_eq, lookup_insert_ne, lookup_insert_eq.
Qed.

(** [getChatHistory] for an account without an entry, and also when no
    record is stored at all, returns a reference to a new object whose content
    is the empty history [{chat: {}}], when the backend's [get] works and no
    write-back throws: either nothing is to be migrated, so that there is no
    write-back, or the backend's [update] does not throw. *)
Lemma getChatHistory_absent_entry w b m a v :
  initialised w b m →
  get_throws m = None →
  (from_option pending_store 0 v = 0 ∨ ∀ e, update_fails m ≠ Some (UpdateThrows e)) →
  stores w b v →
  (∀ v', v = Some v' → v' !! getKeyForAuthStatus a = None) →
  ∃ l w',
    LocalStorage.getChatHistory a w = (Returned l, w')
    ∧ user_history_at (objects w') l = Some {| chat := Some ∅ |}
    ∧ objects w !! l = None.
Proof.
  intros Hinit Hget Hupdate Hv Habsent.
  assert (∀ w0 h0, objects w0 = h0 → objects w ⊆ h0 →
            ∃ l w', on_heap empty_history w0 = (Returned l, w')
                    ∧ user_history_at (objects w') l = Some {| chat := Some ∅ |}
                    ∧ objects w !! l = None) as Hdefault.
  { intros w0 h0 <- Hsub.
    destruct (empty_history_spec (objects w0)) as (c & l & Hrun & _ & Hl & _ & Hview).
    eexists l, _. split_and!; [by eapply on_heap_run|done|].
    by eapply lookup_weaken_heap_None. }
  destruct v as [v|].
  - destruct (getChatHistory_present w b m a v Hinit Hget Hv)
      as (l0 & l' & h' & accounts & accounts' & Hslot & Hv0 & Hsub & Hfresh & Hroot
          & Hroot' & Hv' & _ & _ & ->).
    specialize (Habsent v eq_refl).
    case_decide as Hzero.
    + rewrite (holds_root_None _ _ _ _ _ Hv0 Hroot Habsent).
      by apply (Hdefault _ h').
    + rewrite (holds_root_None _ _ _ _ _ Hv' Hroot'); last first.
      { unfold migrated_store. by rewrite lookup_fmap, Habsent. }
      destruct Hupdate as [Hnone|Hupdate]; [done|].
      set (w1 := add_debug (pending_store v) (set_objects h' w)).
      destruct Hinit as [Hb Hm].
      destruct (update_fails m) as [[e|e]|] eqn:Hf; [by destruct (Hupdate e)| |].
      * rewrite (bind_Returned _ _ _ _ _
                   (update_rejects w1 b m KEY_LOCAL_HISTORY (VRef l') e Hm Hf)).
        by apply (Hdefault _ h').
      * rewrite (bind_Returned _ _ _ _ _
                   (update_writes w1 b m KEY_LOCAL_HISTORY (VRef l') Hm Hf)).
        by apply (Hdefault _ h').
  - rewrite (getChatHistory_absent w b m a Hinit Hget Hv).
    by apply (Hdefault w (objects w)).
Qed.

(** The last step of [getChatHistory] always returns; it only adds objects. *)
Lemma entry_or_default_spec entry w :
  ∃ l w',
    LocalStorage.entry_or_default entry w = (Returned l, w')
    ∧ objects w ⊆ objects w' ∧ w' = set_objects (objects w') w
    ∧ match entry with
      | Some l0 => l = l0 ∧ w' = w
      | None => user_history_at (objects w') l = Some {| chat := Some ∅ |}
                ∧ objects w !! l = None
      end.
Proof.
  destruct entry as [l0|]; simpl.
  - exists l0, w. split_and!; try done. by rewrite set_objects_id.
  - destruct (empty_history_spec (objects w)) as (c & l & Hrun & Hc & Hl & Hne & Hview).
    eexists l, _. split_and!; [by eapply on_heap_run| |done|done|done].
    simpl. etrans; [apply (insert_subseteq _ c); exact Hc|].
    apply insert_subseteq. by rewrite lookup_insert_ne.
Qed.

(** C5: [getChatHistory] calls the backend's [update] exactly when the
  migration returned another reference than the loaded one
  ([history !== migratedHistory]), which is exactly when some message needed
  a model; the call then carries the migrated record.  When the migration
  returned the loaded reference, the backend receives no call and is left as
  it was, and so is every object that existed. *)
Theorem getChatHistory_writes_iff_migrated w b m a v :
  initialised w b m →
  get_throws m = None →
  stores w b v →
  ∃ history migrated w1 r w' m',
    as_history (read_slot KEY_LOCAL_HISTORY VNull (contents m)) w = (Returned history, w)
    ∧ migrateHistoryForChatModelProperty history w = (Returned migrated, w1)
    ∧ LocalStorage.getChatHistory a w = (r, w')
    ∧ mementos w' = <[b := m']> (mementos w)
    ∧ update_calls m'
      = (update_calls m
         ++ if decide (history ≠ migrated)
            then [(KEY_LOCAL_HISTORY, of_history migrated)] else [])%list
    ∧ (history ≠ migrated ↔ from_option pending_store 0 v ≠ 0)
    ∧ (history = migrated →
       m' = m ∧ mementos w' = mementos w ∧ objects w ⊆ objects w').
Proof.
  intros Hinit Hget Hv. pose proof Hinit as [Hb Hm].
  destruct v as [v|].
  - destruct (getChatHistory_present w b m a v Hinit Hget Hv)
      as (l0 & l' & h' & accounts & accounts' & Hslot & Hv0 & Hsub & Hfresh & Hroot
          & Hroot' & Hv' & _ & Hmig & Hrun).
    destruct (stores_Some_read _ _ _ _ Hm Hv) as (l1 & Hslot1 & Hread & _).
    assert (l1 = l0) as -> by congruence.
    assert (l0 ≠ l') as Hne by (intros ->; congruence).
    rewrite Hread. simpl. case_decide as Hzero.
    + destruct (entry_or_default_spec (accounts !! getKeyForAuthStatus a) (set_objects h' w))
        as (l & w' & Hentry & Hsub' & Hw' & _).
      exists (Some l0), (Some l0), (set_objects h' w), (Returned l), w', m.
      split_and!.
      * done.
      * done.
      * by rewrite Hrun.
      * rewrite Hw'. simpl. by rewrite insert_id.
      * rewrite decide_False by (by intros ?). by rewrite app_nil_r.
      * split; [by intros ?|done].
      * intros _. split_and!; [done|by rewrite Hw'|]. by etrans.
    + set (w1 := add_debug (pending_store v) (set_objects h' w)) in *.
      destruct (update_calls_once w1 b m KEY_LOCAL_HISTORY (VRef l') Hm)
        as (r0 & w2 & m2 & Hupdate & Hmem & Hcalls & _ & _ & Hobjects & _).
      assert (∃ r w', LocalStorage.getChatHistory a w = (r, w')
                      ∧ mementos w' = mementos w2) as (r & w' & Hrun' & Hmem').
      { rewrite Hrun. destruct r0 as [[]|e].
        - rewrite (bind_Returned _ _ _ _ _ Hupdate).
          destruct (entry_or_default_spec (accounts' !! getKeyForAuthStatus a) w2)
            as (l & w' & Hentry & _ & Hw' & _).
          exists (Returned l), w'. split; [done|]. by rewrite Hw'.
        - rewrite (bind_Thrown _ _ _ _ _ Hupdate). by eexists _, _. }
      exists (Some l0), (Some l'), w1, r, w', m2.
      split_and!.
      * done.
      * done.
      * done.
      * by rewrite Hmem', Hmem.
      * rewrite Hcalls. by rewrite decide_True by congruence.
      * split; [done|]. intros _. congruence.
      * intros [= ?]. done.
  - destruct (entry_or_default_spec None w) as (l & w' & Hentry & Hsub' & Hw' & _).
    exists None, None, w, (Returned l), w', m.
    rewrite (stores_None_read _ _ _ Hm Hv).
    split_and!.
    + done.
    + done.
    + by rewrite (getChatHistory_absent w b m a Hinit Hget Hv).
    + rewrite Hw'. simpl. by rewrite insert_id.
    + rewrite decide_False by (by intros ?). by rewrite app_nil_r.
    + split; [by intros ?|done].
    + intros _. split_and!; [done|by rewrite Hw'|done].
Qed.

(** The hypotheses of [getChatHistory_writes_iff_migrated] on the
    specification's example: one message is migrated, and the backend receives
    one call, with the new record. *)
Lemma getChatHistory_writes_iff_migrated_witness :
  initialised example_world 0 (working {[ KEY_LOCAL_HISTORY := VRef 0 ]})
  ∧ stores example_world 0 (Some example_content)
  ∧ ∃ history migrated w1 r w' m',
      as_history (read_slot KEY_LOCAL_HISTORY VNull {[ KEY_LOCAL_HISTORY := VRef 0 ]})
        example_world = (Returned history, example_world)
      ∧ migrateHistoryForChatModelProperty history example_world = (Returned migrated, w1)
      ∧ LocalStorage.getChatHistory u1 example_world = (r, w')
      ∧ mementos w' = <[0 := m']> (mementos example_world)
      ∧ update_calls m'
        = (if decide (history ≠ migrated)
           then [(KEY_LOCAL_HISTORY, of_history migrated)] else [])
      ∧ (history ≠ migrated ↔ pending_store example_content ≠ 0)
      ∧ (history = migrated →
         m' = working {[ KEY_LOCAL_HISTORY := VRef 0 ]}
         ∧ mementos w' = mementos example_world
         ∧ objects example_world ⊆ objects w').
Proof.
  assert (initialised example_world 0 (working {[ KEY_LOCAL_HISTORY := VRef 0 ]}))
    as Hinit by done.
  assert (stores example_world 0 (Some example_content)) as Hv
    by (vm_compute; reflexivity).
  split_and!; [done..|].
  exact (getChatHistory_writes_iff_migrated example_world 0 _ u1 (Some example_content)
           Hinit eq_refl Hv).
Defined.

End history.

(** * Failures of the backing store *)

Section failures.

Implicit Types (w : World) (b : nat) (m : Memento) (a : AuthStatus).

Lemma getChatHistory_read_failure w b m a e :
  initialised w b m → get_throws m = Some e →
  LocalStorage.getChatHistory a w = (Thrown e, w).
Proof.
  intros [Hb Hm] Hget. unfold LocalStorage.getChatHistory.
  rewrite (bind_Returned _ _ _ _ _ (storage_initialised _ _ Hb)).
  by rewrite (bind_Thrown _ _ _ _ _ (get_fails _ _ _ _ _ _ Hm Hget)).
Qed.

Lemma setChatHistory_read_failure w b m a history e :
  initialised w b m → get_throws m = Some e →
  LocalStorage.setChatHistory a history w = (Returned tt, add_console e w).
Proof.
  intros [Hb Hm] Hget. unfold LocalStorage.setChatHistory.
  rewrite (try_catch_bind_Returned _ _ _ _ _ _ (storage_initialised _ _ Hb)).
  by rewrite (try_catch_bind_Thrown _ _ _ _ _ _ (get_fails _ _ _ _ _ _ Hm Hget)).
Qed.

(** [setChatHistory] reaches its [update] whenever the read works and the slot
    is well typed. *)
Lemma setChatHistory_reaches_update w b m a history v :
  initialised w b m → get_throws m = None → stores w b v →
  ∃ l h,
    LocalStorage.setChatHistory a history w
    = try_catch (convertToAsyncStore.update b KEY_LOCAL_HISTORY (VRef l)) console_error
        (set_objects h w).
Proof.
  intros Hinit Hget Hv. pose proof Hinit as [Hb Hm]. destruct v as [v|].
  - destruct (stores_Some_read _ _ _ _ Hm Hv) as (l & Hslot & _ & Hholds).
    destruct (holds_lookup _ _ _ Hholds) as (accounts & Hroot & _).
    eexists l, _. by eapply setChatHistory_present.
  - destruct (setChatHistory_absent w b m a history Hinit Hget Hv) as (l & _ & Hrun).
    by eexists l, _.
Qed.

(** What [getChatHistory] does when the write-back of a migrated record
    throws: the error is the call's. *)
Lemma getChatHistory_write_back_failure w b m a v e :
  initialised w b m → get_throws m = None →
  update_fails m = Some (UpdateThrows e) →
  stores w b (Some v) → pending_store v ≠ 0 →
  ∃ w', LocalStorage.getChatHistory a w = (Thrown e, w') ∧ console w' = console w.
Proof.
  intros Hinit Hget Hf Hv Hpending. pose proof Hinit as [Hb Hm].
  destruct (getChatHistory_present w b m a v Hinit Hget Hv)
    as (l & l' & h' & accounts & accounts' & _ & _ & _ & _ & _ & _ & _ & _ & _ & Hrun).
  rewrite decide_False in Hrun by done.
  set (w1 := add_debug (pending_store v) (set_objects h' w)) in *.
  rewrite (bind_Thrown _ _ _ _ _
             (update_throws w1 b m KEY_LOCAL_HISTORY (VRef l') e Hm Hf)) in Hrun.
  by eexists.
Qed.

(** The examples against C4 as stated.  The account ["ep-u2"] has no entry in
    the stored record, and the record is well formed; yet [getChatHistory]
    for it fails when the backend's [get] fails, and also when the backend's
    [update] throws while the record, migrated for another account's message,
    is written back. *)
Example getChatHistory_of_absent_account_fails :
  stores unreadable_world 0 (Some example_content)
  ∧ stores unwritable_world 0 (Some example_content)
  ∧ example_content !! getKeyForAuthStatus u2 = None
  ∧ LocalStorage.getChatHistory u2 unreadable_world
    = (Thrown (BackendError "read failed"), unreadable_world)
  ∧ (LocalStorage.getChatHistory u2 unwritable_world).1
    = Thrown (BackendError "write failed").
Proof. split_and!; vm_compute; reflexivity. Qed.

(** C4, as the code has it.  For an account without an entry, and also when
    no record is stored at all: [getChatHistory] returns a reference to a new
    object whose content is the empty history [{chat: {}}], not [null], when
    the backend's [get] works and either no message of the record lacks a
    model or the backend's [update] does not throw.  When the backend's [get]
    fails, the call fails with that error and the state is unchanged.  When
    some message of the record lacks a model and the backend's [update]
    throws, the call fails with that error, which is not logged. *)
Theorem getChatHistory_defaults_to_empty_unless_the_backend_fails w b m a v :
  initialised w b m →
  stores w b v →
  (∀ v', v = Some v' → v' !! getKeyForAuthStatus a = None) →
  (get_throws m = None →
   from_option pending_store 0 v = 0 ∨ (∀ e, update_fails m ≠ Some (UpdateThrows e)) →
   ∃ l w',
     LocalStorage.getChatHistory a w = (Returned l, w')
     ∧ user_history_at (objects w') l = Some {| chat := Some ∅ |}
     ∧ objects w !! l = None)
  ∧ (∀ e, get_throws m = Some e → LocalStorage.getChatHistory a w = (Thrown e, w))
  ∧ (∀ e,
       get_throws m = None →
       update_fails m = Some (UpdateThrows e) →
       from_option pending_store 0 v ≠ 0 →
       ∃ w', LocalStorage.getChatHistory a w = (Thrown e, w') ∧ console w' = console w).
Proof.
  intros Hinit Hv Habsent. split_and!.
  - intros Hget Hupdate. by eapply getChatHistory_absent_entry.
  - intros e Hget. by eapply getChatHistory_read_failure.
  - intros e Hget Hf Hpending. destruct v as [v|]; [|done].
    by eapply getChatHistory_write_back_failure.
Qed.

(** The hypotheses of the theorem on the specification's example, read for an
    account that has no entry: with the working backend the empty history is
    returned, with the backend whose [update] throws the call fails. *)
Lemma getChatHistory_defaults_to_empty_unless_the_backend_fails_witness :
  initialised example_world 0 (working {[ KEY_LOCAL_HISTORY := VRef 0 ]})
  ∧ initialised unwritable_world 0 unwritable
  ∧ stores example_world 0 (Some example_content)
  ∧ stores unwritable_world 0 (Some example_content)
  ∧ example_content !! getKeyForAuthStatus u2 = None
  ∧ pending_store example_content ≠ 0
  ∧ (∃ l w',
       LocalStorage.getChatHistory u2 example_world = (Returned l, w')
       ∧ user_history_at (objects w') l = Some {| chat := Some ∅ |}
       ∧ objects example_world !! l = None)
  ∧ ∃ w',
      LocalStorage.getChatHistory u2 unwritable_world
      = (Thrown (BackendError "write failed"), w')
      ∧ console w' = console unwritable_world.
Proof.
  assert (initialised example_world 0 (working {[ KEY_LOCAL_HISTORY := VRef 0 ]}))
    as Hinit by done.
  assert (initialised unwritable_world 0 unwritable) as Hinit' by done.
  assert (stores example_world 0 (Some example_content)) as Hv
    by (vm_compute; reflexivity).
  assert (stores unwritable_world 0 (Some example_content)) as Hv'
    by (vm_compute; reflexivity).
  assert (example_content !! getKeyForAuthStatus u2 = None) as Habsent
    by (vm_compute; reflexivity).
  assert (pending_store example_content ≠ 0) as Hpending by (by vm_compute).
  assert (∀ v', Some example_content = Some v' → v' !! getKeyForAuthStatus u2 = None)
    as Habsent'.
  { intros v' [= <-]. exact Habsent. }
  split_and!; [done..| |].
  - destruct (getChatHistory_defaults_to_empty_unless_the_backend_fails
                example_world 0 _ u2 (Some example_content) Hinit Hv Habsent')
      as (Hreturns & _ & _).
    apply Hreturns; [reflexivity|]. right. intros e. discriminate.
  - destruct (getChatHistory_defaults_to_empty_unless_the_backend_fails
                unwritable_world 0 _ u2 (Some example_content) Hinit' Hv' Habsent')
      as (_ & _ & Hfails).
    apply (Hfails (BackendError "write failed")); [reflexivity|reflexivity|exact Hpending].
Defined.

(** The example of a failing read: [getChatHistory] fails with the backend's
    error; no empty history is returned in its place. *)
Example getChatHistory_read_failure_example :
  LocalStorage.getChatHistory u1 unreadable_world
  = (Thrown (BackendError "read failed"), unreadable_world).
Proof. by vm_compute. Qed.

(** C6, as the code has it.  A failing read makes [getChatHistory] fail with
    the backend's error, the state unchanged: there is no handler around its
    [get].  [setChatHistory] returns normally whatever happens: an error
    thrown by the backend's [get] or [update] is caught and logged with
    [console.error]; an [update] whose promise rejects is dropped by the
    adapter, which logs nothing; in both failing writes the slot keeps what it
    held. *)
Theorem read_failures_propagate_write_failures_do_not w b m a v :
  initialised w b m →
  stores w b v →
  (∀ e, get_throws m = Some e → LocalStorage.getChatHistory a w = (Thrown e, w))
  ∧ ∀ history,
      ∃ w',
        LocalStorage.setChatHistory a history w = (Returned tt, w')
        ∧ (∀ e, get_throws m = Some e → w' = add_console e w)
        ∧ (∀ e, get_throws m = None → update_fails m = Some (UpdateThrows e) →
             console w' = (console w ++ [e])%list
             ∧ unhandled_rejections w' = unhandled_rejections w
             ∧ slot w' b KEY_LOCAL_HISTORY = slot w b KEY_LOCAL_HISTORY)
        ∧ (∀ e, get_throws m = None → update_fails m = Some (UpdateRejects e) →
             console w' = console w
             ∧ unhandled_rejections w' = (unhandled_rejections w ++ [e])%list
             ∧ slot w' b KEY_LOCAL_HISTORY = slot w b KEY_LOCAL_HISTORY).
Proof.
  intros Hinit Hv. pose proof Hinit as [Hb Hm]. split.
  - intros e Hget. by eapply getChatHistory_read_failure.
  - intros history.
    destruct (get_throws m) as [e0|] eqn:Hget.
    { exists (add_console e0 w). split_and!.
      - by eapply setChatHistory_read_failure.
      - by intros e [= <-].
      - by intros e ?.
      - by intros e ?. }
    destruct (setChatHistory_reaches_update w b m a history v Hinit Hget Hv)
      as (l & h & ->).
    assert (mementos (set_objects h w) !! b = Some m) as Hm' by done.
    assert (slot w b KEY_LOCAL_HISTORY
            = default VUndefined (contents m !! KEY_LOCAL_HISTORY)) as Hslot0.
    { unfold slot. by rewrite Hm. }
    destruct (update_fails m) as [[e0|e0]|] eqn:Hf.
    + eexists. split_and!.
      * by rewrite (try_catch_Thrown _ _ _ _ _ (update_throws _ _ _ _ _ _ Hm' Hf)).
      * by intros e ?.
      * intros e _ [= <-]. split_and!; [done|done|].
        rewrite Hslot0. unfold slot. simpl. by rewrite lookup_insert_eq.
      * by intros e _ ?.
    + eexists. split_and!.
      * by rewrite (try_catch_Returned _ _ _ _ _ (update_rejects _ _ _ _ _ _ Hm' Hf)).
      * by intros e ?.
      * by intros e _ ?.
      * intros e _ [= <-]. split_and!; [done|done|].
        rewrite Hslot0. unfold slot. simpl. by rewrite lookup_insert_eq.
    + eexists. split_and!.
      * by rewrite (try_catch_Returned _ _ _ _ _ (update_writes _ _ _ _ _ Hm' Hf)).
      * by intros e ?.
      * by intros e _ ?.
      * by intros e _ ?.
Qed.

(** The hypotheses of [read_failures_propagate_write_failures_do_not] on the
    example with a failing read. *)
Lemma read_failures_propagate_write_failures_do_not_witness :
  initialised unreadable_world 0 unreadable
  ∧ stores unreadable_world 0 (Some example_content)
  ∧ LocalStorage.getChatHistory u1 unreadable_world
    = (Thrown (BackendError "read failed"), unreadable_world)
  ∧ LocalStorage.setChatHistory u1 1 unreadable_world
    = (Returned tt, add_console (BackendError "read failed") unreadable_world).
Proof.
  assert (initialised unreadable_world 0 unreadable) as Hinit by done.
  assert (stores unreadable_world 0 (Some example_content)) as Hv
    by (vm_compute; reflexivity).
  destruct (read_failures_propagate_write_failures_do_not
              unreadable_world 0 unreadable u1 (Some example_content) Hinit Hv)
    as [Hread Hwrite].
  split_and!; [done|done|by apply Hread|].
  destruct (Hwrite 1) as (w' & -> & Hlog & _). f_equal. by apply Hlog.
Defined.

End failures.

(** * Initialisation *)

Section initialisation.

Implicit Types (w : World) (b : nat) (m : Memento) (a : AuthStatus).

(** The example of an operation before [setStorage]: [setChatHistory]
    returns normally; the error is only logged. *)
Example setChatHistory_before_setStorage :
  LocalStorage.setChatHistory u1 1 uninitialised_world
  = (Returned tt, add_console NotInitialized uninitialised_world).
Proof. by vm_compute. Qed.

(** C9, as the code has it.  Before [setStorage],
    - [getChatHistory], [deleteChatHistory] and the accessors without a [try]
      ([get], [getConfig], [delete], [getMinionHistory], [setMinionHistory],
      [deleteEndpoint], [getEndpointHistory]) fail with the error
      ['LocalStorage not initialized'] and change nothing;
    - [setChatHistory], [removeChatHistory], [set] and [setConfig], whose
      bodies are inside [try], catch that error, log it with [console.error]
      and return normally; no backend is touched. *)
Theorem operations_before_setStorage w :
  _storage w = None →
  (∀ a, LocalStorage.getChatHistory a w = (Thrown NotInitialized, w))
  ∧ (∀ a chatID, LocalStorage.deleteChatHistory a chatID w = (Thrown NotInitialized, w))
  ∧ (∀ key, LocalStorage.get key w = (Thrown NotInitialized, w))
  ∧ (∀ key, LocalStorage.delete key w = (Thrown NotInitialized, w))
  ∧ (∀ a, LocalStorage.getMinionHistory a w = (Thrown NotInitialized, w))
  ∧ (∀ a s, LocalStorage.setMinionHistory a s w = (Thrown NotInitialized, w))
  ∧ LocalStorage.deleteEndpoint w = (Thrown NotInitialized, w)
  ∧ LocalStorage.getEndpointHistory w = (Thrown NotInitialized, w)
  ∧ LocalStorage.getConfig w = (Thrown NotInitialized, w)
  ∧ (∀ a history,
       LocalStorage.setChatHistory a history w = (Returned tt, add_console NotInitialized w))
  ∧ (∀ key v, LocalStorage.set key v w = (Returned tt, add_console NotInitialized w))
  ∧ (∀ config,
       LocalStorage.setConfig config w = (Returned tt, add_console NotInitialized w))
  ∧ (∀ a, ∃ w',
       LocalStorage.removeChatHistory a w = (Returned tt, w')
       ∧ console w' = (console w ++ [NotInitialized])%list
       ∧ mementos w' = mementos w ∧ _storage w' = None ∧ objects w ⊆ objects w').
Proof.
  intros Hnone. pose proof (storage_uninitialised w Hnone) as Hstorage.
  split_and!.
  - intros a. unfold LocalStorage.getChatHistory.
    by rewrite (bind_Thrown _ _ _ _ _ Hstorage).
  - intros a chatID. unfold LocalStorage.deleteChatHistory, LocalStorage.getChatHistory.
    by rewrite (bind_Thrown _ _ _ _ _ (bind_Thrown _ _ _ _ _ Hstorage)).
  - intros key. unfold LocalStorage.get. by rewrite (bind_Thrown _ _ _ _ _ Hstorage).
  - intros key. unfold LocalStorage.delete. by rewrite (bind_Thrown _ _ _ _ _ Hstorage).
  - intros a. unfold LocalStorage.getMinionHistory.
    by rewrite (bind_Thrown _ _ _ _ _ Hstorage).
  - intros a s. unfold LocalStorage.setMinionHistory.
    by rewrite (bind_Thrown _ _ _ _ _ Hstorage).
  - unfold LocalStorage.deleteEndpoint. by rewrite (bind_Thrown _ _ _ _ _ Hstorage).
  - unfold LocalStorage.getEndpointHistory. by rewrite (bind_Thrown _ _ _ _ _ Hstorage).
  - unfold LocalStorage.getConfig, LocalStorage.get.
    by rewrite (bind_Thrown _ _ _ _ _ Hstorage).
  - intros a history. unfold LocalStorage.setChatHistory.
    by rewrite (try_catch_bind_Thrown _ _ _ _ _ _ Hstorage).
  - intros key v. unfold LocalStorage.set.
    by rewrite (try_catch_bind_Thrown _ _ _ _ _ _ Hstorage).
  - intros config. unfold LocalStorage.setConfig, LocalStorage.set.
    by rewrite (try_catch_bind_Thrown _ _ _ _ _ _ Hstorage).
  - intros a. unfold LocalStorage.removeChatHistory.
    destruct (empty_history_spec (objects w)) as (c & l & Hrun & Hc & Hl & Hne & _).
    rewrite (try_catch_bind_Returned _ _ _ _ _ _ (on_heap_run _ _ _ _ Hrun)).
    eexists. split.
    + unfold try_catch, LocalStorage.setChatHistory.
      by rewrite (try_catch_bind_Thrown _ _ _ _ _ _
                    (storage_uninitialised (set_objects _ w) Hnone)).
    + split_and!; try done. simpl.
      etrans; [apply (insert_subseteq _ c); exact Hc|].
      apply insert_subseteq. by rewrite lookup_insert_ne.
Qed.

(** The hypothesis of [operations_before_setStorage] on the example. *)
Lemma operations_before_setStorage_witness :
  _storage uninitialised_world = None
  ∧ LocalStorage.getChatHistory u1 uninitialised_world
    = (Thrown NotInitialized, uninitialised_world)
  ∧ LocalStorage.setChatHistory u1 1 uninitialised_world
    = (Returned tt, add_console NotInitialized uninitialised_world).
Proof.
  destruct (operations_before_setStorage uninitialised_world eq_refl)
    as (Hget & _ & _ & _ & _ & _ & _ & _ & _ & Hset & _).
  split_and!; [done|apply Hget|apply Hset].
Defined.

(** ** Which backend an operation touches *)



















End initialisation.

(** * Deleting a chat, and what it does to other accounts *)

Section delete.

Implicit Types (w : World) (b : nat) (m : Memento) (a : AuthStatus) (h : heap).

Lemma user_history_at_chat h x u :
  user_history_at h x = Some u →
  match chat u with
  | Some transcripts =>
      ∃ c, h !! x = Some (OUserHistory (Some c)) ∧ h !! c = Some (OChat transcripts)
  | None => h !! x = Some (OUserHistory None)
  end.
Proof.
  unfold user_history_at, chat_at.
  destruct (h !! x) as [[| [c|] |]|]; try done.
  - destruct (h !! c) as [[| |transcripts]|] eqn:Hc; try done.
    intros [= <-]. simpl. eauto.
  - by intros [= <-].
Qed.

(** [deleteChatHistory] on an account that has an entry, with a working
    backend.  [vm] is the content the read inside it leaves in the store: the
    stored content, or its migrated form when a message lacked a model. *)
Lemma deleteChatHistory_spec w b m a chatID v uA :
  initialised w b m → get_throws m = None → update_fails m = None →
  stores w b (Some v) → v !! getKeyForAuthStatus a = Some uA →
  let vm := if decide (pending_store v = 0) then v else migrated_store v in
  ∃ w',
    LocalStorage.deleteChatHistory a chatID w = (Returned tt, w')
    ∧ (∀ transcripts,
         vm !! getKeyForAuthStatus a ≫= chat = Some transcripts →
         stored_account w' b (getKeyForAuthStatus a)
         = Some {| chat := Some (delete chatID transcripts) |})
    ∧ ∀ k, k ≠ getKeyForAuthStatus a →
           unshared_accounts w b (getKeyForAuthStatus a) k →
           stored_account w' b k = vm !! k.
Proof.
  intros Hinit Hget Hf Hv HA vm. pose proof Hinit as [Hb Hm].
  destruct (getChatHistory_present w b m a v Hinit Hget Hv)
    as (l & l' & h' & accounts & accounts' & Hslot & Hholds & Hsub & Hfresh & Hroot
        & Hroot' & Hholds' & Hsep' & _ & Hrun).
  subst vm. case_decide as Hzero.
  - (* nothing to migrate: the entry read is the stored one *)
    destruct (holds_root_Some _ _ _ _ _ _ Hholds Hroot HA) as (la & Hentry & HuA).
    rewrite Hentry in Hrun. simpl in Hrun.
    set (w1 := set_objects h' w) in *.
    assert (initialised w1 b m) as Hinit1 by done.
    assert (objects w1 !! l = Some (OHistory accounts)) as Hroot1
      by by eapply lookup_weaken.
    assert (stores w1 b (Some v)) as Hv1.
    { unfold stores, slot in *. simpl. rewrite Hm in *. rewrite Hslot in *. simpl in *.
      by eapply holds_weaken. }
    pose proof (user_history_at_chat _ _ _ HuA) as Hshape.
    destruct (chat uA) as [transcripts|] eqn:HchatA.
    + destruct Hshape as (lc & Hla & Hlc).
      destruct (deleteChatHistory_after_read_stored w w1 b m a chatID l accounts la lc
                  transcripts Hrun Hinit1 Hget Hf Hslot Hroot1 Hentry)
        as (w' & Hdelete & Hself & Hothers).
      { by eapply lookup_weaken. }
      { by eapply lookup_weaken. }
      exists w'. split_and!; [done| |].
      * intros ts. rewrite HA. simpl. rewrite HchatA. by intros [= <-].
      * intros k Hk Hunshared. destruct (Hothers k Hk) as [_ ->].
        -- pose proof (holds_root _ _ _ _ k Hholds Hroot) as Hk'.
           destruct (accounts !! k) as [x|], (v !! k) as [u|]; simplify_eq/=; [|done].
           by eapply user_history_at_weaken.
        -- intros x Hx Hshared.
           assert (is_Some (objects w !! x)) as [o Ho].
           { pose proof (holds_root _ _ _ _ k Hholds Hroot) as Hk'. rewrite Hx in Hk'.
             destruct (v !! k) as [u|]; simplify_eq/=.
             apply user_history_at_is_Some. eauto. }
           unfold w1 in Hshared. simpl in Hshared.
           rewrite (lookup_weaken _ _ _ _ Ho Hsub) in Hshared. simplify_eq.
           assert (stored_account_ref w b (getKeyForAuthStatus a) = Some la
                   ∧ stored_account_ref w b k = Some x) as [Hra Hrk].
           { unfold stored_account_ref, slot. rewrite Hm, Hslot. simpl.
             by rewrite Hroot. }
           by apply (Hunshared la x lc Hra Hrk Hla).
    + exists (add_console TypeError w1). split_and!.
      * by eapply deleteChatHistory_after_read_no_chat; [|eapply lookup_weaken].
      * intros ts. rewrite HA. simpl. by rewrite HchatA.
      * intros k _ _. by apply (stores_stored_account (add_console TypeError w1)).
  - (* a migrated record was written first: the entry read is the new one *)
    set (w1 := add_debug (pending_store v) (set_objects h' w)) in *.
    set (m2 := called KEY_LOCAL_HISTORY (VRef l')
                 (write_slot KEY_LOCAL_HISTORY (VRef l') (contents m)) m).
    set (w2 := set_memento b m2 w1).
    rewrite (bind_Returned _ _ _ _ _
               (update_writes w1 b m KEY_LOCAL_HISTORY (VRef l') Hm Hf)) in Hrun.
    fold m2 w2 in Hrun.
    assert ((migrated_store v) !! getKeyForAuthStatus a = Some (migrated_user uA)) as HA'.
    { unfold migrated_store. by rewrite lookup_fmap, HA. }
    destruct (holds_root_Some _ _ _ _ _ _ Hholds' Hroot' HA') as (la & Hentry & HuA).
    rewrite Hentry in Hrun. simpl in Hrun.
    assert (initialised w2 b m2) as Hinit2.
    { split; [done|]. subst w2. simpl. by rewrite lookup_insert_eq. }
    assert (contents m2 !! KEY_LOCAL_HISTORY = Some (VRef l')) as Hslot2.
    { subst m2. simpl. by rewrite lookup_insert_eq. }
    destruct (user_history_at_chat _ _ _ HuA) as (lc & Hla & Hlc).
    destruct (deleteChatHistory_after_read_stored w w2 b m2 a chatID l' accounts' la lc
                _ Hrun Hinit2 Hget Hf Hslot2 Hroot' Hentry Hla Hlc)
      as (w' & Hdelete & Hself & Hothers).
    exists w'. split_and!; [done| |].
    + intros ts. rewrite HA'. simpl. by intros [= <-].
    + intros k Hk _. destruct (Hothers k Hk) as [_ ->].
      * pose proof (holds_root _ _ _ _ k Hholds' Hroot') as Hk'.
        by destruct (accounts' !! k) as [x|], (migrated_store v !! k) as [u|];
          simplify_eq/=.
      * intros x Hx. by apply (Hsep' (getKeyForAuthStatus a) k la x lc).
Qed.

(** The example against the second half of C7 as stated: account ["ep-u2"]
    has no chat ["zzz"], yet after [deleteChatHistory(u2, "zzz")] its stored
    history is another one, because the read inside [deleteChatHistory]
    migrated the record. *)
Example deleteChatHistory_of_absent_chat_rewrites_history :
  stored_account two_accounts_world 0 "ep-u2" = Some {| chat := Some {[ "c1" := Some c1 ]} |}
  ∧ ({[ "c1" := Some c1 ]} : ChatHistory) !! "zzz" = None
  ∧ stored_account (LocalStorage.deleteChatHistory u2 "zzz" two_accounts_world).2 0 "ep-u2"
    = Some {| chat := Some {[ "c1" := Some c1_migrated ]} |}
  ∧ c1_migrated ≠ c1.
Proof. split_and!; by vm_compute. Qed.

(** C7, as the code has it.  For an account that has an entry with a chat
    table, on a working backend, [deleteChatHistory] returns and the account's
    stored history is then the migrated form of what it was, without the chat
    [chatID]: its chat identifiers are the former ones except [chatID] (so
    exactly [{Y}] for an account with the chats [{X, Y}] and [chatID = X]).
    For a [chatID] the account does not have, nothing is removed: the stored
    history is the migrated form of what it was, and it is unchanged when none
    of the account's assistant messages lacked a model. *)
Theorem deleteChatHistory_removes_the_chat w b m a chatID v u transcripts :
  initialised w b m → get_throws m = None → update_fails m = None →
  stores w b (Some v) →
  v !! getKeyForAuthStatus a = Some u →
  chat u = Some transcripts →
  ∃ w' transcripts',
    LocalStorage.deleteChatHistory a chatID w = (Returned tt, w')
    ∧ stored_account w' b (getKeyForAuthStatus a) = Some {| chat := Some transcripts' |}
    ∧ transcripts' = delete chatID (migrated_chat transcripts)
    ∧ dom transcripts' = dom transcripts ∖ {[chatID]}
    ∧ (∀ other, dom transcripts = {[chatID; other]} → other ≠ chatID →
                dom transcripts' = {[other]})
    ∧ (chatID ∉ dom transcripts → transcripts' = migrated_chat transcripts)
    ∧ (chatID ∉ dom transcripts → pending_chat transcripts = 0 →
       stored_account w' b (getKeyForAuthStatus a)
       = stored_account w b (getKeyForAuthStatus a)).
Proof.
  intros Hinit Hget Hf Hv HA Hchat.
  destruct (deleteChatHistory_spec w b m a chatID v u Hinit Hget Hf Hv HA)
    as (w' & Hrun & Hself & _).
  assert (stored_account w' b (getKeyForAuthStatus a)
          = Some {| chat := Some (delete chatID (migrated_chat transcripts)) |}) as Hstored.
  { case_decide as Hzero.
    - assert (migrated_chat transcripts = transcripts) as ->.
      { apply pending_chat_0. pose proof (pending_store_0 _ _ _ Hzero HA) as Hu.
        unfold pending_user in Hu. by rewrite Hchat in Hu. }
      apply Hself. by rewrite HA; simpl.
    - apply Hself. unfold migrated_store. rewrite lookup_fmap, HA. simpl.
      by rewrite Hchat. }
  assert (dom (delete chatID (migrated_chat transcripts)) = dom transcripts ∖ {[chatID]})
    as Hdom.
  { unfold migrated_chat. by rewrite dom_delete_L, dom_fmap_L. }
  exists w', (delete chatID (migrated_chat transcripts)).
  split_and!; try done.
  - intros other Hboth Hne. rewrite Hdom, Hboth. apply set_eq. intros x.
    rewrite elem_of_difference, elem_of_union, !elem_of_singleton. split.
    + intros [[->| ->] Hx]; [by destruct Hx|done].
    + intros ->. split; [by right|done].
  - intros Habsent. apply delete_id. unfold migrated_chat. rewrite lookup_fmap.
    apply not_elem_of_dom in Habsent. by rewrite Habsent.
  - intros Habsent Hzero. rewrite Hstored, (stores_stored_account _ _ _ _ Hv), HA.
    rewrite (pending_chat_0 _ Hzero), delete_id; [by destruct u; simplify_eq/=|].
    by apply not_elem_of_dom.
Qed.

(** The hypotheses of [deleteChatHistory_removes_the_chat] on the account
    ["ep-u1"], whose chats are ["x"] and ["y"]: after deleting ["x"] exactly
    ["y"] is left. *)
Lemma deleteChatHistory_removes_the_chat_witness :
  initialised two_accounts_world 0 (working {[ KEY_LOCAL_HISTORY := VRef 0 ]})
  ∧ stores two_accounts_world 0 (Some two_accounts_content)
  ∧ two_accounts_content !! getKeyForAuthStatus u1 = Some {| chat := Some chats_xy |}
  ∧ dom chats_xy = {[ "x"; "y" ]}
  ∧ ∃ w' transcripts',
      LocalStorage.deleteChatHistory u1 "x" two_accounts_world = (Returned tt, w')
      ∧ stored_account w' 0 (getKeyForAuthStatus u1) = Some {| chat := Some transcripts' |}
      ∧ dom transcripts' = {[ "y" ]}.
Proof.
  assert (initialised two_accounts_world 0 (working {[ KEY_LOCAL_HISTORY := VRef 0 ]}))
    as Hinit by done.
  assert (stores two_accounts_world 0 (Some two_accounts_content)) as Hv
    by (vm_compute; reflexivity).
  assert (two_accounts_content !! getKeyForAuthStatus u1 = Some {| chat := Some chats_xy |})
    as HA by (vm_compute; reflexivity).
  assert (dom chats_xy = ({[ "x"; "y" ]} : gset string)) as Hdom
    by (vm_compute; reflexivity).
  split_and!; [done..|].
  destruct (deleteChatHistory_removes_the_chat two_accounts_world 0 _ u1 "x"
              two_accounts_content _ chats_xy Hinit eq_refl eq_refl Hv HA eq_refl)
    as (w' & transcripts' & Hrun & Hstored & _ & _ & Hexactly & _).
  exists w', transcripts'. split_and!; [done|done|].
  by apply Hexactly.
Defined.

(** The example against C8 as stated: deleting a chat of account ["ep-u1"]
    changes the stored history of account ["ep-u2"], whose answer gets the
    model the migration gives it. *)
Example deleteChatHistory_rewrites_other_account :
  getKeyForAuthStatus u1 ≠ getKeyForAuthStatus u2
  ∧ stored_account two_accounts_world 0 (getKeyForAuthStatus u2)
    = Some {| chat := Some {[ "c1" := Some c1 ]} |}
  ∧ stored_account (LocalStorage.deleteChatHistory u1 "x" two_accounts_world).2 0
      (getKeyForAuthStatus u2)
    = Some {| chat := Some {[ "c1" := Some c1_migrated ]} |}
  ∧ c1_migrated ≠ c1.
Proof. split_and!; by vm_compute. Qed.

(** Why [other_accounts_keep_their_history] asks for entries that do not share
    a chat table: [delete userHistory.chat[chatID]] edits the table in place,
    so an entry that refers to the same table loses the chat too. *)
Example deleteChatHistory_through_shared_table :
  stored_account shared_table_world 0 "ep-u2" = Some {| chat := Some chats_xy |}
  ∧ stored_account (LocalStorage.deleteChatHistory u1 "x" shared_table_world).2 0 "ep-u2"
    = Some {| chat := Some (delete "x" chats_xy) |}.
Proof. split; by vm_compute. Qed.

Lemma setChatHistory_keeps_other w b m a history other v uB :
  initialised w b m → get_throws m = None → update_fails m = None →
  stores w b (Some v) →
  other ≠ getKeyForAuthStatus a → v !! other = Some uB →
  ∃ w',
    LocalStorage.setChatHistory a history w = (Returned tt, w')
    ∧ stored_account w' b other = Some uB
    ∧ stored_account_ref w' b other = stored_account_ref w b other.
Proof.
  intros Hinit Hget Hf Hv Hne HB. pose proof Hinit as [Hb Hm].
  destruct (stores_Some_read _ _ _ _ Hm Hv) as (l & Hslot & _ & Hholds).
  destruct (holds_lookup _ _ _ Hholds) as (accounts & Hroot & _).
  destruct (holds_root_Some _ _ _ _ _ _ Hholds Hroot HB) as (x & Hx & Hu).
  eexists. split; [by eapply setChatHistory_writes|].
  destruct (stored_account_after_set w b m (getKeyForAuthStatus a) history l accounts
              (contents m) other Hroot) as [-> ->].
  rewrite lookup_insert_ne by done. rewrite Hx. simpl. split; [done|].
  unfold stored_account_ref, slot. rewrite Hm, Hslot. simpl. by rewrite Hroot.
Qed.

(** C8, as the code has it.  Two distinct account keys, both with an entry in
    a well-formed stored record, on a working backend.
    - [setChatHistory] and [removeChatHistory] for the first account leave the
      second account's stored entry the same object with the same content.
    - [deleteChatHistory] for the first account, when the two entries do not
      share one chat table, leaves the second account's stored history with
      the content it had if no assistant message of the record lacked a model,
      and with the migrated form of that content otherwise: the read inside
      [deleteChatHistory] migrates and rewrites the whole record. *)
Theorem other_accounts_keep_their_history w b m a other v uA uB :
  initialised w b m → get_throws m = None → update_fails m = None →
  stores w b (Some v) →
  other ≠ getKeyForAuthStatus a →
  v !! getKeyForAuthStatus a = Some uA →
  v !! other = Some uB →
  (∀ history,
     ∃ w',
       LocalStorage.setChatHistory a history w = (Returned tt, w')
       ∧ stored_account w' b other = Some uB
       ∧ stored_account_ref w' b other = stored_account_ref w b other)
  ∧ (∃ w',
       LocalStorage.removeChatHistory a w = (Returned tt, w')
       ∧ stored_account w' b other = Some uB
       ∧ stored_account_ref w' b other = stored_account_ref w b other)
  ∧ ∀ chatID,
      unshared_accounts w b (getKeyForAuthStatus a) other →
      ∃ w',
        LocalStorage.deleteChatHistory a chatID w = (Returned tt, w')
        ∧ stored_account w' b other
          = Some (if decide (pending_store v = 0) then uB else migrated_user uB).
Proof.
  intros Hinit Hget Hf Hv Hne HA HB. split_and!.
  - intros history. by eapply setChatHistory_keeps_other.
  - unfold LocalStorage.removeChatHistory.
    destruct (empty_history_spec (objects w)) as (c & l & Hrun & Hc & Hl & Hcl & _).
    rewrite (try_catch_bind_Returned _ _ _ _ _ _ (on_heap_run _ _ _ _ Hrun)).
    set (h1 := <[l := OUserHistory (Some c)]> (<[c := OChat ∅]> (objects w))).
    assert (objects w ⊆ h1) as Hsub.
    { etrans; [apply (insert_subseteq _ c); exact Hc|].
      apply insert_subseteq. by rewrite lookup_insert_ne. }
    assert (stores (set_objects h1 w) b (Some v)) as Hv1.
    { destruct Hinit as [_ Hm]. unfold stores, slot in *. simpl. rewrite Hm in *.
      destruct (contents m !! KEY_LOCAL_HISTORY) as [[| | |l0]|]; try done.
      simpl in *. by eapply holds_weaken. }
    destruct (setChatHistory_keeps_other (set_objects h1 w) b m a l other v uB)
      as (w' & Hset & Hstored & Href); try done.
    exists w'. split_and!; [by apply try_catch_Returned|done|].
    rewrite Href. destruct Hinit as [_ Hm].
    destruct (stores_Some_read _ _ _ _ Hm Hv) as (l0 & Hslot & _ & Hholds).
    destruct (holds_lookup _ _ _ Hholds) as (accounts & Hroot & _).
    unfold stored_account_ref, slot. simpl. rewrite Hm, Hslot. simpl.
    by rewrite Hroot, (lookup_weaken _ _ _ _ Hroot Hsub).
  - intros chatID Hunshared.
    destruct (deleteChatHistory_spec w b m a chatID v uA Hinit Hget Hf Hv HA)
      as (w' & Hrun & _ & Hothers).
    exists w'. split; [done|]. rewrite (Hothers other Hne Hunshared).
    case_decide; [done|]. unfold migrated_store. by rewrite lookup_fmap, HB.
Qed.

(** The hypotheses of [other_accounts_keep_their_history] on the record with
    two accounts: what is done to ["ep-u1"] leaves the entry of ["ep-u2"] in
    place, and [deleteChatHistory], which migrates, leaves it migrated. *)
Lemma other_accounts_keep_their_history_witness :
  initialised two_accounts_world 0 (working {[ KEY_LOCAL_HISTORY := VRef 0 ]})
  ∧ stores two_accounts_world 0 (Some two_accounts_content)
  ∧ getKeyForAuthStatus u2 ≠ getKeyForAuthStatus u1
  ∧ unshared_accounts two_accounts_world 0 (getKeyForAuthStatus u1) (getKeyForAuthStatus u2)
  ∧ pending_store two_accounts_content ≠ 0
  ∧ (∃ w',
       LocalStorage.setChatHistory u1 3 two_accounts_world = (Returned tt, w')
       ∧ stored_account w' 0 (getKeyForAuthStatus u2)
         = Some {| chat := Some {[ "c1" := Some c1 ]} |})
  ∧ (∃ w',
       LocalStorage.removeChatHistory u1 two_accounts_world = (Returned tt, w')
       ∧ stored_account w' 0 (getKeyForAuthStatus u2)
         = Some {| chat := Some {[ "c1" := Some c1 ]} |})
  ∧ ∃ w',
      LocalStorage.deleteChatHistory u1 "x" two_accounts_world = (Returned tt, w')
      ∧ stored_account w' 0 (getKeyForAuthStatus u2)
        = Some (migrated_user {| chat := Some {[ "c1" := Some c1 ]} |}).
Proof.
  assert (initialised two_accounts_world 0 (working {[ KEY_LOCAL_HISTORY := VRef 0 ]}))
    as Hinit by done.
  assert (stores two_accounts_world 0 (Some two_accounts_content)) as Hv
    by (vm_compute; reflexivity).
  assert (getKeyForAuthStatus u2 ≠ getKeyForAuthStatus u1) as Hne by (by vm_compute).
  assert (unshared_accounts two_accounts_world 0
            (getKeyForAuthStatus u1) (getKeyForAuthStatus u2)) as Hunshared.
  { intros l1 l2 c H1 H2 H3 H4. vm_compute in H1, H2. simplify_eq.
    vm_compute in H3, H4. by simplify_eq. }
  assert (pending_store two_accounts_content ≠ 0) as Hpending by (by vm_compute).
  assert (two_accounts_content !! getKeyForAuthStatus u1 = Some {| chat := Some chats_xy |})
    as HA by (vm_compute; reflexivity).
  assert (two_accounts_content !! getKeyForAuthStatus u2
          = Some {| chat := Some {[ "c1" := Some c1 ]} |})
    as HB by (vm_compute; reflexivity).
  destruct (other_accounts_keep_their_history two_accounts_world 0 _ u1
              (getKeyForAuthStatus u2) two_accounts_content _ _
              Hinit eq_refl eq_refl Hv Hne HA HB) as (Hset & Hremove & Hdelete).
  split_and!; [done..| | |].
  - destruct (Hset 3) as (w' & Hrun & Hstored & _). by exists w'.
  - destruct Hremove as (w' & Hrun & Hstored & _). by exists w'.
  - destruct (Hdelete "x" Hunshared) as (w' & Hrun & Hstored). exists w'.
    split; [done|]. by rewrite Hstored, decide_False.
Defined.

End delete.

(** * Plain slots: [get], [set], [delete] and the minion history *)

Section plain_slots.

Implicit Types (w : World) (b : nat) (m : Memento) (a : AuthStatus).

Lemma get_run w b m key :
  initialised w b m → get_throws m = None →
  LocalStorage.get key w = (Returned (read_slot key VNull (contents m)), w).
Proof.
  intros [Hb Hm] Hget. unfold LocalStorage.get.
  rewrite (bind_Returned _ _ _ _ _ (storage_initialised _ _ Hb)).
  by apply get_reads.
Qed.

Lemma set_run w b m key v :
  initialised w b m → update_fails m = None →
  LocalStorage.set key v w
  = (Returned tt, set_memento b (called key v (write_slot key v (contents m)) m) w).
Proof.
  intros [Hb Hm] Hf. unfold LocalStorage.set.
  rewrite (try_catch_bind_Returned _ _ _ _ _ _ (storage_initialised _ _ Hb)).
  apply try_catch_Returned. by apply update_writes.
Qed.

Lemma delete_run w b m key :
  initialised w b m → update_fails m = None →
  LocalStorage.delete key w
  = (Returned tt,
     set_memento b (called key VUndefined (base.delete key (contents m)) m) w).
Proof.
  intros [Hb Hm] Hf. unfold LocalStorage.delete.
  rewrite (bind_Returned _ _ _ _ _ (storage_initialised _ _ Hb)).
  by rewrite (update_writes _ _ _ _ _ Hm Hf).
Qed.

Lemma initialised_after_update w b m m' :
  initialised w b m → initialised (set_memento b m' w) b m'.
Proof. intros [Hb Hm]. split; [done|]. simpl. by rewrite lookup_insert_eq. Qed.

Lemma read_slot_write_slot key key' v d slots :
  read_slot key' d (write_slot key v slots)
  = if decide (key' = key)
    then match v with VUndefined => d | _ => v end
    else read_slot key' d slots.
Proof.
  unfold read_slot, write_slot. case_decide as Hk.
  - subst key'. destruct v; by rewrite ?lookup_delete_eq, ?lookup_insert_eq.
  - destruct v; by rewrite ?lookup_delete_ne, ?lookup_insert_ne.
Qed.

(** X1: what is [set] can be read back.  On a working backend, after
    [set(key, v)] a [get(key)] returns [v], or [null] when [v] is [undefined]
    (writing [undefined] clears the slot); after [delete(key)] it returns
    [null]; and a [get] of any other key returns what it returned before. *)
Theorem set_get_delete_round_trip w b m key v :
  initialised w b m → get_throws m = None → update_fails m = None →
  ∃ w1 w2,
    LocalStorage.set key v w = (Returned tt, w1)
    ∧ LocalStorage.get key w1
      = (Returned (match v with VUndefined => VNull | _ => v end), w1)
    ∧ LocalStorage.delete key w1 = (Returned tt, w2)
    ∧ LocalStorage.get key w2 = (Returned VNull, w2)
    ∧ ∀ key', key' ≠ key →
        (LocalStorage.get key' w1).1 = (LocalStorage.get key' w).1
        ∧ (LocalStorage.get key' w2).1 = (LocalStorage.get key' w).1.
Proof.
  intros Hinit Hget Hf.
  set (m1 := called key v (write_slot key v (contents m)) m).
  set (w1 := set_memento b m1 w).
  set (m2 := called key VUndefined (base.delete key (contents m1)) m1).
  set (w2 := set_memento b m2 w1).
  assert (initialised w1 b m1) as Hinit1 by by apply (initialised_after_update w b m).
  assert (initialised w2 b m2) as Hinit2 by by apply (initialised_after_update w1 b m1).
  exists w1, w2. split_and!.
  - by apply set_run.
  - rewrite (get_run w1 b m1 key Hinit1 Hget). simpl.
    rewrite read_slot_write_slot, decide_True by done. by destruct v.
  - by apply (delete_run w1 b m1).
  - rewrite (get_run w2 b m2 key Hinit2 Hget). simpl.
    unfold read_slot. by rewrite lookup_delete_eq.
  - intros key' Hne.
    rewrite (get_run w1 b m1 key' Hinit1 Hget), (get_run w2 b m2 key' Hinit2 Hget),
      (get_run w b m key' Hinit Hget). simpl.
    rewrite read_slot_write_slot, decide_False by done. split; [done|].
    unfold read_slot at 1. rewrite lookup_delete_ne by done.
    fold (read_slot key' VNull (write_slot key v (contents m))).
    by rewrite read_slot_write_slot, decide_False.
Qed.

Lemma set_get_delete_round_trip_witness :
  initialised example_world 0 (working {[ KEY_LOCAL_HISTORY := VRef 0 ]})
  ∧ ∃ w1 w2,
      LocalStorage.set KEY_CONFIG (VString "config") example_world = (Returned tt, w1)
      ∧ LocalStorage.get KEY_CONFIG w1 = (Returned (VString "config"), w1)
      ∧ LocalStorage.delete KEY_CONFIG w1 = (Returned tt, w2)
      ∧ LocalStorage.get KEY_CONFIG w2 = (Returned VNull, w2)
      ∧ (LocalStorage.get KEY_LOCAL_HISTORY w2).1
        = (LocalStorage.get KEY_LOCAL_HISTORY example_world).1.
Proof.
  assert (initialised example_world 0 (working {[ KEY_LOCAL_HISTORY := VRef 0 ]}))
    as Hinit by done.
  split; [done|].
  destruct (set_get_delete_round_trip example_world 0 _ KEY_CONFIG (VString "config")
              Hinit eq_refl eq_refl)
    as (w1 & w2 & Hset & Hget1 & Hdelete & Hget2 & Hothers).
  exists w1, w2. split_and!; [exact Hset|exact Hget1|exact Hdelete|exact Hget2|].
  by apply (Hothers KEY_LOCAL_HISTORY).
Defined.

End plain_slots.

Section minion_history.

Implicit Types (w : World) (b : nat) (m : Memento) (a : AuthStatus).

(** X2: the minion history is one slot for all accounts.  On a working
    backend, what [setMinionHistory] stores for one account is what
    [getMinionHistory] returns for any account, the same or another: the
    [authStatus] argument of both is unused. *)
Theorem minion_history_is_shared_by_all_accounts w b m a a' s :
  initialised w b m → get_throws m = None → update_fails m = None →
  ∃ w1,
    LocalStorage.setMinionHistory a s w = (Returned tt, w1)
    ∧ LocalStorage.getMinionHistory a' w1 = (Returned (VString s), w1).
Proof.
  intros [Hb Hm] Hget Hf.
  set (m1 := called KEY_LOCAL_MINION_HISTORY (VString s)
               (write_slot KEY_LOCAL_MINION_HISTORY (VString s) (contents m)) m).
  exists (set_memento b m1 w). split.
  - unfold LocalStorage.setMinionHistory.
    rewrite (bind_Returned _ _ _ _ _ (storage_initialised _ _ Hb)).
    by apply update_writes.
  - unfold LocalStorage.getMinionHistory.
    rewrite (bind_Returned _ _ _ _ _ (storage_initialised (set_memento b m1 w) b Hb)).
    assert (mementos (set_memento b m1 w) !! b = Some m1) as Hm1.
    { simpl. by rewrite lookup_insert_eq. }
    rewrite (get_reads _ b m1 _ _ Hm1 Hget).
    simpl. unfold read_slot. by rewrite lookup_insert_eq.
Qed.

Lemma minion_history_is_shared_by_all_accounts_witness :
  initialised example_world 0 (working {[ KEY_LOCAL_HISTORY := VRef 0 ]})
  ∧ getKeyForAuthStatus u1 ≠ getKeyForAuthStatus u2
  ∧ ∃ w1,
      LocalStorage.setMinionHistory u1 "history of u1" example_world = (Returned tt, w1)
      ∧ LocalStorage.getMinionHistory u2 w1 = (Returned (VString "history of u1"), w1).
Proof.
  assert (initialised example_world 0 (working {[ KEY_LOCAL_HISTORY := VRef 0 ]}))
    as Hinit by done.
  split_and!; [done|done|].
  apply (minion_history_is_shared_by_all_accounts example_world 0 _ u1 u2 "history of u1"
           Hinit eq_refl eq_refl).
Defined.

End minion_history.

(** * The chat-history operations composed *)

Section history_composed.

Implicit Types (w : World) (b : nat) (m : Memento) (a : AuthStatus) (h : heap).

Lemma stores_weaken w b v h' :
  objects w ⊆ h' → stores w b (Some v) → stores (set_objects h' w) b (Some v).
Proof.
  unfold stores, slot. simpl. intros Hsub.
  destruct (mementos w !! b) as [m|]; simpl; [|done].
  destruct (default VUndefined (contents m !! KEY_LOCAL_HISTORY)); try done.
  by apply holds_weaken.
Qed.

Lemma stores_after_update w b m l v :
  holds (objects w) l v →
  stores (set_memento b (called KEY_LOCAL_HISTORY (VRef l)
                           (write_slot KEY_LOCAL_HISTORY (VRef l) (contents m)) m) w)
    b (Some v).
Proof.
  intros Hv. unfold stores, slot. simpl. rewrite lookup_insert_eq. simpl.
  by rewrite lookup_insert_eq.
Qed.

Lemma stored_account_ref_lookup w b m l accounts k :
  mementos w !! b = Some m → contents m !! KEY_LOCAL_HISTORY = Some (VRef l) →
  objects w !! l = Some (OHistory accounts) →
  stored_account_ref w b k = accounts !! k.
Proof.
  intros Hm Hslot Hroot. unfold stored_account_ref, slot.
  rewrite Hm, Hslot. simpl. by rewrite Hroot.
Qed.

(** A new record object changes no account's content. *)
Lemma user_history_at_alloc_root h l accounts x :
  h !! l = None →
  user_history_at (<[l := OHistory accounts]> h) x = user_history_at h x.
Proof.
  intros Hl. unfold user_history_at, chat_at.
  destruct (decide (x = l)) as [->|Hx].
  - by rewrite lookup_insert_eq, Hl.
  - rewrite lookup_insert_ne by done.
    destruct (h !! x) as [[| [c|] |]|]; try done.
    destruct (decide (c = l)) as [->|Hc].
    + by rewrite lookup_insert_eq, Hl.
    + by rewrite lookup_insert_ne.
Qed.

(** [getChatHistory] on a working backend that holds a record.  [vm] is the
    content the call leaves in the store. *)
Lemma getChatHistory_spec w b m a v :
  initialised w b m → get_throws m = None → update_fails m = None →
  stores w b (Some v) →
  let vm := if decide (pending_store v = 0) then v else migrated_store v in
  ∃ la w' m',
    LocalStorage.getChatHistory a w = (Returned la, w')
    ∧ initialised w' b m' ∧ get_throws m' = None ∧ update_fails m' = None
    ∧ stores w' b (Some vm)
    ∧ objects w ⊆ objects w'
    ∧ user_history_at (objects w') la
      = Some (default {| chat := Some ∅ |} (vm !! getKeyForAuthStatus a))
    ∧ stored_account_ref w' b (getKeyForAuthStatus a)
      = (λ _, la) <$> v !! getKeyForAuthStatus a
    ∧ (v !! getKeyForAuthStatus a = None → objects w !! la = None)
    ∧ (pending_store v = 0 → m' = m)
    ∧ console w' = console w.
Proof.
  intros Hinit Hget Hf Hv vm. pose proof Hinit as [Hb Hm].
  destruct (getChatHistory_present w b m a v Hinit Hget Hv)
    as (l & l' & h' & accounts & accounts' & Hslot & Hholds & Hsub & Hfresh & Hroot
        & Hroot' & Hholds' & Hsep' & _ & Hrun).
  subst vm. case_decide as Hzero.
  - set (w1 := set_objects h' w) in *.
    assert (stores w1 b (Some v)) as Hv1 by by apply stores_weaken.
    assert (objects w1 !! l = Some (OHistory accounts)) as Hroot1
      by by eapply lookup_weaken.
    destruct (v !! getKeyForAuthStatus a) as [u|] eqn:HA.
    + destruct (holds_root_Some _ _ _ _ _ _ Hholds Hroot HA) as (la & Hentry & Hu).
      rewrite Hentry in Hrun. simpl in Hrun.
      exists la, w1, m. split_and!; try done.
      * by eapply user_history_at_weaken.
      * rewrite (stored_account_ref_lookup w1 b m l accounts) by done. by rewrite Hentry.
    + pose proof (holds_root_None _ _ _ _ _ Hholds Hroot HA) as Hentry.
      rewrite Hentry in Hrun.
      destruct (entry_or_default_spec None w1)
        as (la & w' & Hrun' & Hsub' & Hw' & Hempty & Hnew).
      rewrite Hrun' in Hrun.
      exists la, w', m. split_and!; try done.
      * by rewrite Hw'.
      * rewrite Hw'. by apply stores_weaken.
      * by etrans.
      * rewrite (stored_account_ref_lookup w' b m l accounts).
        -- by rewrite Hentry.
        -- by rewrite Hw'.
        -- done.
        -- by eapply lookup_weaken.
      * intros _. by eapply lookup_weaken_heap_None.
      * by rewrite Hw'.
  - set (w1 := add_debug (pending_store v) (set_objects h' w)) in *.
    set (m2 := called KEY_LOCAL_HISTORY (VRef l')
                 (write_slot KEY_LOCAL_HISTORY (VRef l') (contents m)) m).
    set (w2 := set_memento b m2 w1).
    rewrite (bind_Returned _ _ _ _ _
               (update_writes w1 b m KEY_LOCAL_HISTORY (VRef l') Hm Hf)) in Hrun.
    fold m2 w2 in Hrun.
    assert (initialised w2 b m2) as Hinit2.
    { split; [done|]. subst w2. simpl. by rewrite lookup_insert_eq. }
    assert (contents m2 !! KEY_LOCAL_HISTORY = Some (VRef l')) as Hslot2.
    { subst m2. simpl. by rewrite lookup_insert_eq. }
    assert (stores w2 b (Some (migrated_store v))) as Hv2.
    { by apply (stores_after_update w1). }
    assert (migrated_store v !! getKeyForAuthStatus a
            = migrated_user <$> v !! getKeyForAuthStatus a) as HA'.
    { unfold migrated_store. by rewrite lookup_fmap. }
    destruct (v !! getKeyForAuthStatus a) as [u|] eqn:HA.
    + destruct (holds_root_Some _ _ _ _ _ _ Hholds' Hroot' HA') as (la & Hentry & Hu).
      rewrite Hentry in Hrun. simpl in Hrun.
      exists la, w2, m2. split_and!; try done.
      * by rewrite HA'.
      * rewrite (stored_account_ref_lookup w2 b m2 l' accounts'); try done.
        by destruct Hinit2.
    + pose proof (holds_root_None _ _ _ _ _ Hholds' Hroot' HA') as Hentry.
      rewrite Hentry in Hrun.
      destruct (entry_or_default_spec None w2)
        as (la & w' & Hrun' & Hsub' & Hw' & Hempty & Hnew).
      rewrite Hrun' in Hrun.
      exists la, w', m2. split_and!; try done.
      * by rewrite Hw'.
      * rewrite Hw'. by apply stores_weaken.
      * by etrans.
      * by rewrite HA'.
      * rewrite (stored_account_ref_lookup w' b m2 l' accounts').
        -- by rewrite Hentry.
        -- rewrite Hw'. by destruct Hinit2.
        -- done.
        -- by eapply lookup_weaken.
      * intros _. eapply lookup_weaken_heap_None; [exact Hsub|]. done.
      * by rewrite Hw'.
Qed.

(** [setChatHistory] on a working backend, given an account history of
    content [u]: the record then holds [u] for the account, through the very
    object that was passed. *)
Lemma setChatHistory_spec w b m a history v u :
  initialised w b m → get_throws m = None → update_fails m = None →
  stores w b v →
  user_history_at (objects w) history = Some u →
  ∃ w' m',
    LocalStorage.setChatHistory a history w = (Returned tt, w')
    ∧ initialised w' b m' ∧ get_throws m' = None ∧ update_fails m' = None
    ∧ stores w' b (Some (<[getKeyForAuthStatus a := u]> (default ∅ v)))
    ∧ stored_account_ref w' b (getKeyForAuthStatus a) = Some history
    ∧ (∀ x, user_history_at (objects w') x = user_history_at (objects w) x)
    ∧ console w' = console w.
Proof.
  intros Hinit Hget Hf Hv Hu. pose proof Hinit as [Hb Hm].
  destruct v as [v|]; simpl.
  - destruct (stores_Some_read _ _ _ _ Hm Hv) as (l & Hslot & _ & Hholds).
    destruct (holds_lookup _ _ _ Hholds) as (accounts & Hroot & Hk).
    rewrite (setChatHistory_writes w b m a history l accounts Hinit Hget Hf Hslot Hroot).
    eexists _, (called KEY_LOCAL_HISTORY (VRef l)
                  (write_slot KEY_LOCAL_HISTORY (VRef l) (contents m)) m).
    split; [done|].
    assert (∀ x, user_history_at
                   (<[l := OHistory (<[getKeyForAuthStatus a := history]> accounts)]>
                      (objects w)) x
                 = user_history_at (objects w) x) as Hsame.
    { intros x. by eapply user_history_at_set_root. }
    split_and!; try done.
    + split; [done|]. simpl. apply lookup_insert_eq.
    + apply (stores_after_update (set_objects _ w)). simpl.
      eapply holds_intro; [by apply lookup_insert_eq|]. intros k.
      destruct (decide (k = getKeyForAuthStatus a)) as [->|Hne].
      * rewrite !lookup_insert_eq. simpl. by rewrite Hsame, Hu.
      * rewrite !lookup_insert_ne by done. rewrite <- Hk.
        destruct (accounts !! k); simpl; [|done]. by rewrite Hsame.
    + unfold stored_account_ref, slot. simpl. rewrite lookup_insert_eq. simpl.
      rewrite !lookup_insert_eq. simpl. by rewrite !lookup_insert_eq.
  - destruct (setChatHistory_absent w b m a history Hinit Hget Hv) as (l & Hl & Hrun).
    rewrite Hrun.
    set (w1 := set_objects (<[l := OHistory {[getKeyForAuthStatus a := history]}]>
                              (objects w)) w).
    rewrite (try_catch_Returned _ _ _ _ _
               (update_writes w1 b m KEY_LOCAL_HISTORY (VRef l) Hm Hf)).
    eexists _, (called KEY_LOCAL_HISTORY (VRef l)
                  (write_slot KEY_LOCAL_HISTORY (VRef l) (contents m)) m).
    split; [done|].
    assert (∀ x, user_history_at (objects w1) x = user_history_at (objects w) x) as Hsame.
    { intros x. by apply user_history_at_alloc_root. }
    split_and!; try done.
    + split; [done|]. simpl. apply lookup_insert_eq.
    + apply (stores_after_update w1).
      eapply holds_intro; [by apply lookup_insert_eq|]. intros k.
      destruct (decide (k = getKeyForAuthStatus a)) as [->|Hne].
      * rewrite lookup_insert_eq, lookup_singleton_eq. simpl. by rewrite Hsame, Hu.
      * rewrite lookup_insert_ne, lookup_singleton_ne by done. by rewrite lookup_empty.
    + unfold stored_account_ref, slot. simpl. rewrite lookup_insert_eq. simpl.
      rewrite !lookup_insert_eq. simpl. rewrite !lookup_insert_eq.
      by rewrite lookup_singleton_eq.
Qed.

End history_composed.

(** * Reading back what was written *)

Section read_back.

Implicit Types (w : World) (b : nat) (m : Memento) (a : AuthStatus) (h : heap).

Lemma stored_account_ref_weaken w w' b m k x :
  mementos w !! b = Some m → mementos w' !! b = Some m → objects w ⊆ objects w' →
  stored_account_ref w b k = Some x → stored_account_ref w' b k = Some x.
Proof.
  intros Hm Hm' Hsub. unfold stored_account_ref, slot. rewrite Hm, Hm'.
  destruct (default VUndefined (contents m !! KEY_LOCAL_HISTORY)) as [| | |l]; try done.
  destruct (objects w !! l) as [o|] eqn:Hl; [|done].
  by rewrite (lookup_weaken _ _ _ _ Hl Hsub).
Qed.

Lemma stores_weaken_opt w b v h' :
  objects w ⊆ h' → stores w b v → stores (set_objects h' w) b v.
Proof. destruct v as [v|]; [by apply stores_weaken|done]. Qed.

Lemma migrated_user_empty : migrated_user {| chat := Some ∅ |} = {| chat := Some ∅ |}.
Proof. unfold migrated_user, migrated_chat. simpl. by rewrite fmap_empty. Qed.

(** X3: an account reads back the history it stored.  On a working backend
    that holds a well-formed record or none, after [setChatHistory] with an
    account history of content [u], [getChatHistory] for the same account
    returns a history of content [u], or of its migrated form when an
    assistant message somewhere in the record lacked a model; that content is
    what the store then holds for the account; and when no message lacked a
    model, the object returned is the very object that was stored. *)
Theorem setChatHistory_then_getChatHistory w b m a history v u :
  initialised w b m → get_throws m = None → update_fails m = None →
  stores w b v →
  user_history_at (objects w) history = Some u →
  ∃ w1 la w2,
    LocalStorage.setChatHistory a history w = (Returned tt, w1)
    ∧ LocalStorage.getChatHistory a w1 = (Returned la, w2)
    ∧ user_history_at (objects w2) la
      = Some (if decide (pending_store (<[getKeyForAuthStatus a := u]> (default ∅ v)) = 0)
              then u else migrated_user u)
    ∧ stored_account w2 b (getKeyForAuthStatus a) = user_history_at (objects w2) la
    ∧ (pending_store (<[getKeyForAuthStatus a := u]> (default ∅ v)) = 0 → la = history).
Proof.
  intros Hinit Hget Hf Hv Hu.
  destruct (setChatHistory_spec w b m a history v u Hinit Hget Hf Hv Hu)
    as (w1 & m1 & Hset & Hinit1 & Hget1 & Hf1 & Hv1 & Href1 & Hsame1 & _).
  destruct (getChatHistory_spec w1 b m1 a _ Hinit1 Hget1 Hf1 Hv1)
    as (la & w2 & m2 & Hrun & Hinit2 & _ & _ & Hv2 & Hsub & Hla & Href2 & _ & Hm2 & _).
  assert (user_history_at (objects w2) la
          = Some (if decide (pending_store (<[getKeyForAuthStatus a := u]> (default ∅ v)) = 0)
                  then u else migrated_user u)) as Hcontent.
  { rewrite Hla. case_decide; [by rewrite lookup_insert_eq|].
    unfold migrated_store. by rewrite lookup_fmap, lookup_insert_eq. }
  exists w1, la, w2. split_and!; [done|done|done| |].
  - rewrite (stores_stored_account _ _ _ _ Hv2), Hcontent.
    case_decide; [by rewrite lookup_insert_eq|].
    unfold migrated_store. by rewrite lookup_fmap, lookup_insert_eq.
  - intros Hzero. rewrite lookup_insert_eq in Href2. simpl in Href2.
    rewrite (Hm2 Hzero) in Hinit2.
    destruct Hinit1 as [_ Hm1], Hinit2 as [_ Hm2'].
    pose proof (stored_account_ref_weaken w1 w2 b m1 _ _ Hm1 Hm2' Hsub Href1) as Href.
    congruence.
Qed.

Lemma setChatHistory_then_getChatHistory_witness :
  initialised example_world 0 (working {[ KEY_LOCAL_HISTORY := VRef 0 ]})
  ∧ stores example_world 0 (Some example_content)
  ∧ user_history_at (objects example_world) 1 = Some {| chat := Some {[ "c1" := Some c1 ]} |}
  ∧ ∃ w1 la w2,
      LocalStorage.setChatHistory u2 1 example_world = (Returned tt, w1)
      ∧ LocalStorage.getChatHistory u2 w1 = (Returned la, w2)
      ∧ user_history_at (objects w2) la
        = Some {| chat := Some {[ "c1" := Some c1_migrated ]} |}.
Proof.
  assert (initialised example_world 0 (working {[ KEY_LOCAL_HISTORY := VRef 0 ]}))
    as Hinit by done.
  assert (stores example_world 0 (Some example_content)) as Hv
    by (vm_compute; reflexivity).
  assert (user_history_at (objects example_world) 1
          = Some {| chat := Some {[ "c1" := Some c1 ]} |}) as Hu
    by (vm_compute; reflexivity).
  split_and!; [done..|].
  destruct (setChatHistory_then_getChatHistory example_world 0 _ u2 1
              (Some example_content) _ Hinit eq_refl eq_refl Hv Hu)
    as (w1 & la & w2 & Hset & Hrun & Hcontent & _).
  exists w1, la, w2. split_and!; [done|done|].
  rewrite Hcontent. by vm_compute.
Defined.

(** X4: a removed history reads back empty.  On a working backend that holds
    a well-formed record or none, after [removeChatHistory] the store holds
    the empty history [{ chat: {} }] for the account, [getChatHistory] for
    that account returns an empty history, and nothing was reported on the
    console. *)
Theorem removeChatHistory_then_getChatHistory w b m a v :
  initialised w b m → get_throws m = None → update_fails m = None →
  stores w b v →
  ∃ w1 la w2,
    LocalStorage.removeChatHistory a w = (Returned tt, w1)
    ∧ stored_account w1 b (getKeyForAuthStatus a) = Some {| chat := Some ∅ |}
    ∧ LocalStorage.getChatHistory a w1 = (Returned la, w2)
    ∧ user_history_at (objects w2) la = Some {| chat := Some ∅ |}
    ∧ console w2 = console w.
Proof.
  intros Hinit Hget Hf Hv.
  destruct (empty_history_spec (objects w)) as (c & l & Hempty & Hc & Hl & Hcl & Hu).
  set (h0 := <[l := OUserHistory (Some c)]> (<[c := OChat ∅]> (objects w))) in *.
  set (w0 := set_objects h0 w).
  assert (objects w ⊆ h0) as Hsub.
  { etrans; [apply (insert_subseteq _ c); exact Hc|].
    apply insert_subseteq. by rewrite lookup_insert_ne. }
  assert (stores w0 b v) as Hv0 by by apply stores_weaken_opt.
  destruct (setChatHistory_spec w0 b m a l v _ Hinit Hget Hf Hv0 Hu)
    as (w1 & m1 & Hset & Hinit1 & Hget1 & Hf1 & Hv1 & _ & _ & Hconsole1).
  destruct (getChatHistory_spec w1 b m1 a _ Hinit1 Hget1 Hf1 Hv1)
    as (la & w2 & m2 & Hrun & _ & _ & _ & _ & _ & Hla & _ & _ & _ & Hconsole2).
  exists w1, la, w2. split_and!; [| |done| |].
  - unfold LocalStorage.removeChatHistory.
    rewrite (try_catch_bind_Returned _ _ _ _ _ _ (on_heap_run _ _ _ _ Hempty)).
    by apply try_catch_Returned.
  - rewrite (stores_stored_account _ _ _ _ Hv1). by rewrite lookup_insert_eq.
  - rewrite Hla. case_decide; [by rewrite lookup_insert_eq|].
    unfold migrated_store. rewrite lookup_fmap, lookup_insert_eq. simpl.
    by rewrite migrated_user_empty.
  - by rewrite Hconsole2, Hconsole1.
Qed.

Lemma removeChatHistory_then_getChatHistory_witness :
  initialised two_accounts_world 0 (working {[ KEY_LOCAL_HISTORY := VRef 0 ]})
  ∧ stores two_accounts_world 0 (Some two_accounts_content)
  ∧ stored_account two_accounts_world 0 (getKeyForAuthStatus u1)
    = Some {| chat := Some chats_xy |}
  ∧ ∃ w1 la w2,
      LocalStorage.removeChatHistory u1 two_accounts_world = (Returned tt, w1)
      ∧ stored_account w1 0 (getKeyForAuthStatus u1) = Some {| chat := Some ∅ |}
      ∧ LocalStorage.getChatHistory u1 w1 = (Returned la, w2)
      ∧ user_history_at (objects w2) la = Some {| chat := Some ∅ |}.
Proof.
  assert (initialised two_accounts_world 0 (working {[ KEY_LOCAL_HISTORY := VRef 0 ]}))
    as Hinit by done.
  assert (stores two_accounts_world 0 (Some two_accounts_content)) as Hv
    by (vm_compute; reflexivity).
  split_and!; [done|done|by vm_compute|].
  destruct (removeChatHistory_then_getChatHistory two_accounts_world 0 _ u1
              (Some two_accounts_content) Hinit eq_refl eq_refl Hv)
    as (w1 & la & w2 & Hremove & Hstored & Hrun & Hcontent & _).
  by exists w1, la, w2.
Defined.

End read_back.

(** * The migration inside [getChatHistory] *)

Section migration_in_reads.

Implicit Types (w : World) (b : nat) (m : Memento) (a : AuthStatus) (h : heap).
Implicit Types (v : AccountKeyedChatHistory).

Lemma sum_list_with_all_0 {A} (f : A → nat) (xs : list A) :
  (∀ x, x ∈ xs → f x = 0) → sum_list_with f xs = 0.
Proof.
  induction xs as [|x xs IH]; intros Hall; simpl; [done|].
  rewrite (Hall x) by left. rewrite IH; [done|]. intros y Hy. apply Hall. by right.
Qed.

(** A message given the model of a fallback that is not the empty string no
    longer lacks one. *)
Lemma migrated_message_has_model fallback message :
  fallback ≠ Some "" → lacks_model (migrated_message fallback message) = false.
Proof.
  intros Hfallback. unfold migrated_message.
  destruct (lacks_model message) eqn:Hlacks; [|done].
  unfold lacks_model, with_model. simpl.
  destruct fallback as [[|c s]|]; simpl; done.
Qed.

Lemma pending_migrated_transcript t :
  chatModel t ≠ Some "" → pending_transcript (Some (migrated_transcript t)) = 0.
Proof.
  intros Hmodel. simpl. apply sum_list_with_all_0.
  intros i (i0 & -> & _)%list_elem_of_fmap.
  unfold pending_interaction, migrated_interaction. simpl.
  destruct (assistantMessage i0) as [message|]; simpl; [|done].
  by rewrite migrated_message_has_model.
Qed.

(** Once migrated, a record without empty legacy models has no message left
    that lacks a model. *)
Lemma pending_migrated_store v :
  no_empty_chatModel v → pending_store (migrated_store v) = 0.
Proof.
  intros Hv. apply sum_list_with_all_0.
  intros [k u'] Hk%elem_of_map_to_list. simpl.
  unfold migrated_store in Hk. rewrite lookup_fmap in Hk.
  destruct (v !! k) as [u|] eqn:Hu; simplify_eq/=.
  unfold pending_user, migrated_user. simpl.
  destruct (chat u) as [transcripts|] eqn:Hchat; simpl.
  - apply sum_list_with_all_0.
    intros [id t'] Hid%elem_of_map_to_list. simpl.
    unfold migrated_chat in Hid. rewrite lookup_fmap in Hid.
    destruct (transcripts !! id) as [[t|]|] eqn:Ht; simplify_eq/=; [|done].
    apply (pending_migrated_transcript t), (Hv k id).
    unfold transcript_at. rewrite Hu. simpl. rewrite Hchat. simpl. by rewrite Ht.
  - unfold pending_chat. by rewrite map_to_list_empty.
Qed.

Lemma transcript_at_Some v k id t :
  transcript_at v k id = Some t →
  ∃ u transcripts,
    v !! k = Some u ∧ chat u = Some transcripts ∧ transcripts !! id = Some (Some t).
Proof.
  unfold transcript_at. destruct (v !! k) as [u|] eqn:Hu; simpl; [|done].
  destruct (chat u) as [transcripts|] eqn:Hchat; simpl; [|done].
  destruct (transcripts !! id) as [[t0|]|] eqn:Ht; simpl; try done.
  intros [= <-]. by exists u, transcripts.
Qed.

(** X5: reading twice writes at most once.  On a working backend whose record
    has no transcript with the empty string as legacy [chatModel], a second
    [getChatHistory] leaves the backend exactly as the first one left it (no
    further [update]), returns the same content as the first, and, for an
    account that has an entry, the same object. *)
Theorem second_getChatHistory_writes_nothing w b m a v :
  initialised w b m → get_throws m = None → update_fails m = None →
  stores w b (Some v) →
  no_empty_chatModel v →
  ∃ l1 w1 m1 l2 w2,
    LocalStorage.getChatHistory a w = (Returned l1, w1)
    ∧ initialised w1 b m1
    ∧ LocalStorage.getChatHistory a w1 = (Returned l2, w2)
    ∧ initialised w2 b m1
    ∧ user_history_at (objects w2) l2 = user_history_at (objects w1) l1
    ∧ (is_Some (v !! getKeyForAuthStatus a) → l2 = l1).
Proof.
  intros Hinit Hget Hf Hv Hmodels.
  destruct (getChatHistory_spec w b m a v Hinit Hget Hf Hv)
    as (l1 & w1 & m1 & Hrun1 & Hinit1 & Hget1 & Hf1 & Hv1 & _ & Hl1 & Href1 & _).
  set (vm := if decide (pending_store v = 0) then v else migrated_store v) in *.
  assert (pending_store vm = 0) as Hzero.
  { subst vm. case_decide; [done|]. by apply pending_migrated_store. }
  destruct (getChatHistory_spec w1 b m1 a vm Hinit1 Hget1 Hf1 Hv1)
    as (l2 & w2 & m2 & Hrun2 & Hinit2 & _ & _ & _ & Hsub & Hl2 & Href2 & _ & Hm2 & _).
  rewrite decide_True in Hl2 by done. rewrite (Hm2 Hzero) in Hinit2.
  exists l1, w1, m1, l2, w2. split_and!; [done..| |].
  - by rewrite Hl1, Hl2.
  - intros [u Hu]. rewrite Hu in Href1. simpl in Href1.
    assert (is_Some (vm !! getKeyForAuthStatus a)) as [u' Hu'].
    { subst vm. case_decide; [by eexists|].
      unfold migrated_store. rewrite lookup_fmap, Hu. by eexists. }
    rewrite Hu' in Href2. simpl in Href2.
    destruct Hinit1 as [_ Hm1], Hinit2 as [_ Hm2'].
    pose proof (stored_account_ref_weaken w1 w2 b m1 _ _ Hm1 Hm2' Hsub Href1).
    congruence.
Qed.

Lemma second_getChatHistory_writes_nothing_witness :
  initialised example_world 0 (working {[ KEY_LOCAL_HISTORY := VRef 0 ]})
  ∧ stores example_world 0 (Some example_content)
  ∧ pending_store example_content = 1
  ∧ ∃ l1 w1 m1 l2 w2,
      LocalStorage.getChatHistory u1 example_world = (Returned l1, w1)
      ∧ initialised w1 0 m1
      ∧ LocalStorage.getChatHistory u1 w1 = (Returned l2, w2)
      ∧ initialised w2 0 m1
      ∧ l2 = l1.
Proof.
  assert (initialised example_world 0 (working {[ KEY_LOCAL_HISTORY := VRef 0 ]}))
    as Hinit by done.
  assert (stores example_world 0 (Some example_content)) as Hv
    by (vm_compute; reflexivity).
  assert (no_empty_chatModel example_content) as Hmodels.
  { intros k id t (u & transcripts & Hu & Hchat & Ht)%transcript_at_Some.
    unfold example_content in Hu.
    apply lookup_singleton_Some in Hu as [_ <-]. simpl in Hchat.
    injection Hchat as <-.
    apply lookup_singleton_Some in Ht as [_ Ht]. by injection Ht as <-. }
  split_and!; [done|done|by vm_compute|].
  destruct (second_getChatHistory_writes_nothing example_world 0 _ u1 example_content
              Hinit eq_refl eq_refl Hv Hmodels)
    as (l1 & w1 & m1 & l2 & w2 & Hrun1 & Hinit1 & Hrun2 & Hinit2 & _ & Hsame).
  exists l1, w1, m1, l2, w2. split_and!; [done..|].
  apply Hsame. exists {| chat := Some {[ "c1" := Some c1 ]} |}. vm_compute. reflexivity.
Defined.

(** X6: a write-back that throws makes the read fail.  When the stored record
    has a message that lacks a model and the backend's [update] throws,
    [getChatHistory] fails with the backend's error, and so does
    [deleteChatHistory], whose read is outside its [try]; nothing is reported
    on the console and the store still holds the record as it was. *)
Theorem getChatHistory_fails_when_the_write_back_throws w b m a v e :
  initialised w b m → get_throws m = None →
  update_fails m = Some (UpdateThrows e) →
  stores w b (Some v) →
  pending_store v ≠ 0 →
  ∃ w',
    LocalStorage.getChatHistory a w = (Thrown e, w')
    ∧ (∀ chatID, LocalStorage.deleteChatHistory a chatID w = (Thrown e, w'))
    ∧ console w' = console w
    ∧ slot w' b KEY_LOCAL_HISTORY = slot w b KEY_LOCAL_HISTORY
    ∧ stores w' b (Some v).
Proof.
  intros Hinit Hget Hf Hv Hpending. pose proof Hinit as [Hb Hm].
  destruct (getChatHistory_present w b m a v Hinit Hget Hv)
    as (l & l' & h' & accounts & accounts' & Hslot & Hholds & Hsub & _ & _
        & _ & _ & _ & _ & Hrun).
  rewrite decide_False in Hrun by done.
  set (w1 := add_debug (pending_store v) (set_objects h' w)) in *.
  rewrite (bind_Thrown _ _ _ _ _
             (update_throws w1 b m KEY_LOCAL_HISTORY (VRef l') e Hm Hf)) in Hrun.
  eexists. split_and!; [exact Hrun| |done| |].
  - intros chatID. unfold LocalStorage.deleteChatHistory.
    by rewrite (bind_Thrown _ _ _ _ _ Hrun).
  - unfold slot. simpl. by rewrite lookup_insert_eq, Hm.
  - unfold stores, slot. simpl. rewrite lookup_insert_eq. simpl. rewrite Hslot. simpl.
    by eapply holds_weaken.
Qed.

Lemma getChatHistory_fails_when_the_write_back_throws_witness :
  initialised unwritable_world 0 unwritable
  ∧ stores unwritable_world 0 (Some example_content)
  ∧ pending_store example_content ≠ 0
  ∧ ∃ w',
      LocalStorage.getChatHistory u1 unwritable_world
      = (Thrown (BackendError "write failed"), w')
      ∧ console w' = [].
Proof.
  assert (initialised unwritable_world 0 unwritable) as Hinit by done.
  assert (stores unwritable_world 0 (Some example_content)) as Hv
    by (vm_compute; reflexivity).
  assert (pending_store example_content ≠ 0) as Hpending by (by vm_compute).
  split_and!; [done..|].
  destruct (getChatHistory_fails_when_the_write_back_throws unwritable_world 0 _ u1
              example_content _ Hinit eq_refl eq_refl Hv Hpending)
    as (w' & Hrun & _ & Hconsole & _).
  exists w'. split; [exact Hrun|exact Hconsole].
Defined.

(** X7: the migration builds a new record and leaves the loaded one alone.
    After [migrateHistoryForChatModelProperty] on a well-formed record, the
    loaded object still has the content it had; the result is that same
    object when no message lacked a model and an object that did not exist
    before otherwise; and the result has the same accounts, each with the same
    chat identifiers, a [null] transcript exactly where the loaded record has
    one. *)
Theorem migration_leaves_the_loaded_record_alone w l v :
  holds (objects w) l v →
  ∃ result w' v',
    migrateHistoryForChatModelProperty (Some l) w = (Returned (Some result), w')
    ∧ holds (objects w') result v'
    ∧ holds (objects w') l v
    ∧ (if decide (pending_store v = 0) then result = l else objects w !! result = None)
    ∧ dom v' = dom v
    ∧ ∀ k u,
        v !! k = Some u →
        ∃ u',
          v' !! k = Some u'
          ∧ dom (chats_of u') = dom (chats_of u)
          ∧ ∀ id, chats_of u' !! id = Some None ↔ chats_of u !! id = Some None.
Proof.
  intros Hv.
  destruct (migrateHistory_spec w l v Hv)
    as (l' & h' & accounts' & Hsub & Hfresh & Hv' & _ & _ & Hrun).
  case_decide as Hzero.
  - exists l, (set_objects h' w), v.
    split_and!; [done|by eapply holds_weaken|by eapply holds_weaken|done|done|].
    intros k u Hu. by exists u.
  - exists l', (add_debug (pending_store v) (set_objects h' w)), (migrated_store v).
    split_and!; [done|done|by eapply holds_weaken|done| |].
    + unfold migrated_store. by rewrite dom_fmap_L.
    + intros k u Hu. exists (migrated_user u). split_and!.
      * unfold migrated_store. by rewrite lookup_fmap, Hu.
      * unfold chats_of, migrated_user, migrated_chat. simpl.
        destruct (chat u) as [transcripts|]; simpl; [|done]. by rewrite dom_fmap_L.
      * intros id. unfold chats_of, migrated_user, migrated_chat. simpl.
        destruct (chat u) as [transcripts|]; simpl; [|done]. rewrite lookup_fmap.
        by destruct (transcripts !! id) as [[t|]|].
Qed.

Lemma migration_leaves_the_loaded_record_alone_witness :
  holds (objects example_world) 0 example_content
  ∧ ∃ result w' v',
      migrateHistoryForChatModelProperty (Some 0) example_world
      = (Returned (Some result), w')
      ∧ holds (objects w') result v'
      ∧ holds (objects w') 0 example_content
      ∧ objects example_world !! result = None
      ∧ dom v' = dom example_content.
Proof.
  assert (holds (objects example_world) 0 example_content) as Hv
    by (vm_compute; reflexivity).
  split; [done|].
  destruct (migration_leaves_the_loaded_record_alone example_world 0 example_content Hv)
    as (result & w' & v' & Hrun & Hv' & Hkept & Hnew & Hdom & _).
  exists result, w', v'. split_and!; [done..| |done].
  by rewrite decide_False in Hnew by (by vm_compute).
Defined.

End migration_in_reads.

(** * What the chat-history operations leave alone *)

Section other_slots.

Implicit Types (w : World) (b : nat) (m : Memento) (a : AuthStatus) (h : heap).

Lemma leaves_unwritten {A} key (m : Eff World A) :
  (∀ w r w', m w = (r, w') → mementos w' = mementos w) → leaves_other_keys key m.
Proof. intros Hm w r w' Hrun b k _. unfold slot. by rewrite (Hm _ _ _ Hrun). Qed.

Lemma leaves_ret {A} key (x : A) : leaves_other_keys key (mret x).
Proof. apply leaves_unwritten. by intros w r w' [= <- <-]. Qed.

Lemma leaves_throw {A} key e : leaves_other_keys key (throw (A := A) e).
Proof. apply leaves_unwritten. by intros w r w' [= <- <-]. Qed.

Lemma leaves_bind {A B} key (m : Eff World A) (k : A → Eff World B) :
  leaves_other_keys key m → (∀ x, leaves_other_keys key (k x)) →
  leaves_other_keys key (m ≫= k).
Proof.
  intros Hm Hk w r w'. unfold mbind, Eff_bind.
  destruct (m w) as [[x|e] w1] eqn:Hrun.
  - intros Hrun' b k' Hne.
    by rewrite (Hk x _ _ _ Hrun' b k' Hne), (Hm _ _ _ Hrun b k' Hne).
  - intros [= <- <-] b k' Hne. by apply (Hm _ _ _ Hrun).
Qed.

Lemma leaves_try_catch {A} key (body : Eff World A) handler :
  leaves_other_keys key body → (∀ e, leaves_other_keys key (handler e)) →
  leaves_other_keys key (try_catch body handler).
Proof.
  intros Hbody Hhandler w r w'. unfold try_catch.
  destruct (body w) as [[x|e] w1] eqn:Hrun.
  - intros [= <- <-] b k' Hne. by apply (Hbody _ _ _ Hrun).
  - intros Hrun' b k' Hne.
    by rewrite (Hhandler e _ _ _ Hrun' b k' Hne), (Hbody _ _ _ Hrun b k' Hne).
Qed.

Lemma leaves_on_heap {A} key (m : Eff heap A) : leaves_other_keys key (on_heap m).
Proof.
  apply leaves_unwritten. intros w r w'. unfold on_heap.
  destruct (m (objects w)) as [r0 h']. by intros [= <- <-].
Qed.

Lemma leaves_console_error key e : leaves_other_keys key (console_error e).
Proof. apply leaves_unwritten. by intros w r w' [= <- <-]. Qed.

Lemma leaves_storage key : leaves_other_keys key LocalStorage.storage.
Proof.
  apply leaves_unwritten. intros w r w'. unfold LocalStorage.storage.
  destruct (_storage w); by intros [= <- <-].
Qed.

Lemma leaves_get key store key' d :
  leaves_other_keys key (convertToAsyncStore.get store key' d).
Proof.
  apply leaves_unwritten. intros w r w'.
  unfold convertToAsyncStore.get, Memento_get.
  destruct (mementos w !! store) as [m|]; [destruct (get_throws m)|];
    by intros [= <- <-].
Qed.

(** [update(key, v)] changes the slot [key] of the backend it is called on,
    and nothing else. *)
Lemma leaves_update key store v :
  leaves_other_keys key (convertToAsyncStore.update store key v).
Proof.
  intros w r w'.
  unfold convertToAsyncStore.update, Memento_update, mbind, Eff_bind.
  destruct (mementos w !! store) as [m|] eqn:Hm;
    [destruct (update_fails m) as [[e|e]|]|];
    intros [= <- <-] b k Hne; unfold slot; simpl; try done.
  all: destruct (decide (b = store)) as [->|Hb];
    [rewrite lookup_insert_eq, Hm|by rewrite lookup_insert_ne]; simpl; try done.
  unfold write_slot. destruct v; by rewrite ?lookup_delete_ne, ?lookup_insert_ne.
Qed.

Lemma leaves_as_history key v : leaves_other_keys key (as_history v).
Proof. destruct v; simpl; first [apply leaves_ret | apply leaves_throw]. Qed.

Lemma leaves_migrateHistory key history :
  leaves_other_keys key (migrateHistoryForChatModelProperty history).
Proof.
  destruct history as [l|]; simpl; [|apply leaves_ret].
  apply leaves_bind; [apply leaves_on_heap|]. intros [l' [|n]].
  - apply leaves_ret.
  - apply leaves_bind; [|intros; apply leaves_ret].
    apply leaves_unwritten. by intros w r w' [= <- <-].
Qed.

Lemma leaves_getChatHistory a :
  leaves_other_keys KEY_LOCAL_HISTORY (LocalStorage.getChatHistory a).
Proof.
  unfold LocalStorage.getChatHistory.
  apply leaves_bind; [apply leaves_storage|]. intros store.
  apply leaves_bind; [apply leaves_get|]. intros v.
  apply leaves_bind; [apply leaves_as_history|]. intros history.
  apply leaves_bind; [apply leaves_migrateHistory|]. intros migrated.
  apply leaves_bind.
  { case_decide; [|apply leaves_ret].
    apply leaves_bind; [apply leaves_storage|]. intros store'. apply leaves_update. }
  intros _. apply leaves_bind.
  { destruct migrated as [l|]; [|apply leaves_ret].
    apply leaves_bind; [apply leaves_on_heap|]. intros accounts. apply leaves_ret. }
  intros [l|]; simpl; [apply leaves_ret|apply leaves_on_heap].
Qed.

Lemma leaves_setChatHistory a history :
  leaves_other_keys KEY_LOCAL_HISTORY (LocalStorage.setChatHistory a history).
Proof.
  unfold LocalStorage.setChatHistory.
  apply leaves_try_catch; [|intros e; apply leaves_console_error].
  apply leaves_bind; [apply leaves_storage|]. intros store.
  apply leaves_bind; [apply leaves_get|]. intros v.
  apply leaves_bind; [apply leaves_as_history|]. intros fullHistory.
  apply leaves_bind.
  { destruct fullHistory as [l|]; [|apply leaves_on_heap].
    apply leaves_bind; [apply leaves_on_heap|]. intros accounts.
    apply leaves_bind; [apply leaves_on_heap|]. intros _. apply leaves_ret. }
  intros l. apply leaves_bind; [apply leaves_storage|]. intros store'.
  apply leaves_update.
Qed.

(** X8: the chat-history operations write one slot only.  Whatever the state
    and whatever the backend does, [getChatHistory], [setChatHistory],
    [deleteChatHistory] and [removeChatHistory] leave every slot other than
    the chat-history slot, in every backend, as it was: the configuration, the
    endpoints and the minion history are not touched. *)
Theorem history_operations_write_the_history_slot_only a :
  leaves_other_keys KEY_LOCAL_HISTORY (LocalStorage.getChatHistory a)
  ∧ (∀ history,
       leaves_other_keys KEY_LOCAL_HISTORY (LocalStorage.setChatHistory a history))
  ∧ (∀ chatID,
       leaves_other_keys KEY_LOCAL_HISTORY (LocalStorage.deleteChatHistory a chatID))
  ∧ leaves_other_keys KEY_LOCAL_HISTORY (LocalStorage.removeChatHistory a).
Proof.
  split_and!.
  - apply leaves_getChatHistory.
  - apply leaves_setChatHistory.
  - intros chatID. unfold LocalStorage.deleteChatHistory.
    apply leaves_bind; [apply leaves_getChatHistory|]. intros userHistory.
    apply leaves_try_catch; [|intros e; apply leaves_console_error].
    apply leaves_bind; [apply leaves_on_heap|]. intros [c|].
    + apply leaves_bind; [|intros _; apply leaves_setChatHistory].
      apply leaves_bind; [apply leaves_on_heap|]. intros transcripts.
      apply leaves_on_heap.
    + apply leaves_bind; [apply leaves_throw|]. intros _. apply leaves_setChatHistory.
  - unfold LocalStorage.removeChatHistory.
    apply leaves_try_catch; [|intros e; apply leaves_console_error].
    apply leaves_bind; [apply leaves_on_heap|]. intros history.
    apply leaves_setChatHistory.
Qed.

(** X9: deleting a chat of an account that has no entry gives it one.  On a
    working backend whose record has no entry for the account,
    [deleteChatHistory] returns and the record then has the empty history
    [{ chat: {} }] for that account. *)
Theorem deleteChatHistory_of_unknown_account_adds_an_entry w b m a chatID v :
  initialised w b m → get_throws m = None → update_fails m = None →
  stores w b (Some v) →
  v !! getKeyForAuthStatus a = None →
  ∃ w',
    LocalStorage.deleteChatHistory a chatID w = (Returned tt, w')
    ∧ stored_account w' b (getKeyForAuthStatus a) = Some {| chat := Some ∅ |}.
Proof.
  intros Hinit Hget Hf Hv Habsent.
  destruct (getChatHistory_spec w b m a v Hinit Hget Hf Hv)
    as (la & w1 & m1 & Hrun & Hinit1 & Hget1 & Hf1 & Hv1 & _ & Hla & _).
  assert (user_history_at (objects w1) la = Some {| chat := Some ∅ |}) as Hempty.
  { rewrite Hla. case_decide; [by rewrite Habsent|].
    unfold migrated_store. by rewrite lookup_fmap, Habsent. }
  destruct (user_history_at_chat _ _ _ Hempty) as (lc & Hobj & Hchat).
  pose proof Hinit1 as [_ Hm1].
  destruct (stores_Some_read _ _ _ _ Hm1 Hv1) as (l & Hslot & _ & Hholds).
  destruct (holds_lookup _ _ _ Hholds) as (accounts & Hroot & _).
  rewrite (deleteChatHistory_after_read w w1 b m1 a chatID l accounts la lc ∅
             Hrun Hinit1 Hget1 Hf1 Hslot Hroot Hobj Hchat).
  eexists. split; [done|].
  set (w2 := set_objects (<[lc := OChat (delete chatID ∅)]> (objects w1)) w1).
  assert (objects w2 !! l = Some (OHistory accounts)) as Hroot2.
  { simpl. rewrite lookup_insert_ne; [done|]. intros ->. congruence. }
  destruct (stored_account_after_set w2 b m1 (getKeyForAuthStatus a) la l accounts
              (contents m1) (getKeyForAuthStatus a) Hroot2) as [_ Hstored].
  rewrite Hstored, lookup_insert_eq. simpl.
  rewrite (user_history_at_set_chat _ _ _ _ _ Hchat), decide_True by done.
  by rewrite delete_empty.
Qed.

Lemma deleteChatHistory_of_unknown_account_adds_an_entry_witness :
  initialised example_world 0 (working {[ KEY_LOCAL_HISTORY := VRef 0 ]})
  ∧ stores example_world 0 (Some example_content)
  ∧ stored_account example_world 0 (getKeyForAuthStatus u2) = None
  ∧ ∃ w',
      LocalStorage.deleteChatHistory u2 "c1" example_world = (Returned tt, w')
      ∧ stored_account w' 0 (getKeyForAuthStatus u2) = Some {| chat := Some ∅ |}.
Proof.
  assert (initialised example_world 0 (working {[ KEY_LOCAL_HISTORY := VRef 0 ]}))
    as Hinit by done.
  assert (stores example_world 0 (Some example_content)) as Hv
    by (vm_compute; reflexivity).
  assert (example_content !! getKeyForAuthStatus u2 = None) as Habsent
    by (vm_compute; reflexivity).
  split_and!; [done|done|by vm_compute|].
  apply (deleteChatHistory_of_unknown_account_adds_an_entry example_world 0 _ u2 "c1"
           example_content Hinit eq_refl eq_refl Hv Habsent).
Defined.

(** X22: an entry without a [chat] table.  On a working backend, for an
    account whose entry has no [chat] field, [deleteChatHistory] returns.  If
    no message of the record lacks a model, it reports a [TypeError] on the
    console and leaves the backend and the record as they were; otherwise the
    read inside it has migrated the record, and the account then has the empty
    history [{ chat: {} }]. *)
Theorem deleteChatHistory_of_an_entry_without_chats w b m a chatID v :
  initialised w b m → get_throws m = None → update_fails m = None →
  stores w b (Some v) →
  v !! getKeyForAuthStatus a = Some {| chat := None |} →
  ∃ w',
    LocalStorage.deleteChatHistory a chatID w = (Returned tt, w')
    ∧ if decide (pending_store v = 0)
      then console w' = (console w ++ [TypeError])%list
           ∧ initialised w' b m ∧ stores w' b (Some v)
      else stored_account w' b (getKeyForAuthStatus a) = Some {| chat := Some ∅ |}.
Proof.
  intros Hinit Hget Hf Hv Hentry. case_decide as Hzero.
  - destruct (getChatHistory_spec w b m a v Hinit Hget Hf Hv)
      as (la & w1 & m1 & Hrun & Hinit1 & _ & _ & Hv1 & _ & Hla & _ & _ & Hm1 & Hconsole).
    rewrite decide_True in Hla, Hv1 by done. rewrite Hentry in Hla. simpl in Hla.
    rewrite (Hm1 Hzero) in Hinit1.
    pose proof (user_history_at_chat _ _ _ Hla) as Hobj. simpl in Hobj.
    exists (add_console TypeError w1). split_and!.
    + by eapply deleteChatHistory_after_read_no_chat.
    + simpl. by rewrite Hconsole.
    + done.
    + done.
  - destruct (deleteChatHistory_spec w b m a chatID v _ Hinit Hget Hf Hv Hentry)
      as (w' & Hrun & Hself & _).
    exists w'. split; [done|]. rewrite decide_False in Hself by done.
    rewrite (Hself ∅); [by rewrite delete_empty|].
    unfold migrated_store. by rewrite lookup_fmap, Hentry.
Qed.

Lemma deleteChatHistory_of_an_entry_without_chats_witness :
  initialised (world_of no_chats_heap (working {[ KEY_LOCAL_HISTORY := VRef 0 ]})) 0
    (working {[ KEY_LOCAL_HISTORY := VRef 0 ]})
  ∧ stores (world_of no_chats_heap (working {[ KEY_LOCAL_HISTORY := VRef 0 ]})) 0
      (Some {[ "ep-u1" := {| chat := None |} ]})
  ∧ ∃ w',
      LocalStorage.deleteChatHistory u1 "c1"
        (world_of no_chats_heap (working {[ KEY_LOCAL_HISTORY := VRef 0 ]}))
      = (Returned tt, w')
      ∧ console w' = [TypeError].
Proof.
  set (w := world_of no_chats_heap (working {[ KEY_LOCAL_HISTORY := VRef 0 ]})).
  assert (initialised w 0 (working {[ KEY_LOCAL_HISTORY := VRef 0 ]})) as Hinit by done.
  assert (stores w 0 (Some {[ "ep-u1" := {| chat := None |} ]})) as Hv
    by (vm_compute; reflexivity).
  split_and!; [done..|].
  destruct (deleteChatHistory_of_an_entry_without_chats w 0 _ u1 "c1"
              {[ "ep-u1" := {| chat := None |} ]} Hinit eq_refl eq_refl Hv)
    as (w' & Hrun & Hafter); [vm_compute; reflexivity|].
  exists w'. split; [exact Hrun|].
  rewrite decide_True in Hafter by (vm_compute; reflexivity).
  by destruct Hafter as (-> & _).
Defined.

End other_slots.

(** * Account keys *)

Section account_keys.

Lemma append_inj (s t1 t2 : string) : s +:+ t1 = s +:+ t2 → t1 = t2.
Proof. induction s as [|c s IH]; simpl; [done|]. intros [= H]. by apply IH. Qed.

(** X10: account keys tell the users of one endpoint apart, but not every two
    accounts.  Two accounts on the same endpoint with the same key are the
    same account; two accounts on different endpoints can have the same key,
    since the key is the endpoint and the user name joined by a hyphen that
    either may contain. *)
Theorem account_keys_are_distinct_on_one_endpoint :
  (∀ a1 a2, endpoint a1 = endpoint a2 →
            getKeyForAuthStatus a1 = getKeyForAuthStatus a2 → a1 = a2)
  ∧ ∃ a1 a2, a1 ≠ a2 ∧ getKeyForAuthStatus a1 = getKeyForAuthStatus a2.
Proof.
  split.
  - intros [e1 n1] [e2 n2]. unfold getKeyForAuthStatus. simpl. intros -> Hkey.
    apply append_inj in Hkey. apply (append_inj "-") in Hkey. by subst.
  - exists {| endpoint := "https://example.com"; username := "a-b" |},
      {| endpoint := "https://example.com-a"; username := "b" |}.
    split; [done|]. by vm_compute.
Qed.

End account_keys.

(** * The chat list of the web view *)

Section web_chat_history.

Import WebChatHistory.

Local Open Scope list_scope.

Implicit Types (chat : ChatExportResult) (chats : list ChatExportResult).

Lemma truthy_Some (s : option string) : truthy s = true → ∃ t, s = Some t ∧ t ≠ "".
Proof. destruct s as [[|c t]|]; simpl; try done. intros _. by eexists. Qed.

Lemma Array_find_Some {A} (P : A → Prop) `{!∀ x, Decision (P x)} (xs : list A) x :
  Array_find P xs = Some x →
  ∃ before after, xs = before ++ x :: after ∧ P x ∧ Forall (λ y, ¬ P y) before.
Proof.
  unfold Array_find. destruct (list_find P xs) as [[i y]|] eqn:Hfind; simpl; [|done].
  intros [= ->]. apply list_find_Some in Hfind as (Hi & HP & Hbefore).
  exists (take i xs), (drop (S i) xs). split_and!; [|done|].
  - by rewrite take_drop_middle.
  - apply Forall_lookup. intros j y [Hj Hy]%lookup_take_Some. by eapply Hbefore.
Qed.

Lemma Array_find_None {A} (P : A → Prop) `{!∀ x, Decision (P x)} (xs : list A) :
  Array_find P xs = None ↔ Forall (λ y, ¬ P y) xs.
Proof.
  unfold Array_find. split.
  - intros Hnone. apply (proj1 (list_find_None P xs)).
    by destruct (list_find P xs) as [[i y]|].
  - intros Hall. by rewrite (proj2 (list_find_None P xs) Hall).
Qed.

(** X11: the title of a chat without a title.  For a chat whose [chatTitle]
    is missing or empty and that has interactions, [getChatTitle] is the text
    of the first human message with a non-empty text; it is the empty string
    exactly when no human message has one.  The transcript's id is not used
    for such a chat. *)
Theorem getChatTitle_of_an_untitled_chat chat :
  truthy (chatTitle (transcript chat)) = false →
  interactions (transcript chat) ≠ [] →
  (getChatTitle chat = ""
   ↔ Forall (λ interaction, truthy (text (humanMessage interaction)) = false)
       (interactions (transcript chat)))
  ∧ (getChatTitle chat ≠ "" →
     ∃ before interaction after,
       interactions (transcript chat) = before ++ interaction :: after
       ∧ Forall (λ earlier, truthy (text (humanMessage earlier)) = false) before
       ∧ text (humanMessage interaction) = Some (getChatTitle chat)).
Proof.
  intros Htitle Hsome. unfold getChatTitle. rewrite Htitle.
  rewrite decide_True by (destruct (interactions (transcript chat)); simpl; [done|lia]).
  destruct (Array_find _ (interactions (transcript chat))) as [i|] eqn:Hfind; simpl.
  - apply Array_find_Some in Hfind as (before & after & Hsplit & Htext & Hbefore).
    destruct (truthy_Some _ Htext) as (t & Ht & Hne). rewrite Ht. simpl. split.
    + split; [done|]. rewrite Hsplit. intros Hall.
      apply Forall_app in Hall as [_ Hall]. apply Forall_cons in Hall as [Hi _].
      congruence.
    + intros _. exists before, i, after. split_and!; [done| |done].
      eapply Forall_impl; [exact Hbefore|]. intros y Hy. simpl in Hy.
      by destruct (truthy (text (humanMessage y))).
  - apply Array_find_None in Hfind. split; [|done]. split; [|done]. intros _.
    eapply Forall_impl; [exact Hfind|]. intros y Hy. simpl in Hy.
    by destruct (truthy (text (humanMessage y))).
Qed.

Lemma getChatTitle_of_an_untitled_chat_witness :
  getChatTitle {| chatID := "1"; transcript := c1 |} = "hello"
  ∧ ∃ before interaction after,
      interactions c1 = before ++ interaction :: after
      ∧ text (humanMessage interaction) = Some "hello".
Proof.
  destruct (getChatTitle_of_an_untitled_chat {| chatID := "1"; transcript := c1 |})
    as [_ Hfirst]; [done|done|].
  split; [done|]. destruct Hfirst as (before & i & after & Hsplit & _ & Htext); [done|].
  by exists before, i, after.
Defined.

Lemma last_filter_Some {A} (P : A → Prop) `{!∀ x, Decision (P x)} (xs : list A) x :
  last (filter P xs) = Some x →
  ∃ before after, xs = before ++ x :: after ∧ P x ∧ Forall (λ y, ¬ P y) after.
Proof.
  induction xs as [|y xs IH] using rev_ind; [done|].
  rewrite filter_app, filter_cons, filter_nil. case_decide as Hy.
  - rewrite last_snoc. intros [= ->]. by exists xs, [].
  - rewrite app_nil_r. intros (before & after & -> & HP & Hafter)%IH.
    exists before, (after ++ [y]). split_and!; [by rewrite <- app_assoc|done|].
    apply Forall_app. split; [done|]. by apply Forall_singleton.
Qed.

(** X12: a [chatHistory] message replaces the list and makes the last new
    chat the active one.  A message without a value changes nothing.
    Otherwise the list becomes the received chats, in the order received; and
    either every received chat was already in the list and nothing else
    happens, or the last active chat is set, once, to the last received chat
    that was not in the list. *)
Theorem chatHistory_message_marks_the_last_new_chat chats :
  onMessage_chatHistory None chats = (chats, [])
  ∧ ∀ entries,
      ∃ received requests,
        onMessage_chatHistory (Some entries) chats = (received, requests)
        ∧ chatID <$> received = entries.*1
        ∧ transcript <$> received = entries.*2
        ∧ ((requests = [] ∧ ∀ id, id ∈ entries.*1 → id ∈ (chatID <$> chats))
           ∨ ∃ before id after,
               requests = [SetLastActiveChatID id]
               ∧ entries.*1 = before ++ id :: after
               ∧ (id ∉ (chatID <$> chats))
               ∧ ∀ id', id' ∈ after → id' ∈ (chatID <$> chats)).
Proof.
  split; [done|]. intros entries. unfold onMessage_chatHistory.
  set (received := (λ entry, {| chatID := entry.1; transcript := entry.2 |}) <$> entries).
  set (new := λ chat,
         Array_find (λ currentChat, chatID currentChat = chatID chat) chats = None).
  assert (∀ chat, new chat ↔ chatID chat ∉ (chatID <$> chats)) as Hnew.
  { intros chat. unfold new. rewrite Array_find_None, Forall_forall. split.
    - intros Hall (c & Hid & Hc)%list_elem_of_fmap. by apply (Hall c).
    - intros Hnot c Hc Hid. apply Hnot. apply list_elem_of_fmap. by exists c. }
  assert (chatID <$> received = entries.*1) as Hids.
  { unfold received. rewrite <- list_fmap_compose. by apply list_fmap_ext. }
  exists received,
    (if decide (0 < length (filter new received))
     then match last (filter new received) with
          | Some chat => [SetLastActiveChatID (chatID chat)]
          | None => []
          end
     else []).
  split; [done|]. split; [done|]. split.
  { unfold received. rewrite <- list_fmap_compose. by apply list_fmap_ext. }
  destruct (last (filter new received)) as [chat|] eqn:Hlast.
  - right.
    assert (0 < length (filter new received)) as Hlen.
    { destruct (filter new received); [done|simpl; lia]. }
    destruct (last_filter_Some _ _ _ Hlast) as (before & after & Hsplit & Hchat & Hafter).
    exists (chatID <$> before), (chatID chat), (chatID <$> after).
    split_and!.
    + by rewrite decide_True.
    + by rewrite <- Hids, Hsplit, fmap_app.
    + by apply Hnew.
    + intros id' (c & -> & Hc)%list_elem_of_fmap.
      rewrite Forall_forall in Hafter. specialize (Hafter c Hc).
      destruct (decide (chatID c ∈ (chatID <$> chats))) as [|Hnot]; [done|].
      by apply Hnew in Hnot.
  - left. apply last_None in Hlast. split; [by case_decide|]. intros id. rewrite <- Hids.
    intros (c & -> & Hc)%list_elem_of_fmap.
    destruct (decide (chatID c ∈ (chatID <$> chats))) as [|Hnot]; [done|].
    apply Hnew in Hnot.
    assert (c ∈ filter new received) as Hin by by apply list_elem_of_filter.
    rewrite Hlast in Hin. by apply elem_of_nil in Hin.
Qed.

Lemma Array_findIndex_middle {A} (P : A → Prop) `{!∀ x, Decision (P x)}
    (before after : list A) x :
  Forall (λ y, ¬ P y) before → P x →
  Array_findIndex P (before ++ x :: after) = Z.of_nat (length before).
Proof.
  intros Hbefore HP. unfold Array_findIndex.
  assert (list_find P (before ++ x :: after) = Some (length before, x)) as ->; [|done].
  apply list_find_Some. split_and!; [by apply list_lookup_middle|done|].
  intros j y Hj Hlt. rewrite lookup_app_l in Hj by done.
  rewrite Forall_forall in Hbefore. apply Hbefore. by eapply list_elem_of_lookup_2.
Qed.

(** X13: after the active chat is deleted, the chat before it is selected.
    When the deleted chat is the active one, its identifier occurs first at
    its place in the list, and the agent answers with the list without it,
    not empty, then [deleteChat] asks for the deletion, replaces the list and
    selects the chat that came just before the deleted one, or the first
    remaining chat when the deleted one was the first. *)
Theorem deleteChat_selects_the_previous_chat before chat after :
  Forall (λ earlier, chatID earlier ≠ chatID chat) before →
  before ++ after ≠ [] →
  deleteChat ClientReady (before ++ chat :: after) (Some (chatID chat)) chat
    (before ++ after)
  = [SendRequest_chat_delete (chatID chat); SetChats (before ++ after);
     SelectChat (match last before with
                 | Some previous => Some previous
                 | None => head after
                 end)].
Proof.
  intros Hbefore Hsome. unfold deleteChat. simpl.
  rewrite decide_False by (by intros ?).
  rewrite decide_False by (by destruct (before ++ after)).
  rewrite (Array_findIndex_middle (λ currentChat, chatID currentChat = chatID chat))
    by done.
  do 3 f_equal. destruct before as [|c before _] using rev_ind.
  - simpl. destruct after as [|c after]; [done|]. by vm_compute.
  - rewrite last_snoc, length_app. simpl.
    replace (Z.max (Z.of_nat (length before + 1) - 1) 0) with (Z.of_nat (length before))
      by lia.
    unfold Array_at. rewrite decide_True by lia. rewrite Nat2Z.id.
    rewrite <- !app_assoc. simpl. by rewrite list_lookup_middle.
Qed.

Lemma deleteChat_selects_the_previous_chat_witness :
  deleteChat ClientReady
    [ {| chatID := "x"; transcript := answered "x" None |};
      {| chatID := "y"; transcript := answered "y" None |};
      {| chatID := "z"; transcript := answered "z" None |} ]
    (Some "z") {| chatID := "z"; transcript := answered "z" None |}
    [ {| chatID := "x"; transcript := answered "x" None |};
      {| chatID := "y"; transcript := answered "y" None |} ]
  = [SendRequest_chat_delete "z";
     SetChats [ {| chatID := "x"; transcript := answered "x" None |};
                {| chatID := "y"; transcript := answered "y" None |} ];
     SelectChat (Some {| chatID := "y"; transcript := answered "y" None |})].
Proof.
  apply (deleteChat_selects_the_previous_chat
           [ {| chatID := "x"; transcript := answered "x" None |};
             {| chatID := "y"; transcript := answered "y" None |} ]
           {| chatID := "z"; transcript := answered "z" None |} []).
  - by repeat constructor.
  - done.
Defined.

(** X14: [deleteChat] never leaves the view without a selected chat.  With the
    client ready, [deleteChat] always asks for the deletion and replaces the
    list by the agent's answer, and then: if the deleted chat was not the
    active one, nothing more; if it was and the answer is empty, a new chat is
    created; if it was and the answer is not empty, a chat of the answer is
    selected.  With the client missing or failed it does nothing. *)
Theorem deleteChat_keeps_a_selection chats activeChatID chat newChatsList :
  (Some (chatID chat) ≠ activeChatID →
   deleteChat ClientReady chats activeChatID chat newChatsList
   = [SendRequest_chat_delete (chatID chat); SetChats newChatsList])
  ∧ (Some (chatID chat) = activeChatID → newChatsList = [] →
     deleteChat ClientReady chats activeChatID chat newChatsList
     = [SendRequest_chat_delete (chatID chat); SetChats []; CreateChat;
        PostMessage "initialized"])
  ∧ (Some (chatID chat) = activeChatID → newChatsList ≠ [] →
     ∃ next,
       next ∈ newChatsList
       ∧ deleteChat ClientReady chats activeChatID chat newChatsList
         = [SendRequest_chat_delete (chatID chat); SetChats newChatsList;
            SelectChat (Some next)])
  ∧ ∀ client,
      unavailable client = true →
      deleteChat client chats activeChatID chat newChatsList = [].
Proof.
  split_and!.
  - intros Hne. unfold deleteChat. simpl. by rewrite decide_True.
  - intros Heq ->. unfold deleteChat. simpl. by rewrite decide_False by (by intros ?).
  - intros Heq Hsome. unfold deleteChat. simpl.
    rewrite decide_False by (by intros ?).
    rewrite decide_False by (by destruct newChatsList).
    set (i := Z.max _ 0).
    destruct (Array_at newChatsList i) as [next|] eqn:Hnext.
    + exists next. split; [|done]. unfold Array_at in Hnext.
      case_decide; [|done]. by eapply list_elem_of_lookup_2.
    + destruct newChatsList as [|c rest]; [done|]. exists c. split; [by left|done].
  - intros client Hclient. unfold deleteChat. by rewrite Hclient.
Qed.

(** X15: [createNewChat] does not add a second blank chat.  With the client
    ready, a chat is created exactly when the call is forced or no chat of the
    list is blank (has no interactions); when a chat is selected instead, it
    is a blank chat of the list. *)
Theorem createNewChat_reuses_a_blank_chat chats activeChatID :
  (∀ force,
     CreateChat ∈ createNewChat ClientReady chats activeChatID force
     ↔ force = true ∨ Forall (λ chat, ¬ blank chat) chats)
  ∧ ∀ force selected,
      SelectChat selected ∈ createNewChat ClientReady chats activeChatID force →
      force = false ∧ ∃ chat, selected = Some chat ∧ chat ∈ chats ∧ blank chat.
Proof.
  split.
  - intros [|]; unfold createNewChat; simpl.
    + split; [by left|]. intros _. by left.
    + destruct (Array_find (λ chat, Some (chatID chat) = activeChatID) chats)
        as [current|] eqn:Hcurrent.
      * case_bool_decide as Hblank; simpl.
        -- split; [by intros ?%elem_of_nil|]. intros [|Hall]; [done|].
           apply Array_find_Some in Hcurrent as (before & after & -> & _).
           apply Forall_app in Hall as [_ Hall]. by apply Forall_cons in Hall as [? _].
        -- destruct (Array_find blank chats) as [empty|] eqn:Hempty.
           ++ rewrite bool_decide_true by done. split.
              ** intros Hin. apply list_elem_of_singleton in Hin. done.
              ** intros [|Hall]; [done|].
                 apply Array_find_Some in Hempty as (before & after & -> & ? & _).
                 apply Forall_app in Hall as [_ Hall].
                 by apply Forall_cons in Hall as [? _].
           ++ rewrite bool_decide_false by (by intros [? ?]).
              split; [|intros _; by left]. intros _. right.
              by apply (proj1 (Array_find_None blank chats)).
      * destruct (Array_find blank chats) as [empty|] eqn:Hempty.
        -- rewrite bool_decide_true by done. split.
           ++ intros Hin. apply list_elem_of_singleton in Hin. done.
           ++ intros [|Hall]; [done|].
              apply Array_find_Some in Hempty as (before & after & -> & ? & _).
              apply Forall_app in Hall as [_ Hall].
              by apply Forall_cons in Hall as [? _].
        -- rewrite bool_decide_false by (by intros [? ?]).
           split; [|intros _; by left]. intros _. right.
           by apply (proj1 (Array_find_None blank chats)).
  - intros [|] selected; unfold createNewChat; simpl.
    + intros [Hin|Hin%list_elem_of_singleton]%elem_of_cons; done.
    + destruct (Array_find blank chats) as [empty|] eqn:Hempty.
      * rewrite bool_decide_true by done.
        apply Array_find_Some in Hempty as (before & after & -> & Hblank & _).
        assert (empty ∈ before ++ empty :: after) as Hin.
        { apply elem_of_app. right. by left. }
        destruct (Array_find (λ chat, Some (chatID chat) = activeChatID)
                    (before ++ empty :: after)) as [current|]; simpl;
          [case_bool_decide|]; simpl.
        -- by intros ?%elem_of_nil.
        -- intros [= ->]%list_elem_of_singleton. split; [done|]. by exists empty.
        -- intros [= ->]%list_elem_of_singleton. split; [done|]. by exists empty.
      * rewrite bool_decide_false by (by intros [? ?]).
        destruct (Array_find (λ chat, Some (chatID chat) = activeChatID) chats)
          as [current|]; simpl; [case_bool_decide|]; simpl.
        -- by intros ?%elem_of_nil.
        -- intros [Hin|Hin%list_elem_of_singleton]%elem_of_cons; done.
        -- intros [Hin|Hin%list_elem_of_singleton]%elem_of_cons; done.
Qed.

End web_chat_history.

(** * Endpoints, enrolments and the anonymous user id *)

Section settings.

Import Settings.

Local Open Scope list_scope.

Implicit Types (s : State) (b : Backend) (items : list string).

Lemma storage_get_run s b key d :
  _storage s = Some b → get_throws b = None →
  storage_get key d s = (Returned (read key d (slots b)), s).
Proof.
  intros Hb Hget. unfold storage_get, storage, adapter_get, mbind, Eff_bind.
  rewrite Hb. simpl. by rewrite Hb, Hget.
Qed.

Lemma storage_update_run s b key v :
  _storage s = Some b → update_fails b = None →
  storage_update key v s = (Returned tt, set_slots b (written key v (slots b)) s).
Proof.
  intros Hb Hf. unfold storage_update, storage, adapter_update, mbind, Eff_bind.
  rewrite Hb. simpl. by rewrite Hb, Hf.
Qed.

Lemma working_set_arrays s h : working s → working (set_arrays h s).
Proof. by intros (b & ? & ? & ?); exists b. Qed.

Lemma working_set_slots s b slots' :
  get_throws b = None → update_fails b = None → working (set_slots b slots' s).
Proof. intros Hget Hf. by eexists. Qed.

Lemma new_array_fresh s : arrays s !! fresh (dom (arrays s)) = None.
Proof. apply not_elem_of_dom, is_fresh. Qed.

Lemma storage_run s b : _storage s = Some b → storage s = (Returned tt, s).
Proof. unfold storage. by intros ->. Qed.

Lemma adapter_get_run s b key d :
  _storage s = Some b → get_throws b = None →
  adapter_get key d s = (Returned (read key d (slots b)), s).
Proof. intros Hb Hget. unfold adapter_get. by rewrite Hb, Hget. Qed.

Lemma array_items_run s l items :
  arrays s !! l = Some items → array_items l s = (Returned items, s).
Proof. unfold array_items. by intros ->. Qed.

Lemma push_run s l items x :
  arrays s !! l = Some items →
  push l x s = (Returned tt, set_arrays (<[l := items ++ [x]]> (arrays s)) s).
Proof.
  intros Hl. unfold push. by rewrite (bind_Returned _ _ _ _ _ (array_items_run s l _ Hl)).
Qed.

(** What [getEnrollmentHistory] does once it has the array [history] with the
    items [items]. *)
Lemma getEnrollmentHistory_after_read s b featureName history items :
  _storage s = Some b → update_fails b = None →
  arrays s !! history = Some items →
  ((items' ← array_items history;
    let hasEnrolled := bool_decide (featureName ∈ items') in
    (if negb hasEnrolled then
       push history featureName;;
       storage_update CODY_ENROLLMENT_HISTORY (JArray history)
     else mret tt);;
    mret hasEnrolled) : Eff State bool) s
  = (Returned (bool_decide (featureName ∈ items)),
     if decide (featureName ∈ items) then s
     else set_slots b (written CODY_ENROLLMENT_HISTORY (JArray history) (slots b))
            (set_arrays (<[history := items ++ [featureName]]> (arrays s)) s)).
Proof.
  intros Hb Hf Hitems.
  rewrite (bind_Returned _ _ _ _ _ (array_items_run s history _ Hitems)).
  case_decide as Hin.
  - by rewrite bool_decide_true.
  - rewrite bool_decide_false by done. simpl.
    assert ((push history featureName;;
             storage_update CODY_ENROLLMENT_HISTORY (JArray history)) s
            = (Returned tt,
               set_slots b (written CODY_ENROLLMENT_HISTORY (JArray history) (slots b))
                 (set_arrays (<[history := items ++ [featureName]]> (arrays s)) s)))
      as Hblock.
    { rewrite (bind_Returned _ _ _ _ _ (push_run s history _ featureName Hitems)).
      by apply storage_update_run. }
    by rewrite (bind_Returned _ _ _ _ _ Hblock).
Qed.

(** One call of [getEnrollmentHistory] on a working backend. *)
Lemma getEnrollmentHistory_run s featureName items :
  working s → holds_array s CODY_ENROLLMENT_HISTORY false items →
  ∃ s1,
    getEnrollmentHistory featureName s = (Returned (bool_decide (featureName ∈ items)), s1)
    ∧ working s1
    ∧ (featureName ∈ items →
       _storage s1 = _storage s
       ∧ stored_array s1 CODY_ENROLLMENT_HISTORY = Some items
       ∧ holds_array s1 CODY_ENROLLMENT_HISTORY false items)
    ∧ (featureName ∉ items →
       stored_array s1 CODY_ENROLLMENT_HISTORY = Some (items ++ [featureName])
       ∧ holds_array s1 CODY_ENROLLMENT_HISTORY false (items ++ [featureName])).
Proof.
  intros (b & Hb & Hget & Hf) Hitems.
  set (empty := fresh (dom (arrays s))).
  set (s0 := set_arrays (<[empty := []]> (arrays s)) s).
  pose proof (new_array_fresh s) as Hfresh. fold empty in Hfresh.
  assert (new_array [] s = (Returned empty, s0)) as Hnew by done.
  assert (_storage s0 = Some b) as Hb0 by done.
  unfold holds_array, slot in Hitems. rewrite Hb in Hitems.
  assert (∃ history,
            read CODY_ENROLLMENT_HISTORY (JArray empty) (slots b) = JArray history
            ∧ arrays s0 !! history = Some items
            ∧ (featureName ∈ items → slots b !! CODY_ENROLLMENT_HISTORY
                                     = Some (JArray history)))
    as (history & Hread & Hhistory & Hslot).
  { unfold read.
    destruct (slots b !! CODY_ENROLLMENT_HISTORY) as [[| |x|l]|];
      simpl in Hitems; try done; try (by destruct Hitems).
    - subst items. exists empty. split_and!; [done| |by intros ?%elem_of_nil].
      by apply lookup_insert_eq.
    - exists l. split_and!; [done| |done]. simpl.
      rewrite lookup_insert_ne; [done|]. intros <-. congruence.
    - subst items. exists empty. split_and!; [done| |by intros ?%elem_of_nil].
      by apply lookup_insert_eq. }
  eexists. split.
  { unfold getEnrollmentHistory.
    rewrite (bind_Returned _ _ _ _ _ (storage_run s b Hb)).
    rewrite (bind_Returned _ _ _ _ _ Hnew).
    rewrite (bind_Returned _ _ _ _ _ (adapter_get_run s0 b _ _ Hb0 Hget)).
    rewrite Hread. simpl as_array. rewrite bind_ret.
    apply (getEnrollmentHistory_after_read s0 b featureName history items Hb0 Hf Hhistory). }
  case_decide as Hin.
  - split; [by exists b|]. split; [|done]. intros _.
    unfold stored_array, holds_array, slot. simpl. rewrite Hb, (Hslot Hin). simpl.
    simpl in Hhistory. by rewrite Hhistory.
  - split; [by apply working_set_slots|]. split; [done|]. intros _.
    unfold stored_array, holds_array, slot. simpl.
    rewrite !lookup_insert_eq. simpl. by rewrite !lookup_insert_eq.
Qed.

(** X16: a feature's enrolment is reported as new once.  On a working backend
    whose enrolment slot is empty or holds an array, [getEnrollmentHistory]
    answers whether the feature is in the stored list, and afterwards the list
    is the former one with the feature added at the end if it was missing, so
    no earlier enrolment is lost; a second call for the same feature answers
    [true] and changes neither the backend nor the stored list. *)
Theorem getEnrollmentHistory_is_false_at_most_once s featureName items :
  working s →
  holds_array s CODY_ENROLLMENT_HISTORY false items →
  ∃ s1 s2,
    getEnrollmentHistory featureName s = (Returned (bool_decide (featureName ∈ items)), s1)
    ∧ stored_array s1 CODY_ENROLLMENT_HISTORY
      = Some (if decide (featureName ∈ items) then items else items ++ [featureName])
    ∧ getEnrollmentHistory featureName s1 = (Returned true, s2)
    ∧ _storage s2 = _storage s1
    ∧ stored_array s2 CODY_ENROLLMENT_HISTORY = stored_array s1 CODY_ENROLLMENT_HISTORY.
Proof.
  intros Hworking Hitems.
  destruct (getEnrollmentHistory_run s featureName items Hworking Hitems)
    as (s1 & Hrun1 & Hworking1 & Hold & Hnew).
  set (items1 := if decide (featureName ∈ items) then items else items ++ [featureName]).
  assert (stored_array s1 CODY_ENROLLMENT_HISTORY = Some items1
          ∧ holds_array s1 CODY_ENROLLMENT_HISTORY false items1) as [Hstored1 Hitems1].
  { subst items1. case_decide as Hin.
    - by destruct (Hold Hin) as (_ & ? & ?).
    - by destruct (Hnew Hin). }
  assert (featureName ∈ items1) as Hin1.
  { subst items1. case_decide; [done|]. apply elem_of_app. right. by left. }
  destruct (getEnrollmentHistory_run s1 featureName items1 Hworking1 Hitems1)
    as (s2 & Hrun2 & _ & Hold2 & _).
  destruct (Hold2 Hin1) as (Hsame & Hstored2 & _).
  rewrite bool_decide_true in Hrun2 by done.
  exists s1, s2. split_and!; [done..|]. by rewrite Hstored2.
Qed.

Lemma getEnrollmentHistory_is_false_at_most_once_witness :
  working new_installation
  ∧ holds_array new_installation CODY_ENROLLMENT_HISTORY false []
  ∧ ∃ s1 s2,
      getEnrollmentHistory "feature" new_installation = (Returned false, s1)
      ∧ stored_array s1 CODY_ENROLLMENT_HISTORY = Some ["feature"]
      ∧ getEnrollmentHistory "feature" s1 = (Returned true, s2).
Proof.
  assert (working new_installation) as Hworking by (by eexists).
  assert (holds_array new_installation CODY_ENROLLMENT_HISTORY false []) as Hitems
    by done.
  split_and!; [done..|].
  destruct (getEnrollmentHistory_is_false_at_most_once new_installation "feature" []
              Hworking Hitems)
    as (s1 & s2 & Hrun1 & Hstored & Hrun2 & _).
  by exists s1, s2.
Defined.

(** X17: the anonymous user id is created once.  On a working backend whose
    slot is empty or holds a string, [anonymousUserID] returns the stored id
    and [created = false] when one is stored and not empty; otherwise it
    returns the new id with [created = true]; and every later call returns
    that same id with [created = false], whatever identifier [uuid.v4] would
    produce then. *)
Theorem anonymousUserID_is_created_once s stored uuid1 :
  working s →
  holds_string s ANONYMOUS_USER_ID_KEY stored →
  uuid1 ≠ "" →
  ∃ s1,
    anonymousUserID uuid1 s
    = (Returned (if truthy stored then default "" stored else uuid1, negb (truthy stored)),
       s1)
    ∧ ∀ uuid2,
        anonymousUserID uuid2 s1
        = (Returned (if truthy stored then default "" stored else uuid1, false), s1).
Proof.
  intros (b & Hb & Hget & Hf) Hstored Huuid.
  unfold holds_string, slot in Hstored. rewrite Hb in Hstored.
  assert (∀ s' b' x,
            _storage s' = Some b' → get_throws b' = None →
            slots b' !! ANONYMOUS_USER_ID_KEY = Some (JString x) → truthy (Some x) = true →
            ∀ uuid2, anonymousUserID uuid2 s' = (Returned (x, false), s')) as Hkept.
  { intros s' b' x Hb' Hget' Hslot Hx uuid2. unfold anonymousUserID.
    rewrite (bind_Returned _ _ _ _ _ (storage_get_run s' b' _ _ Hb' Hget')).
    unfold read. rewrite Hslot. simpl as_string_or_null. rewrite bind_ret.
    by rewrite Hx. }
  assert (∀ v, read ANONYMOUS_USER_ID_KEY JNull (slots b) = v →
               truthy stored = false →
               (v = JNull ∨ v = JString "") →
               ∃ s1,
                 anonymousUserID uuid1 s = (Returned (uuid1, true), s1)
                 ∧ ∀ uuid2, anonymousUserID uuid2 s1 = (Returned (uuid1, false), s1))
    as Hcreated.
  { intros v Hv Hfalsy Hcases.
    exists (set_slots b (written ANONYMOUS_USER_ID_KEY (JString uuid1) (slots b)) s).
    split.
    - unfold anonymousUserID.
      rewrite (bind_Returned _ _ _ _ _ (storage_get_run s b _ _ Hb Hget)), Hv.
      destruct Hcases as [-> | ->]; simpl as_string_or_null; rewrite bind_ret; simpl.
      + by rewrite (bind_Returned _ _ _ _ _
                      (try_catch_Returned _ _ _ _ _ (storage_update_run s b _ _ Hb Hf))).
      + by rewrite (bind_Returned _ _ _ _ _
                      (try_catch_Returned _ _ _ _ _ (storage_update_run s b _ _ Hb Hf))).
    - eapply Hkept; [done|done|by apply lookup_insert_eq|].
      by destruct uuid1. }
  unfold read in Hcreated.
  destruct (slots b !! ANONYMOUS_USER_ID_KEY) as [[| |x|l]|] eqn:Hslot;
    simpl in Hstored; try done; subst stored; simpl.
  - by apply (Hcreated JNull); [| |left].
  - by apply (Hcreated JNull); [| |left].
  - destruct x as [|c x].
    + by apply (Hcreated (JString "")); [| |right].
    + exists s. simpl. split; [|by eapply Hkept].
      by apply (Hkept s b (String c x)).
  - by apply (Hcreated JNull); [| |left].
Qed.

Lemma anonymousUserID_is_created_once_witness :
  working new_installation
  ∧ holds_string new_installation ANONYMOUS_USER_ID_KEY None
  ∧ ∃ s1,
      anonymousUserID "id-1" new_installation = (Returned ("id-1", true), s1)
      ∧ anonymousUserID "id-2" s1 = (Returned ("id-1", false), s1).
Proof.
  assert (working new_installation) as Hworking by (by eexists).
  assert (holds_string new_installation ANONYMOUS_USER_ID_KEY None) as Hstored by done.
  split_and!; [done..|].
  destruct (anonymousUserID_is_created_once new_installation None "id-1"
              Hworking Hstored) as (s1 & Hrun1 & Hrun2); [done|].
  exists s1. split; [exact Hrun1|]. exact (Hrun2 "id-2").
Defined.

(** X18: without a store that can write, the anonymous user id is not kept.
    When nothing is stored and the backend's [update] throws,
    [anonymousUserID] still returns the new id with [created = true] and
    reports the error on the console; the next call does the same with the
    next new id. *)
Theorem anonymousUserID_when_the_store_cannot_write s b e uuid1 :
  _storage s = Some b → get_throws b = None →
  update_fails b = Some (UpdateThrows e) →
  holds_string s ANONYMOUS_USER_ID_KEY None →
  anonymousUserID uuid1 s = (Returned (uuid1, true), add_console e s)
  ∧ ∀ uuid2,
      anonymousUserID uuid2 (add_console e s)
      = (Returned (uuid2, true), add_console e (add_console e s)).
Proof.
  intros Hb Hget Hf Hstored.
  assert (∀ s' uuid, _storage s' = Some b →
            anonymousUserID uuid s' = (Returned (uuid, true), add_console e s')) as Hrun.
  { intros s' uuid Hb'. unfold anonymousUserID.
    rewrite (bind_Returned _ _ _ _ _ (storage_get_run s' b _ _ Hb' Hget)).
    unfold holds_string, slot in Hstored. rewrite Hb in Hstored. unfold read.
    assert (storage_update ANONYMOUS_USER_ID_KEY (JString uuid) s' = (Thrown e, s'))
      as Hupdate.
    { unfold storage_update, storage, adapter_update, mbind, Eff_bind.
      rewrite Hb'. simpl. by rewrite Hb', Hf. }
    destruct (slots b !! ANONYMOUS_USER_ID_KEY) as [[| |x|l]|];
      simpl in Hstored; try done; simpl as_string_or_null; rewrite bind_ret; simpl;
      by rewrite (bind_Returned _ _ _ _ _ (try_catch_Thrown _ _ _ _ _ Hupdate)). }
  split; [by apply Hrun|]. intros uuid2. by apply Hrun.
Qed.

Lemma anonymousUserID_when_the_store_cannot_write_witness :
  anonymousUserID "id-1" (state_of ∅ read_only_backend)
  = (Returned ("id-1", true),
     add_console (BackendError "read-only") (state_of ∅ read_only_backend)).
Proof.
  by apply (anonymousUserID_when_the_store_cannot_write
              (state_of ∅ read_only_backend) read_only_backend
              (BackendError "read-only") "id-1").
Defined.

End settings.

(** * The last used endpoint and the endpoint history *)

Section endpoint_sets.

Import Settings.

Local Open Scope list_scope.

Lemma Set_add_spec x set :
  NoDup set → NoDup (Set_add x set) ∧ ∀ y, y ∈ Set_add x set ↔ y ∈ set ∨ y = x.
Proof.
  intros Hset. unfold Set_add. case_decide as Hin.
  - split; [done|]. intros y. split; [by left|]. by intros [?| ->].
  - split.
    + apply NoDup_app. split_and!; [done| |by apply NoDup_singleton].
      by intros y Hy ->%list_elem_of_singleton.
    + intros y. by rewrite elem_of_app, list_elem_of_singleton.
Qed.

Lemma foldl_Set_add_spec items set :
  NoDup set →
  NoDup (foldl (λ set' x, Set_add x set') set items)
  ∧ ∀ y, y ∈ foldl (λ set' x, Set_add x set') set items ↔ y ∈ set ∨ y ∈ items.
Proof.
  revert set. induction items as [|x items IH]; intros set Hset; simpl.
  - split; [done|]. intros y. split; [by left|]. by intros [|?%elem_of_nil].
  - destruct (Set_add_spec x set Hset) as [Hadd Hin].
    destruct (IH _ Hadd) as [Hfold Hin']. split; [done|]. intros y.
    rewrite Hin', Hin, elem_of_cons. tauto.
Qed.

(** [new Set(items)] has the elements of [items], each once. *)
Lemma new_Set_spec items :
  NoDup (new_Set items) ∧ ∀ y, y ∈ new_Set items ↔ y ∈ items.
Proof.
  destruct (foldl_Set_add_spec items [] (NoDup_nil_2)) as [Hfold Hin].
  split; [done|]. intros y. unfold new_Set. rewrite Hin. split; [|by right].
  by intros [?%elem_of_nil|].
Qed.

(** The endpoint history after [endpoint] was added to it. *)
Lemma historySet_spec endpoint items :
  let history := Set_add endpoint (Set_delete endpoint (new_Set items)) in
  NoDup history ∧ last history = Some endpoint
  ∧ ∀ y, y ∈ history ↔ y = endpoint ∨ y ∈ items.
Proof.
  destruct (new_Set_spec items) as [Hnodup Hin]. simpl.
  assert (endpoint ∉ Set_delete endpoint (new_Set items)) as Hnot.
  { unfold Set_delete. by intros [? _]%list_elem_of_filter. }
  unfold Set_add. rewrite decide_False by done. split_and!.
  - apply NoDup_app. split_and!; [by apply NoDup_filter| |by apply NoDup_singleton].
    intros y Hy ->%list_elem_of_singleton. done.
  - by rewrite last_snoc.
  - intros y. unfold Set_delete.
    rewrite elem_of_app, list_elem_of_singleton, list_elem_of_filter, Hin.
    destruct (decide (y = endpoint)); tauto.
Qed.

End endpoint_sets.

Section endpoints.

Import Settings.

Local Open Scope list_scope.

Context (isSourcegraphToken : string → bool) (href : string → option string).

Implicit Types (s : State) (b : Backend) (items : list string).

(** [addEndpointHistory] on a working backend whose history slot is empty,
    [null] or an array. *)
Lemma addEndpointHistory_run s b endpoint items :
  _storage s = Some b → get_throws b = None → update_fails b = None →
  isSourcegraphToken endpoint = false →
  holds_array s CODY_ENDPOINT_HISTORY true items →
  ∃ spread,
    arrays s !! spread = None
    ∧ addEndpointHistory isSourcegraphToken endpoint s
      = (Returned tt,
         set_slots b (<[CODY_ENDPOINT_HISTORY := JArray spread]> (slots b))
           (set_arrays
              (<[spread := Set_add endpoint (Set_delete endpoint (new_Set items))]>
                 (arrays s)) s)).
Proof.
  intros Hb Hget Hf Htoken Hitems.
  exists (fresh (dom (arrays s))). split; [apply new_array_fresh|].
  unfold addEndpointHistory. rewrite Htoken.
  rewrite (bind_Returned _ _ _ _ _ (storage_get_run s b _ _ Hb Hget)).
  unfold holds_array, slot in Hitems. rewrite Hb in Hitems. unfold read.
  assert (∀ s', _storage s' = Some b →
            (storage;; spread ← new_array (Set_add endpoint
                                             (Set_delete endpoint (new_Set items)));
             adapter_update CODY_ENDPOINT_HISTORY (JArray spread)) s'
            = (Returned tt,
               set_slots b (<[CODY_ENDPOINT_HISTORY := JArray (fresh (dom (arrays s')))]>
                              (slots b))
                 (set_arrays
                    (<[fresh (dom (arrays s'))
                       := Set_add endpoint (Set_delete endpoint (new_Set items))]>
                       (arrays s')) s'))) as Hwrite.
  { intros s' Hb'. rewrite (bind_Returned _ _ _ _ _ (storage_run s' b Hb')).
    unfold new_array, adapter_update, mbind, Eff_bind. simpl. by rewrite Hb', Hf. }
  destruct (slots b !! CODY_ENDPOINT_HISTORY) as [[| |x|l]|];
    simpl in Hitems; try done.
  - subst items. simpl as_array_or_null. rewrite !bind_ret. by apply Hwrite.
  - destruct Hitems as [_ ->]. simpl as_array_or_null. rewrite !bind_ret.
    by apply Hwrite.
  - simpl as_array_or_null. rewrite bind_ret.
    rewrite (bind_Returned _ _ _ _ _ (array_items_run s l _ Hitems)). by apply Hwrite.
  - subst items. simpl as_array_or_null. rewrite !bind_ret. by apply Hwrite.
Qed.

(** X19: a saved endpoint is the last used one and the last of the history.
    On a working backend whose history slot is empty, [null] or an array, for
    an endpoint that is not empty, is not an access token and is a valid URL
    whose normal form [uri] is not an access token either, [saveEndpoint]
    returns without reporting an error; then [getEndpoint] returns [uri], and
    the stored history, which [getEndpointHistory] returns, has no duplicates,
    ends with [uri], and has exactly [uri] and the entries it had before. *)
Theorem saveEndpoint_then_getEndpoint s endpoint uri items :
  working s →
  endpoint ≠ "" →
  isSourcegraphToken endpoint = false →
  href endpoint = Some uri →
  isSourcegraphToken uri = false →
  holds_array s CODY_ENDPOINT_HISTORY true items →
  ∃ s1 history,
    saveEndpoint isSourcegraphToken href endpoint s = (Returned tt, s1)
    ∧ getEndpoint isSourcegraphToken s1 = (Returned (Some uri), s1)
    ∧ stored_array s1 CODY_ENDPOINT_HISTORY = Some history
    ∧ (∃ l, getEndpointHistory s1 = (Returned (JArray l), s1)
            ∧ arrays s1 !! l = Some history)
    ∧ NoDup history
    ∧ last history = Some uri
    ∧ (∀ x, x ∈ history ↔ x = uri ∨ x ∈ items)
    ∧ console s1 = console s.
Proof.
  intros (b & Hb & Hget & Hf) Hendpoint Htoken Hhref Huri Hitems.
  set (b1 := {| slots := <[LAST_USED_ENDPOINT := JString uri]> (slots b);
                get_throws := get_throws b; update_fails := update_fails b |}).
  set (s0 := set_slots b (written LAST_USED_ENDPOINT (JString uri) (slots b)) s).
  assert (_storage s0 = Some b1) as Hb1 by done.
  assert (holds_array s0 CODY_ENDPOINT_HISTORY true items) as Hitems0.
  { unfold holds_array, slot in *. rewrite Hb in Hitems. simpl.
    by rewrite lookup_insert_ne. }
  destruct (addEndpointHistory_run s0 b1 uri items Hb1 Hget Hf Huri Hitems0)
    as (spread & Hspread & Hadd).
  destruct (historySet_spec uri items) as (Hnodup & Hlast & Hin).
  set (s1 := set_slots b1 (<[CODY_ENDPOINT_HISTORY := JArray spread]> (slots b1))
               (set_arrays
                  (<[spread := Set_add uri (Set_delete uri (new_Set items))]> (arrays s0))
                  s0)) in *.
  set (b2 := {| slots := <[CODY_ENDPOINT_HISTORY := JArray spread]> (slots b1);
                get_throws := get_throws b1; update_fails := update_fails b1 |}).
  assert (_storage s1 = Some b2) as Hb2 by done.
  exists s1, (Set_add uri (Set_delete uri (new_Set items))). split_and!.
  - unfold saveEndpoint. rewrite decide_False by done. rewrite Htoken, Hhref.
    apply try_catch_Returned. rewrite bind_ret.
    rewrite (bind_Returned _ _ _ _ _ (storage_update_run s b _ _ Hb Hf)).
    exact Hadd.
  - unfold getEndpoint.
    rewrite (bind_Returned _ _ _ _ _ (storage_get_run s1 b2 _ _ Hb2 Hget)).
    unfold read. simpl. rewrite lookup_insert_ne by done. rewrite lookup_insert_eq.
    simpl as_string_or_null. rewrite bind_ret. simpl. rewrite Huri.
    by rewrite andb_false_r.
  - unfold stored_array, slot. simpl. rewrite lookup_insert_eq. simpl.
    by rewrite lookup_insert_eq.
  - exists spread. split; [|by apply lookup_insert_eq].
    unfold getEndpointHistory.
    rewrite (storage_get_run s1 b2 _ _ Hb2 Hget). unfold read. simpl.
    by rewrite lookup_insert_eq.
  - done.
  - done.
  - done.
  - done.
Qed.

(** X20: [getEndpoint] never hands out an access token.  Whatever the state,
    a string that [getEndpoint] returns is empty or is not an access token.
    On a working backend whose last used endpoint is a non-empty access token,
    it returns [null] and the slot is then [null]. *)
Theorem getEndpoint_never_returns_a_token s :
  (∀ endpoint s',
     getEndpoint isSourcegraphToken s = (Returned (Some endpoint), s') →
     endpoint = "" ∨ isSourcegraphToken endpoint = false)
  ∧ ∀ token,
      working s →
      slot s LAST_USED_ENDPOINT = JString token →
      token ≠ "" →
      isSourcegraphToken token = true →
      ∃ s',
        getEndpoint isSourcegraphToken s = (Returned None, s')
        ∧ slot s' LAST_USED_ENDPOINT = JNull
        ∧ unhandled_rejections s' = unhandled_rejections s.
Proof.
  split.
  - intros endpoint s'. unfold getEndpoint, mbind, Eff_bind.
    destruct (storage_get LAST_USED_ENDPOINT JNull s) as [[v|e] s0]; [|done].
    destruct v as [| |x|l]; simpl; try done.
    destruct x as [|c x]; simpl; [intros [= <- <-]; by left|].
    destruct (isSourcegraphToken (String c x)) eqn:Htoken.
    + unfold void. by destruct (deleteEndpoint s0) as [[[]|e] s1].
    + intros [= <- <-]. by right.
  - intros token (b & Hb & Hget & Hf) Hslot Hsome Htoken.
    unfold slot in Hslot. rewrite Hb in Hslot.
    exists (set_slots b (written LAST_USED_ENDPOINT JNull (slots b)) s). split_and!.
    + unfold getEndpoint.
      rewrite (bind_Returned _ _ _ _ _ (storage_get_run s b _ _ Hb Hget)).
      unfold read. destruct (slots b !! LAST_USED_ENDPOINT) as [v|]; [|done].
      simpl in Hslot. subst v. simpl as_string_or_null. rewrite bind_ret. simpl.
      rewrite Htoken. destruct token as [|c x]; [done|]. simpl.
      assert (void deleteEndpoint s
              = (Returned tt, set_slots b (written LAST_USED_ENDPOINT JNull (slots b)) s))
        as Hvoid.
      { unfold void, deleteEndpoint. by rewrite (storage_update_run s b _ _ Hb Hf). }
      by rewrite (bind_Returned _ _ _ _ _ Hvoid).
    + unfold slot. simpl. by rewrite lookup_insert_eq.
    + done.
Qed.

(** X21: [saveEndpoint] never fails and keeps bad input out of the store.
    Whatever the state, [saveEndpoint] returns.  For the empty string and for
    an access token it changes nothing; for a string that is no valid URL it
    reports the error on the console and changes nothing else. *)
Theorem saveEndpoint_never_fails s endpoint :
  (∃ s', saveEndpoint isSourcegraphToken href endpoint s = (Returned tt, s'))
  ∧ (endpoint = "" ∨ isSourcegraphToken endpoint = true →
     saveEndpoint isSourcegraphToken href endpoint s = (Returned tt, s))
  ∧ (endpoint ≠ "" → isSourcegraphToken endpoint = false → href endpoint = None →
     saveEndpoint isSourcegraphToken href endpoint s
     = (Returned tt, add_console TypeError s)).
Proof.
  split_and!.
  - unfold saveEndpoint. case_decide; [by eexists|]. unfold try_catch.
    match goal with |- context [match ?body s with _ => _ end] =>
      destruct (body s) as [[[]|e] s1] end; by eexists.
  - unfold saveEndpoint. intros [->|Htoken]; [done|].
    case_decide; [done|]. by rewrite Htoken.
  - intros Hendpoint Htoken Hhref. unfold saveEndpoint.
    rewrite decide_False by done. by rewrite Htoken, Hhref.
Qed.

End endpoints.

Section endpoint_examples.

Import Settings.

Lemma saveEndpoint_then_getEndpoint_witness :
  working new_installation
  ∧ holds_array new_installation CODY_ENDPOINT_HISTORY true []
  ∧ ∃ s1,
      saveEndpoint sample_isSourcegraphToken sample_href "https://sourcegraph.com/"
        new_installation
      = (Returned tt, s1)
      ∧ getEndpoint sample_isSourcegraphToken s1
        = (Returned (Some "https://sourcegraph.com/"), s1)
      ∧ stored_array s1 CODY_ENDPOINT_HISTORY = Some ["https://sourcegraph.com/"].
Proof.
  assert (working new_installation) as Hworking by (by eexists).
  assert (holds_array new_installation CODY_ENDPOINT_HISTORY true []) as Hitems by done.
  split_and!; [done..|].
  destruct (saveEndpoint_then_getEndpoint sample_isSourcegraphToken sample_href
              new_installation "https://sourcegraph.com/" "https://sourcegraph.com/" []
              Hworking) as (s1 & history & Hsave & Hget & Hstored & _);
    [done..|].
  exists s1. split_and!; [done|done|].
  rewrite Hstored. f_equal.
  injection Hsave as <-. by vm_compute in Hstored; injection Hstored as <-.
Defined.

End endpoint_examples.
